(** * Online Marketplace Management System: the transactional data layer

    A shallow embedding of [Project File/final.cpp]: the record classes
    ([Product], [Seller], [CartItem], [Customer]), the flat-file
    persistence ([saveData], [loadData]) and the operations of the
    [Marketplace] controller that touch stock, ratings and carts
    (add to cart, undo, [showTopRatedProducts], [processCheckout]).

    Conventions of the embedding.
    - [int] is a 32-bit signed integer, held as a [Z] between [INT_MIN]
      and [INT_MAX].  All the integer arithmetic of the program is signed,
      and C++ leaves a signed overflow undefined: the operations compute
      in [Z] and a run in which a result leaves the range ends in
      [Undefined].  The compiled program goes on with the result wrapped
      around into the range; module [Wrapped] gives the checkout and the
      load a second time with this arithmetic.
    - [double] is held as a rational in lowest terms ([Q] after [Qred]):
      the arithmetic is exact, there is no rounding, infinity or NaN.  A
      run that reads an infinity or a NaN from a file ends in
      [NonFinite], where the embedding stops following it.
    - [std::stack] is a list whose head is the top, [std::queue] a list
      whose head is the front, [std::vector] a list.
    - The console is an explicit input of pending lines and an output of
      events; the four text files are explicit values. *)

From Stdlib Require Import ZArith QArith Qreduction Lqa Bool List Ascii String.
From Stdlib Require Import Sorted Permutation Lia.
Import ListNotations.

Local Open Scope Z_scope.

(** ** Outcomes of a run *)

Inductive Outcome (A : Type) : Type :=
| Done (a : A)      (* the call returns *)
| Undefined         (* signed overflow, or a vector index out of range *)
| Thrown            (* uncaught exception of std::stoi / std::stod *)
| Blocked           (* the rating prompt repeats forever at end of input *)
| NonFinite.        (* std::stod returns an infinity or a NaN *)

Arguments Done {A} a.
Arguments Undefined {A}.
Arguments Thrown {A}.
Arguments Blocked {A}.
Arguments NonFinite {A}.

Definition bind {A B : Type} (c : Outcome A) (k : A -> Outcome B) : Outcome B :=
  match c with
  | Done a => k a
  | Undefined => Undefined
  | Thrown => Thrown
  | Blocked => Blocked
  | NonFinite => NonFinite
  end.

Declare Scope outcome_scope.
Delimit Scope outcome_scope with outcome.
Notation "x <- c ;; k" := (bind c (fun x => k))
  (at level 61, c at next level, right associativity) : outcome_scope.
Notation "' pat <- c ;; k" := (bind c (fun x => match x with pat => k end))
  (at level 61, pat pattern, c at next level, right associativity) : outcome_scope.
Local Open Scope outcome_scope.

(** ** The type [int] *)

Definition INT_MIN : Z := - 2 ^ 31.
Definition INT_MAX : Z := 2 ^ 31 - 1.

Definition in_int (z : Z) : bool := (INT_MIN <=? z) && (z <=? INT_MAX).

(** The result of a signed operation: the value when it fits. *)
Definition int_result (z : Z) : Outcome Z :=
  if in_int z then Done z else Undefined.

(** ** The type [double] *)

Definition dadd (a b : Q) : Q := Qred (a + b).
Definition dmul (a b : Q) : Q := Qred (a * b).
Definition ddiv (a b : Q) : Q := Qred (a / b).
Definition dlt (a b : Q) : bool := negb (Qle_bool b a).
(** Conversion of an [int] operand in a mixed expression. *)
Definition dint (z : Z) : Q := inject_Z z.

(** ** Records *)

Module Product.

Record t : Type := mk {
  id : Z;
  name : string;
  price : Q;
  category : string;
  quantity : Z;
  sellerId : Z;
  ratingSum : Q;
  ratingCount : Z
}.

(** [Product(pid, pname, pprice, pcat, pqty, sid, rSum = 0, rCount = 0)]
    with the two defaulted arguments. *)
Definition fresh (pid : Z) (pname : string) (pprice : Q) (pcat : string)
    (pqty sid : Z) : t :=
  mk pid pname pprice pcat pqty sid 0%Q 0.

Definition set_quantity (p : t) (q : Z) : t :=
  mk (id p) (name p) (price p) (category p) q (sellerId p)
     (ratingSum p) (ratingCount p).

Definition set_rating (p : t) (s : Q) (c : Z) : t :=
  mk (id p) (name p) (price p) (category p) (quantity p) (sellerId p) s c.

(** [if (ratingCount == 0) return 0.0; return ratingSum / ratingCount;] *)
Definition getAverageRating (p : t) : Q :=
  if ratingCount p =? 0 then 0%Q
  else ddiv (ratingSum p) (dint (ratingCount p)).

(** [ratingSum += rate; ratingCount++;] *)
Definition addRating (p : t) (rate : Q) : Outcome t :=
  c <- int_result (ratingCount p + 1) ;;
  Done (set_rating p (dadd (ratingSum p) rate) c).

(** [operator<]: a lower average rating is a lower priority. *)
Definition lt (p other : t) : bool :=
  dlt (getAverageRating p) (getAverageRating other).

End Product.

Module Seller.

Record t : Type := mk {
  id : Z;
  name : string;
  email : string
}.

End Seller.

Module CartItem.

Record t : Type := mk {
  product : Product.t;
  buyQty : Z
}.

End CartItem.

Module Customer.

Record t : Type := mk {
  id : Z;
  name : string;
  address : string;
  phone : string;
  email : string;
  cartStack : list CartItem.t
}.

(** The constructor leaves the cart empty. *)
Definition fresh (cid : Z) (cname caddr cphone cemail : string) : t :=
  mk cid cname caddr cphone cemail [].

Definition set_cartStack (c : t) (s : list CartItem.t) : t :=
  mk (id c) (name c) (address c) (phone c) (email c) s.

End Customer.

(** ** Text: what the streams write and what [stoi], [stod] and
    [getline] read *)

Module Text.

Local Open Scope string_scope.
Local Open Scope Z_scope.

Definition bar : ascii := "|"%char.
Definition nl : ascii := "010"%char.

Definition is_digit (c : ascii) : bool :=
  let n := nat_of_ascii c in (48 <=? n)%nat && (n <=? 57)%nat.

Definition digit_value (c : ascii) : Z := Z.of_nat (nat_of_ascii c) - 48.

Definition digit_char (d : Z) : ascii := ascii_of_nat (Z.to_nat d + 48).

(** [isspace]: space, and the controls from tab to carriage return. *)
Definition is_space (c : ascii) : bool :=
  let n := nat_of_ascii c in
  (n =? 32)%nat || ((9 <=? n)%nat && (n <=? 13)%nat).

(** Decimal digits of [n], most significant first, in front of [acc]. *)
Fixpoint show_digits (fuel : nat) (n : Z) (acc : string) : string :=
  match fuel with
  | O => acc
  | S f =>
      let acc' := String (digit_char (n mod 10)) acc in
      if n <? 10 then acc' else show_digits f (n / 10) acc'
  end.

Definition show_nat (n : Z) : string :=
  show_digits (S (Z.to_nat (Z.log2 n))) n "".

(** [stream << i] for an [int]. *)
Definition show_int (z : Z) : string :=
  if z <? 0 then String "-" (show_nat (- z)) else show_nat z.

Fixpoint skip_space (s : string) : string :=
  match s with
  | String c r => if is_space c then skip_space r else s
  | "" => ""
  end.

Definition read_sign (s : string) : bool * string :=
  match s with
  | String "-" r => (true, r)
  | String "+" r => (false, r)
  | _ => (false, s)
  end.

(** The longest run of digits at the front, as a number continuing
    [acc], and what follows it. *)
Fixpoint read_digits (acc : Z) (s : string) : Z * string :=
  match s with
  | String c r =>
      if is_digit c then read_digits (acc * 10 + digit_value c) r
      else (acc, s)
  | "" => (acc, "")
  end.

Definition starts_digit (s : string) : bool :=
  match s with
  | String c _ => is_digit c
  | "" => false
  end.

(** [std::stoi]: leading white space, an optional sign, digits; what
    follows the digits is ignored.  It throws when there is no digit
    and when the value does not fit an [int]. *)
Definition stoi (s : string) : Outcome Z :=
  let '(neg, s1) := read_sign (skip_space s) in
  if starts_digit s1 then
    let v := fst (read_digits 0 s1) in
    let z := if neg then - v else v in
    if in_int z then Done z else Thrown
  else Thrown.

(** The exponent part of a decimal literal, 0 when there is none. *)
Definition read_exponent (s : string) : Z :=
  match s with
  | String c r =>
      if ((c =? "e") || (c =? "E"))%char then
        let '(neg, r1) := read_sign r in
        if starts_digit r1 then
          let v := fst (read_digits 0 r1) in if neg then - v else v
        else 0
      else 0
  | "" => 0
  end.

Definition scale10 (m e : Z) : Q :=
  if 0 <=? e then inject_Z (m * 10 ^ e)
  else Qmake m (Z.to_pos (10 ^ (- e))).

(** Hexadecimal digits, for the hexadecimal form of a floating
    literal. *)
Definition is_xdigit (c : ascii) : bool :=
  let n := nat_of_ascii c in
  is_digit c || ((65 <=? n)%nat && (n <=? 70)%nat)
  || ((97 <=? n)%nat && (n <=? 102)%nat).

Definition xdigit_value (c : ascii) : Z :=
  let n := Z.of_nat (nat_of_ascii c) in
  if is_digit c then n - 48 else if n <? 97 then n - 55 else n - 87.

Fixpoint read_xdigits (acc : Z) (s : string) : Z * string :=
  match s with
  | String c r =>
      if is_xdigit c then read_xdigits (acc * 16 + xdigit_value c) r
      else (acc, s)
  | "" => (acc, "")
  end.

Definition starts_xdigit (s : string) : bool :=
  match s with
  | String c _ => is_xdigit c
  | "" => false
  end.

(** The binary exponent of a hexadecimal literal, 0 when there is
    none. *)
Definition read_binary_exponent (s : string) : Z :=
  match s with
  | String c r =>
      if ((c =? "p") || (c =? "P"))%char then
        let '(neg, r1) := read_sign r in
        if starts_digit r1 then
          let v := fst (read_digits 0 r1) in if neg then - v else v
        else 0
      else 0
  | "" => 0
  end.

Definition scale2 (m e : Z) : Q :=
  if 0 <=? e then inject_Z (m * 2 ^ e)
  else Qmake m (Z.to_pos (2 ^ (- e))).

(** The decimal form: digits with an optional fraction and an optional
    exponent.  The value is the exact decimal value; there is none when
    there is no digit. *)
Definition read_decimal (s1 : string) : option Q :=
  let '(ip, s2) := read_digits 0 s1 in
  let '(fp, fl, has_fp, s3) :=
    match s2 with
    | String "." r =>
        let '(v, rest) := read_digits 0 r in
        (v, Z.of_nat (String.length r) - Z.of_nat (String.length rest),
         starts_digit r, rest)
    | _ => (0, 0, false, s2)
    end in
  if starts_digit s1 || has_fp then
    Some (scale10 (ip * 10 ^ fl + fp) (read_exponent s3 - fl))
  else None.

(** The hexadecimal form, from what follows [0x]: hexadecimal digits
    with an optional fraction and an optional power of two. *)
Definition read_hexadecimal (s1 : string) : option Q :=
  let '(ip, s2) := read_xdigits 0 s1 in
  let '(fp, fl, has_fp, s3) :=
    match s2 with
    | String "." r =>
        let '(v, rest) := read_xdigits 0 r in
        (v, Z.of_nat (String.length r) - Z.of_nat (String.length rest),
         starts_xdigit r, rest)
    | _ => (0, 0, false, s2)
    end in
  if starts_xdigit s1 || has_fp then
    Some (scale2 (ip * 16 ^ fl + fp) (read_binary_exponent s3 - 4 * fl))
  else None.

(** The magnitude behind the sign.  A [0x] that no hexadecimal digit
    follows is read as the decimal [0]. *)
Definition read_magnitude (s1 : string) : option Q :=
  match s1 with
  | String "0" (String x r) =>
      if ((x =? "x") || (x =? "X"))%char then
        match read_hexadecimal r with
        | Some v => Some v
        | None => read_decimal s1
        end
      else read_decimal s1
  | _ => read_decimal s1
  end.

(** [tolower] on the letters. *)
Definition lower (c : ascii) : ascii :=
  let n := nat_of_ascii c in
  if (65 <=? n)%nat && (n <=? 90)%nat then ascii_of_nat (n + 32) else c.

(** [s] begins with the lower-case word [w], in either case. *)
Fixpoint starts_with_nocase (w s : string) : bool :=
  match w, s with
  | "", _ => true
  | String a w', String b s' => (a =? lower b)%char && starts_with_nocase w' s'
  | String _ _, "" => false
  end.

(** The literals of the infinities and of the NaNs. *)
Definition names_non_finite (s1 : string) : bool :=
  starts_with_nocase "inf" s1 || starts_with_nocase "nan" s1.

(** The range errors of the conversion to [double], for a magnitude
    [v].  The value overflows when it rounds to infinity: it is at least
    [2^1024 - 2^970], the largest [double] plus half a unit in its last
    place.  It underflows when it is not zero, rounds to less than the
    least normal [double] [2^-1022], and is no multiple of [2^-1074],
    so that no subnormal [double] holds it exactly. *)
Definition overflows (v : Q) : bool :=
  Qle_bool (inject_Z (2 ^ 1024 - 2 ^ 970)) v.

Definition underflows (v : Q) : bool :=
  negb (Qnum v =? 0)
  && negb (Qle_bool (Qmake (2 ^ 54 - 1) (Z.to_pos (2 ^ 1076))) v)
  && negb ((Qnum v * 2 ^ 1074) mod Zpos (Qden v) =? 0).

(** [std::stod]: white space, a sign, and a decimal or a hexadecimal
    literal; what follows the literal is ignored.  The value is the
    exact value of the literal.  It throws [std::invalid_argument] when
    there is no digit and [std::out_of_range] when the conversion
    reports a range error.  On the name of an infinity or of a NaN it
    returns a value that no rational holds. *)
Definition stod (s : string) : Outcome Q :=
  let '(neg, s1) := read_sign (skip_space s) in
  if names_non_finite s1 then NonFinite
  else match read_magnitude s1 with
       | Some v =>
           if overflows v || underflows v then Thrown
           else Done (Qred (if neg then - v else v))
       | None => Thrown
       end.

(** Rounding of [num / den] to the nearest integer, ties to even. *)
Definition round_half_even (num den : Z) : Z :=
  let q := num / den in
  let r := num mod den in
  match 2 * r ?= den with
  | Lt => q
  | Gt => q + 1
  | Eq => if Z.even q then q else q + 1
  end.

Fixpoint zeros (k : nat) : string :=
  match k with
  | O => ""
  | S k' => String "0" (zeros k')
  end.

(** Left padding with zeros up to width [k]. *)
Definition pad (k : nat) (s : string) : string :=
  zeros (k - String.length s) ++ s.

Fixpoint strip_trailing_zeros (s : string) : string :=
  match s with
  | "" => ""
  | String c r =>
      let r' := strip_trailing_zeros r in
      if ((c =? "0")%char && (r' =? "")%string)%bool then "" else String c r'
  end.

(** The digits after the point: [f] written on [k] places, without the
    trailing zeros, and without the point when nothing is left. *)
Definition fraction (k : nat) (f : Z) : string :=
  let d := strip_trailing_zeros (pad k (show_nat f)) in
  if (d =? "")%string then "" else String "." d.

(** Number of decimal digits of a positive integer. *)
Definition ndigits (n : Z) : Z := Z.of_nat (String.length (show_nat n)).

(** [stream << d] for a [double] on a stream in its initial state: the
    [%g] conversion with precision 6.  The value is rounded to six
    significant digits; the exponent [x] of the rounded value selects
    the fixed form ([-4 <= x < 6]) or the scientific one, and trailing
    zeros are removed. *)
Definition show_double (q : Q) : string :=
  if Qnum q =? 0 then "0" else
  let n := Z.abs (Qnum q) in
  let d := Zpos (Qden q) in
  let c := ndigits n - ndigits d in
  let x0 := if (if 0 <=? c then 10 ^ c * d <=? n else d <=? n * 10 ^ (- c))
            then c else c - 1 in
  let m0 := if x0 <=? 5 then round_half_even (n * 10 ^ (5 - x0)) d
            else round_half_even n (d * 10 ^ (x0 - 5)) in
  let '(m, x) := if m0 =? 10 ^ 6 then (10 ^ 5, x0 + 1) else (m0, x0) in
  let body :=
    if (-4 <=? x) && (x <? 6) then
      let k := 5 - x in
      show_nat (m / 10 ^ k) ++ fraction (Z.to_nat k) (m mod 10 ^ k)
    else
      show_nat (m / 10 ^ 5) ++ fraction 5 (m mod 10 ^ 5)
      ++ String "e" (String (if (x <? 0)%Z then "-"%char else "+"%char)
                       (pad 2 (show_nat (Z.abs x)))) in
  if Qnum q <? 0 then String "-" body else body.

(** The fields of a line: the loop
    [while (getline(ss, segment, d)) data.push_back(segment);].
    A read succeeds when it takes at least one character, the delimiter
    included, so an empty last field is not produced. *)
Fixpoint segments (d : ascii) (s : string) : list string :=
  match s with
  | "" => []
  | String c r =>
      if (c =? d)%char then "" :: segments d r
      else match segments d r with
           | [] => [String c ""]
           | seg :: more => String c seg :: more
           end
  end.

(** [data[i]] of a vector known to be long enough. *)
Definition field (data : list string) (i : nat) : string := nth i data "".

End Text.

(** ** The console *)

(** What [cin >> r] meets: an integer literal, or text that is no
    integer.  The input is the list of the pending lines, each one the
    list of the items still unread on it. *)
Inductive token : Type :=
| Num (z : Z)
| Junk.

Definition Cin : Type := list (list token).

(** What the operations print. *)
Inductive Out : Type :=
| OutCartEmpty                                   (* [INFO] Cart is empty... *)
| OutReceiptHeader                               (* OFFICIAL RECEIPT, date *)
| OutLine (name : string) (qty : Z) (amount : Q) (* name x qty = $amount *)
| OutRatePrompt (name : string)                  (* -> Rate name (1-5): *)
| OutInvalid                                     (* [Invalid] Please enter 1-5: *)
| OutStockError (name : string)                  (* [ERROR] Could not process *)
| OutTotal (total : Q)                           (* TOTAL PAID: $total *)
| OutInsufficient (available : Z)                (* [ERROR] Insufficient Stock! *)
| OutAdded (qty : Z) (name : string)             (* [SUCCESS] Added ... to cart. *)
| OutNotFound                                    (* [ERROR] Product ID not found. *)
| OutRemoved (name : string)                     (* [REMOVED] ... removed *)
| OutAlreadyEmpty.                               (* [INFO] Cart is already empty. *)

(** ** The files *)

(** The content of each of the four files, [None] when it does not exist. *)
Record Files : Type := mkFiles {
  sellers_txt : option string;
  customers_txt : option string;
  products_txt : option string;
  carts_txt : option string
}.

(** ** [std::priority_queue<Product>] *)

(** The container gives back a greatest element under [operator<] first;
    among elements none of which is less than the other the standard
    leaves the order open.  Here the queue is the list of its elements in
    the order in which [top]/[pop] deliver them, and of two such elements
    the one pushed first comes out first. *)
Module PriorityQueue.

Definition t : Type := list Product.t.

Fixpoint push (p : Product.t) (pq : t) : t :=
  match pq with
  | [] => [p]
  | q :: rest => if Product.lt q p then p :: q :: rest else q :: push p rest
  end.

End PriorityQueue.

(** ** The controller *)

Module Marketplace.

Import Text.
Local Open Scope string_scope.
Local Open Scope Z_scope.

Record t : Type := mk {
  sellers : list Seller.t;
  customers : list Customer.t;
  products : list Product.t;
  productCounter : Z;
  sellerCounter : Z;
  customerCounter : Z;
  currentSellerIdx : Z;
  currentCustomerIdx : Z
}.

(** The members as their initialisers leave them, before the
    constructor calls [loadData]. *)
Definition initial : t := mk [] [] [] 1 1 1 (-1) (-1).

Definition set_customers (m : t) (cs : list Customer.t) : t :=
  mk (sellers m) cs (products m) (productCounter m) (sellerCounter m)
     (customerCounter m) (currentSellerIdx m) (currentCustomerIdx m).

Definition set_products (m : t) (ps : list Product.t) : t :=
  mk (sellers m) (customers m) ps (productCounter m) (sellerCounter m)
     (customerCounter m) (currentSellerIdx m) (currentCustomerIdx m).

(** *** File output *)

(** A record as the streams get it: the fields with a bar between two
    of them, and [endl]. *)
Fixpoint join (fields : list string) : string :=
  match fields with
  | [] => ""
  | [f] => f
  | f :: rest => f ++ String bar (join rest)
  end.

Definition row (fields : list string) : string :=
  join fields ++ String nl "".

Definition seller_fields (s : Seller.t) : list string :=
  [show_int (Seller.id s); Seller.name s; Seller.email s].

Definition customer_fields (c : Customer.t) : list string :=
  [show_int (Customer.id c); Customer.name c; Customer.address c;
   Customer.phone c; Customer.email c].

Definition product_fields (p : Product.t) : list string :=
  [show_int (Product.id p); Product.name p; show_double (Product.price p);
   Product.category p; show_int (Product.quantity p);
   show_int (Product.sellerId p); show_double (Product.ratingSum p);
   show_int (Product.ratingCount p)].

Definition cart_fields (cid : Z) (item : CartItem.t) : list string :=
  [show_int cid; show_int (Product.id (CartItem.product item));
   show_int (CartItem.buyQty item)].

Definition seller_line (s : Seller.t) : string := row (seller_fields s).
Definition customer_line (c : Customer.t) : string := row (customer_fields c).
Definition product_line (p : Product.t) : string := row (product_fields p).
Definition cart_line (cid : Z) (item : CartItem.t) : string :=
  row (cart_fields cid item).

(** The copy of the stack is popped from its top until it is empty. *)
Fixpoint cart_lines (cid : Z) (tempStack : list CartItem.t) : string :=
  match tempStack with
  | [] => ""
  | item :: rest => cart_line cid item ++ cart_lines cid rest
  end.

Fixpoint write_all {A : Type} (line : A -> string) (l : list A) : string :=
  match l with
  | [] => ""
  | x :: rest => line x ++ write_all line rest
  end.

(** [saveData]: the four files are opened for writing, which empties
    them, and rewritten from the vectors. *)
Definition saveData (m : t) : Files :=
  mkFiles
    (Some (write_all seller_line (sellers m)))
    (Some (write_all customer_line (customers m)))
    (Some (write_all product_line (products m)))
    (Some (write_all
             (fun c => cart_lines (Customer.id c) (Customer.cartStack c))
             (customers m))).

(** *** File input *)

(** The lines of a file, [getline(file, line)] until it fails; no line
    when the file could not be opened. *)
Definition lines_of (f : option string) : list string :=
  match f with
  | Some content => segments nl content
  | None => []
  end.

(** [if (id >= counter) counter = id + 1;] *)
Definition bump (id counter : Z) : Outcome Z :=
  if counter <=? id then int_result (id + 1) else Done counter.

Definition load_seller (line : string) (acc : list Seller.t * Z)
    : Outcome (list Seller.t * Z) :=
  let '(ss, counter) := acc in
  let data := segments bar line in
  if (3 <=? List.length data)%nat then
    id <- stoi (field data 0) ;;
    counter' <- bump id counter ;;
    Done ((ss ++ [Seller.mk id (field data 1) (field data 2)])%list, counter')
  else Done acc.

Definition load_customer (line : string) (acc : list Customer.t * Z)
    : Outcome (list Customer.t * Z) :=
  let '(cs, counter) := acc in
  let data := segments bar line in
  if (5 <=? List.length data)%nat then
    id <- stoi (field data 0) ;;
    counter' <- bump id counter ;;
    Done ((cs ++ [Customer.fresh id (field data 1) (field data 2)
                    (field data 3) (field data 4)])%list, counter')
  else Done acc.

(** The arguments of the constructor call are evaluated in an order the
    language does not fix; when several conversions would throw, which
    one does is not observable in [Thrown]. *)
Definition load_product (line : string) (acc : list Product.t * Z)
    : Outcome (list Product.t * Z) :=
  let '(ps, counter) := acc in
  let data := segments bar line in
  if (8 <=? List.length data)%nat then
    id <- stoi (field data 0) ;;
    pprice <- stod (field data 2) ;;
    pqty <- stoi (field data 4) ;;
    sid <- stoi (field data 5) ;;
    rSum <- stod (field data 6) ;;
    rCount <- stoi (field data 7) ;;
    counter' <- bump id counter ;;
    Done ((ps ++ [Product.mk id (field data 1) pprice (field data 3)
                    pqty sid rSum rCount])%list, counter')
  else Done acc.

(** The first product with the given id, as the scans with [break]
    find it. *)
Fixpoint findProduct (pid : Z) (ps : list Product.t) : option Product.t :=
  match ps with
  | [] => None
  | p :: rest => if Product.id p =? pid then Some p else findProduct pid rest
  end.

(** [targetCust->cartStack.push(item)] on the first customer with the
    given id; [None] when there is none. *)
Fixpoint pushToCustomer (cid : Z) (item : CartItem.t) (cs : list Customer.t)
    : option (list Customer.t) :=
  match cs with
  | [] => None
  | c :: rest =>
      if Customer.id c =? cid
      then Some (Customer.set_cartStack c (item :: Customer.cartStack c) :: rest)
      else match pushToCustomer cid item rest with
           | Some rest' => Some (c :: rest')
           | None => None
           end
  end.

Definition load_cart (ps : list Product.t) (line : string)
    (cs : list Customer.t) : Outcome (list Customer.t) :=
  let data := segments bar line in
  if (3 <=? List.length data)%nat then
    cid <- stoi (field data 0) ;;
    pid <- stoi (field data 1) ;;
    qty <- stoi (field data 2) ;;
    match findProduct pid ps with
    | Some targetProd =>
        match pushToCustomer cid (CartItem.mk targetProd qty) cs with
        | Some cs' => Done cs'
        | None => Done cs
        end
    | None => Done cs
    end
  else Done cs.

(** A [while (getline(file, line))] loop over the lines of a file. *)
Fixpoint load_lines {S : Type} (step : string -> S -> Outcome S)
    (lines : list string) (acc : S) : Outcome S :=
  match lines with
  | [] => Done acc
  | line :: rest => acc' <- step line acc ;; load_lines step rest acc'
  end.

(** [loadData]: sellers, customers, products, then the carts, each
    appended to what the object already holds. *)
Definition loadData (m : t) (fs : Files) : Outcome t :=
  '(ss, sc) <- load_lines load_seller (lines_of (sellers_txt fs))
                (sellers m, sellerCounter m) ;;
  '(cs, cc) <- load_lines load_customer (lines_of (customers_txt fs))
                (customers m, customerCounter m) ;;
  '(ps, pc) <- load_lines load_product (lines_of (products_txt fs))
                (products m, productCounter m) ;;
  cs' <- load_lines (load_cart ps) (lines_of (carts_txt fs)) cs ;;
  Done (mk ss cs' ps pc sc cc (currentSellerIdx m) (currentCustomerIdx m)).

(** *** The customer session *)

(** [&customers[currentCustomerIdx]]: indexing outside the vector is
    undefined. *)
Definition currentCustomer (m : t) : Outcome Customer.t :=
  if currentCustomerIdx m <? 0 then Undefined
  else match nth_error (customers m) (Z.to_nat (currentCustomerIdx m)) with
       | Some c => Done c
       | None => Undefined
       end.

Fixpoint update_at {A : Type} (l : list A) (i : nat) (x : A) : list A :=
  match l, i with
  | [], _ => []
  | _ :: rest, O => x :: rest
  | y :: rest, S i' => y :: update_at rest i' x
  end.

(** Assignment through the pointer [c]. *)
Definition set_currentCart (m : t) (c : Customer.t) (s : list CartItem.t) : t :=
  set_customers m
    (update_at (customers m) (Z.to_nat (currentCustomerIdx m))
               (Customer.set_cartStack c s)).

(** Choice 4 of [customerMenu], from the two numbers read. *)
Definition addToCart (m : t) (fs : Files) (pid qty : Z)
    : Outcome (t * Files * list Out) :=
  c <- currentCustomer m ;;
  match findProduct pid (products m) with
  | Some p =>
      if Product.quantity p <? qty
      then Done (m, fs, [OutInsufficient (Product.quantity p)])
      else
        let m' := set_currentCart m c
                    (CartItem.mk p qty :: Customer.cartStack c) in
        Done (m', saveData m', [OutAdded qty (Product.name p)])
  | None => Done (m, fs, [OutNotFound])
  end.

(** Choice 6 of [customerMenu]. *)
Definition undoLast (m : t) (fs : Files) : Outcome (t * Files * list Out) :=
  c <- currentCustomer m ;;
  match Customer.cartStack c with
  | top :: rest =>
      let m' := set_currentCart m c rest in
      Done (m', saveData m', [OutRemoved (Product.name (CartItem.product top))])
  | [] => Done (m, fs, [OutAlreadyEmpty])
  end.

(** [while (!pq.empty()) { temp.push_back(pq.top()); pq.pop(); }] *)
Fixpoint extract (pq : PriorityQueue.t) (temp : list Product.t)
    : list Product.t :=
  match pq with
  | [] => temp
  | top :: rest => extract rest (temp ++ [top])%list
  end.

(** [showTopRatedProducts]: the vector handed to [displayProductTable]. *)
Definition showTopRatedProducts (m : t) : list Product.t :=
  let pq := fold_left (fun pq p => PriorityQueue.push p pq) (products m) [] in
  extract pq [].

(** *** Checkout *)

(** The transfer loop: the top of the stack goes to the back of the
    queue until the stack is empty.  The result is the stack and the
    queue at the exit of the loop. *)
Fixpoint transfer (cartStack checkoutQueue : list CartItem.t)
    : list CartItem.t * list CartItem.t :=
  match cartStack with
  | [] => ([], checkoutQueue)
  | top :: rest => transfer rest (checkoutQueue ++ [top])%list
  end.

(** The rating loop.  [cin >> r] skips the ends of line in front of the
    next item; on a number from 1 to 5 the loop ends, and the rest of
    the line stays pending.  Otherwise the message is printed and the
    rest of the line is discarded.  At the end of the input no read
    succeeds any more. *)
Fixpoint readRating (cin : Cin) : Outcome (Z * list Out * Cin) :=
  match cin with
  | [] => Blocked
  | [] :: rest => readRating rest
  | (Num r :: line) :: rest =>
      if (1 <=? r) && (r <=? 5) then Done (r, [], line :: rest)
      else '(r', outs, cin') <- readRating rest ;;
           Done (r', OutInvalid :: outs, cin')
  | (Junk :: _) :: rest =>
      '(r', outs, cin') <- readRating rest ;;
      Done (r', OutInvalid :: outs, cin')
  end.

Definition Settled : Type := list Product.t * Q * list Out * Cin.

(** The scan of the product vector for one queued item, up to the
    [break] at the first product with the id of the item. *)
Fixpoint settle (item : CartItem.t) (ps : list Product.t) (total : Q)
    (cin : Cin) : Outcome Settled :=
  match ps with
  | [] => Done ([], total, [], cin)
  | p :: rest =>
      if Product.id p =? Product.id (CartItem.product item) then
        if CartItem.buyQty item <=? Product.quantity p then
          q <- int_result (Product.quantity p - CartItem.buyQty item) ;;
          let amount := dmul (Product.price (CartItem.product item))
                             (dint (CartItem.buyQty item)) in
          '(r, outs, cin') <- readRating cin ;;
          p' <- Product.addRating (Product.set_quantity p q) (dint r) ;;
          Done (p' :: rest, dadd total amount,
                (OutLine (Product.name (CartItem.product item))
                         (CartItem.buyQty item) amount
                 :: OutRatePrompt (Product.name p) :: outs)%list, cin')
        else
          Done (p :: rest, total,
                [OutStockError (Product.name (CartItem.product item))], cin)
      else
        '(rest', total', outs, cin') <- settle item rest total cin ;;
        Done (p :: rest', total', outs, cin')
  end.

(** [while (!checkoutQueue.empty())]: the front item is taken and
    settled. *)
Fixpoint processQueue (checkoutQueue : list CartItem.t)
    (ps : list Product.t) (total : Q) (cin : Cin) : Outcome Settled :=
  match checkoutQueue with
  | [] => Done (ps, total, [], cin)
  | item :: rest =>
      '(ps1, total1, outs1, cin1) <- settle item ps total cin ;;
      '(ps2, total2, outs2, cin2) <- processQueue rest ps1 total1 cin1 ;;
      Done (ps2, total2, (outs1 ++ outs2)%list, cin2)
  end.

(** [processCheckout], from the state of the store, the files and the
    pending input, to the new store and files and what was printed.  The
    clearing of the screen and the pauses touch none of them and are left
    out; the date of the receipt is part of its header. *)
Definition processCheckout (m : t) (fs : Files) (cin : Cin)
    : Outcome (t * Files * list Out) :=
  c <- currentCustomer m ;;
  match Customer.cartStack c with
  | [] => Done (m, fs, [OutCartEmpty])
  | _ :: _ =>
      let '(emptied, checkoutQueue) := transfer (Customer.cartStack c) [] in
      let m1 := set_currentCart m c emptied in
      '(ps, total, outs, _) <- processQueue checkoutQueue (products m1) 0%Q cin ;;
      let m2 := set_products m1 ps in
      Done (m2, saveData m2,
            (OutReceiptHeader :: outs ++ [OutTotal total])%list)
  end.

(** A session: the checkouts of the customers that log in one after
    the other, each with the input typed during it. *)
Definition login (m : t) (idx : Z) : t :=
  mk (sellers m) (customers m) (products m) (productCounter m)
     (sellerCounter m) (customerCounter m) (currentSellerIdx m) idx.

Fixpoint checkouts (visits : list (Z * Cin)) (m : t) (fs : Files)
    : Outcome (t * Files) :=
  match visits with
  | [] => Done (m, fs)
  | (idx, cin) :: rest =>
      '(m', fs', _) <- processCheckout (login m idx) fs cin ;;
      checkouts rest m' fs'
  end.

(** *** Registration, login and the catalogue *)


(** [registerCustomer], from the four texts read. *)
Definition registerCustomer (m : t) (name email addr phone : string)
    : Outcome (t * Files) :=
  next <- int_result (customerCounter m + 1) ;;
  let m' :=
    mk (sellers m)
       (customers m
        ++ [Customer.fresh (customerCounter m) name addr phone email])%list
       (products m) (productCounter m) (sellerCounter m) next
       (currentSellerIdx m) (currentCustomerIdx m) in
  Done (m', saveData m').

(** [sellers[currentSellerIdx]]. *)
Definition currentSeller (m : t) : Outcome Seller.t :=
  if currentSellerIdx m <? 0 then Undefined
  else match nth_error (sellers m) (Z.to_nat (currentSellerIdx m)) with
       | Some s => Done s
       | None => Undefined
       end.


(** The search loops of the two logins: the index of the first element
    with the given email, counted from [i]. *)
Fixpoint findByEmail {A : Type} (email_of : A -> string) (email : string)
    (l : list A) (i : Z) : option Z :=
  match l with
  | [] => None
  | x :: rest =>
      if (email_of x =? email)%string then Some i
      else findByEmail email_of email rest (i + 1)
  end.

(** [loginSeller]: what it returns, and the store it leaves. *)
Definition loginSeller (m : t) (email : string) : bool * t :=
  match findByEmail Seller.email email (sellers m) 0 with
  | Some i =>
      (true,
       mk (sellers m) (customers m) (products m) (productCounter m)
          (sellerCounter m) (customerCounter m) i (currentCustomerIdx m))
  | None => (false, m)
  end.

(** [loginCustomer]. *)
Definition loginCustomer (m : t) (email : string) : bool * t :=
  match findByEmail Customer.email email (customers m) 0 with
  | Some i =>
      (true,
       mk (sellers m) (customers m) (products m) (productCounter m)
          (sellerCounter m) (customerCounter m) (currentSellerIdx m) i)
  | None => (false, m)
  end.

(** [s] begins with [q]. *)
Fixpoint starts_with (q s : string) : bool :=
  match q, s with
  | EmptyString, _ => true
  | String a q', String b s' => (a =? b)%char && starts_with q' s'
  | String _ _, EmptyString => false
  end.

(** [s.find(q) != string::npos]. *)
Fixpoint found_in (q s : string) : bool :=
  starts_with q s
  || match s with
     | String _ r => found_in q r
     | EmptyString => false
     end.

(** The loops of choices 2 and 3 of [customerMenu]: the products that
    pass the test are appended to [filtered]. *)
Fixpoint collect (keep : Product.t -> bool) (ps filtered : list Product.t)
    : list Product.t :=
  match ps with
  | [] => filtered
  | p :: rest =>
      collect keep rest (if keep p then filtered ++ [p] else filtered)%list
  end.

(** Choice 2: the products of a category. *)
Definition filterByCategory (m : t) (cat : string) : list Product.t :=
  collect (fun p => (Product.category p =? cat)%string) (products m) [].

(** Choice 3: the products whose name holds the text. *)
Definition searchByName (m : t) (searchName : string) : list Product.t :=
  collect (fun p => found_in searchName (Product.name p)) (products m) [].

(** The loop of [viewCart] over the copy of the stack: the lines printed
    and the total at the end. *)
Fixpoint viewLines (tempStack : list CartItem.t) (currentTotal : Q)
    : list (string * Z * Q) * Q :=
  match tempStack with
  | [] => ([], currentTotal)
  | item :: rest =>
      let itemTotal := dmul (Product.price (CartItem.product item))
                            (dint (CartItem.buyQty item)) in
      let '(lines, total) := viewLines rest (dadd currentTotal itemTotal) in
      ((Product.name (CartItem.product item), CartItem.buyQty item, itemTotal)
       :: lines, total)
  end.

(** [viewCart]: [None] for the notice of the empty cart, otherwise the
    lines and the estimate. *)
Definition viewCart (m : t) : Outcome (option (list (string * Z * Q) * Q)) :=
  c <- currentCustomer m ;;
  match Customer.cartStack c with
  | [] => Done None
  | _ :: _ => Done (Some (viewLines (Customer.cartStack c) 0%Q))
  end.

(** [getIntInput]: the number read, how often the complaint was printed,
    and the input left.  A number that does not fit an [int] fails the
    read like text does. *)
Fixpoint getIntInput (cin : Cin) : Outcome (Z * nat * Cin) :=
  match cin with
  | [] => Blocked
  | [] :: rest => getIntInput rest
  | (Num z :: line) :: rest =>
      if in_int z then Done (z, O, line :: rest)
      else '(z', n, cin') <- getIntInput rest ;; Done (z', S n, cin')
  | (Junk :: _) :: rest =>
      '(z', n, cin') <- getIntInput rest ;; Done (z', S n, cin')
  end.

(** Choice 6 taken [n] times in a row. *)
Fixpoint undos (n : nat) (m : t) (fs : Files) : Outcome (t * Files * list Out) :=
  match n with
  | O => Done (m, fs, [])
  | S k =>
      '(m1, f1, o1) <- undoLast m fs ;;
      '(m2, f2, o2) <- undos k m1 f1 ;;
      Done (m2, f2, (o1 ++ o2)%list)
  end.

(** Choice 4 taken for each request of a list, a product id and a
    quantity. *)
Fixpoint adds (reqs : list (Z * Z)) (m : t) (fs : Files)
    : Outcome (t * Files * list Out) :=
  match reqs with
  | [] => Done (m, fs, [])
  | (pid, qty) :: rest =>
      '(m1, f1, o1) <- addToCart m fs pid qty ;;
      '(m2, f2, o2) <- adds rest m1 f1 ;;
      Done (m2, f2, (o1 ++ o2)%list)
  end.

End Marketplace.

Import Text Marketplace.

(** ** The arithmetic of the compiled program *)

(** Where the operations above stop in [Undefined] on a signed overflow,
    the program as compiled for a machine with two's-complement [int]s
    goes on with the result reduced modulo [2^32] into the range of
    [int].  The operations that compute on [int] in [processCheckout] and
    in [loadData] follow here with this arithmetic in the place of
    [int_result]; everything else is as above. *)
Module Wrapped.

Local Open Scope string_scope.
Local Open Scope Z_scope.

(** The [int] that a signed operation leaves for the exact result [z]. *)
Definition wrap (z : Z) : Z := (z - INT_MIN) mod 2 ^ 32 + INT_MIN.

(** [ratingSum += rate; ratingCount++;] *)
Definition addRating (p : Product.t) (rate : Q) : Product.t :=
  Product.set_rating p (dadd (Product.ratingSum p) rate)
    (wrap (Product.ratingCount p + 1)).

(** The scan of the product vector for one queued item, up to the
    [break] at the first product with the id of the item. *)
Fixpoint settle (item : CartItem.t) (ps : list Product.t) (total : Q)
    (cin : Cin) : Outcome Settled :=
  match ps with
  | [] => Done ([], total, [], cin)
  | p :: rest =>
      if Product.id p =? Product.id (CartItem.product item) then
        if CartItem.buyQty item <=? Product.quantity p then
          let q := wrap (Product.quantity p - CartItem.buyQty item) in
          let amount := dmul (Product.price (CartItem.product item))
                             (dint (CartItem.buyQty item)) in
          '(r, outs, cin') <- readRating cin ;;
          let p' := addRating (Product.set_quantity p q) (dint r) in
          Done (p' :: rest, dadd total amount,
                (OutLine (Product.name (CartItem.product item))
                         (CartItem.buyQty item) amount
                 :: OutRatePrompt (Product.name p) :: outs)%list, cin')
        else
          Done (p :: rest, total,
                [OutStockError (Product.name (CartItem.product item))], cin)
      else
        '(rest', total', outs, cin') <- settle item rest total cin ;;
        Done (p :: rest', total', outs, cin')
  end.

(** [while (!checkoutQueue.empty())]: the front item is taken and
    settled. *)
Fixpoint processQueue (checkoutQueue : list CartItem.t)
    (ps : list Product.t) (total : Q) (cin : Cin) : Outcome Settled :=
  match checkoutQueue with
  | [] => Done (ps, total, [], cin)
  | item :: rest =>
      '(ps1, total1, outs1, cin1) <- settle item ps total cin ;;
      '(ps2, total2, outs2, cin2) <- processQueue rest ps1 total1 cin1 ;;
      Done (ps2, total2, (outs1 ++ outs2)%list, cin2)
  end.

(** [processCheckout]. *)
Definition processCheckout (m : Marketplace.t) (fs : Files) (cin : Cin)
    : Outcome (Marketplace.t * Files * list Out) :=
  c <- currentCustomer m ;;
  match Customer.cartStack c with
  | [] => Done (m, fs, [OutCartEmpty])
  | _ :: _ =>
      let '(emptied, checkoutQueue) := transfer (Customer.cartStack c) [] in
      let m1 := set_currentCart m c emptied in
      '(ps, total, outs, _) <- processQueue checkoutQueue (products m1) 0%Q cin ;;
      let m2 := set_products m1 ps in
      Done (m2, saveData m2,
            (OutReceiptHeader :: outs ++ [OutTotal total])%list)
  end.

(** The checkouts of the customers that log in one after the other. *)
Fixpoint checkouts (visits : list (Z * Cin)) (m : Marketplace.t) (fs : Files)
    : Outcome (Marketplace.t * Files) :=
  match visits with
  | [] => Done (m, fs)
  | (idx, cin) :: rest =>
      '(m', fs', _) <- processCheckout (login m idx) fs cin ;;
      checkouts rest m' fs'
  end.

(** [if (id >= counter) counter = id + 1;] *)
Definition bump (id counter : Z) : Z :=
  if counter <=? id then wrap (id + 1) else counter.

Definition load_seller (line : string) (acc : list Seller.t * Z)
    : Outcome (list Seller.t * Z) :=
  let '(ss, counter) := acc in
  let data := segments bar line in
  if (3 <=? List.length data)%nat then
    id <- stoi (field data 0) ;;
    Done ((ss ++ [Seller.mk id (field data 1) (field data 2)])%list,
          bump id counter)
  else Done acc.

Definition load_customer (line : string) (acc : list Customer.t * Z)
    : Outcome (list Customer.t * Z) :=
  let '(cs, counter) := acc in
  let data := segments bar line in
  if (5 <=? List.length data)%nat then
    id <- stoi (field data 0) ;;
    Done ((cs ++ [Customer.fresh id (field data 1) (field data 2)
                    (field data 3) (field data 4)])%list, bump id counter)
  else Done acc.

Definition load_product (line : string) (acc : list Product.t * Z)
    : Outcome (list Product.t * Z) :=
  let '(ps, counter) := acc in
  let data := segments bar line in
  if (8 <=? List.length data)%nat then
    id <- stoi (field data 0) ;;
    pprice <- stod (field data 2) ;;
    pqty <- stoi (field data 4) ;;
    sid <- stoi (field data 5) ;;
    rSum <- stod (field data 6) ;;
    rCount <- stoi (field data 7) ;;
    Done ((ps ++ [Product.mk id (field data 1) pprice (field data 3)
                    pqty sid rSum rCount])%list, bump id counter)
  else Done acc.

(** [loadData]. *)
Definition loadData (m : Marketplace.t) (fs : Files) : Outcome Marketplace.t :=
  '(ss, sc) <- load_lines load_seller (lines_of (sellers_txt fs))
                (sellers m, sellerCounter m) ;;
  '(cs, cc) <- load_lines load_customer (lines_of (customers_txt fs))
                (customers m, customerCounter m) ;;
  '(ps, pc) <- load_lines load_product (lines_of (products_txt fs))
                (products m, productCounter m) ;;
  cs' <- load_lines (load_cart ps) (lines_of (carts_txt fs)) cs ;;
  Done (Marketplace.mk ss cs' ps pc sc cc
          (currentSellerIdx m) (currentCustomerIdx m)).

End Wrapped.

(** ** Vocabulary of the statements *)

(** The product named on a line of the receipt, sold or refused. *)
Definition receiptName (o : Out) : option string :=
  match o with
  | OutLine name _ _ => Some name
  | OutStockError name => Some name
  | _ => None
  end.

Fixpoint receiptNames (outs : list Out) : list string :=
  match outs with
  | [] => []
  | o :: rest =>
      match receiptName o with
      | Some name => name :: receiptNames rest
      | None => receiptNames rest
      end
  end.

Definition itemName (item : CartItem.t) : string :=
  Product.name (CartItem.product item).

(** The item names a live product. *)
Definition resolves (ps : list Product.t) (item : CartItem.t) : bool :=
  match findProduct (Product.id (CartItem.product item)) ps with
  | Some _ => true
  | None => false
  end.

(** [addRating] applied for each rating of a list, in order. *)
Fixpoint addRatings (p : Product.t) (rates : list Q) : Outcome Product.t :=
  match rates with
  | [] => Done p
  | r :: rest => p' <- Product.addRating p r ;; addRatings p' rest
  end.

Fixpoint Qsum (l : list Q) : Q :=
  match l with
  | [] => 0%Q
  | x :: rest => (x + Qsum rest)%Q
  end.

(** [ratingCount <= ratingSum <= 5 * ratingCount], with a count that is
    not negative. *)
Definition rating_bound (p : Product.t) : Prop :=
  0 <= Product.ratingCount p /\
  (inject_Z (Product.ratingCount p) <= Product.ratingSum p)%Q /\
  (Product.ratingSum p <= 5 * inject_Z (Product.ratingCount p))%Q.

(** [a] is rated at least as high as [b]: the order of a ranking, [a]
    before [b]. *)
Definition rated_above (a b : Product.t) : Prop :=
  (Product.getAverageRating b <= Product.getAverageRating a)%Q.

(** What the scan for one queued item may do to one product with the
    arithmetic of the compiled program: nothing, or, when the product has
    the id of the item and stock for it, take the quantity off and add a
    rating from 1 to 5. *)
Definition settled (item : CartItem.t) (p p' : Product.t) : Prop :=
  p' = p \/
  exists r,
    1 <= r <= 5 /\
    Product.id p = Product.id (CartItem.product item) /\
    CartItem.buyQty item <= Product.quantity p /\
    p' = Wrapped.addRating
           (Product.set_quantity p
              (Wrapped.wrap (Product.quantity p - CartItem.buyQty item)))
           (dint r).

(** No staged item of any customer asks for a negative quantity. *)
Definition nonnegative_carts (m : Marketplace.t) : Prop :=
  Forall
    (fun c => Forall (fun item => 0 <= CartItem.buyQty item)
                     (Customer.cartStack c))
    (customers m).

(** The ratings that a checkout of the staged items can ask for a
    product: one for each item with its id. *)
Definition ratings_due (p : Product.t) (stack : list CartItem.t) : Z :=
  Z.of_nat
    (List.length
       (filter (fun item => Product.id (CartItem.product item) =? Product.id p)
               stack)).

(** What the staged items can add to the stock of the product with the
    id [pid]: the magnitudes of the negative quantities asked of it. *)
Fixpoint restock (pid : Z) (stack : list CartItem.t) : Z :=
  match stack with
  | [] => 0
  | item :: rest =>
      (if (Product.id (CartItem.product item) =? pid)
          && (CartItem.buyQty item <? 0)
       then - CartItem.buyQty item else 0)
      + restock pid rest
  end.

(** The same over the carts of all the customers. *)
Fixpoint restock_all (pid : Z) (cs : list Customer.t) : Z :=
  match cs with
  | [] => 0
  | c :: rest => restock pid (Customer.cartStack c) + restock_all pid rest
  end.

(** What the checkout of a queue of items does to the stock of one
    product: the id stays, and a stock that is not negative and that
    stays an [int] with what the queue can add to it is not negative
    afterwards, and has grown by no more than that. *)
Definition stocked (queue : list CartItem.t) (p p' : Product.t) : Prop :=
  Product.id p' = Product.id p
  /\ (0 <= Product.quantity p ->
      Product.quantity p + restock (Product.id p) queue <= INT_MAX ->
      0 <= Product.quantity p'
           <= Product.quantity p + restock (Product.id p) queue).

(** The same from a store with the carts [cs] to a later one with the
    carts [cs']: the stock together with what the carts can still add
    to it has not grown. *)
Definition flow (cs cs' : list Customer.t) (p p' : Product.t) : Prop :=
  Product.id p' = Product.id p
  /\ (0 <= Product.quantity p ->
      Product.quantity p + restock_all (Product.id p) cs <= INT_MAX ->
      0 <= Product.quantity p'
      /\ Product.quantity p' + restock_all (Product.id p) cs'
         <= Product.quantity p + restock_all (Product.id p) cs).

(** What the checkout of a queue of items does to the ratings of one
    product: the id stays, and with room in the counter for the ratings
    due the bound is kept and the counter grows by no more than these. *)
Definition rated (queue : list CartItem.t) (p p' : Product.t) : Prop :=
  Product.id p' = Product.id p
  /\ (rating_bound p ->
      Product.ratingCount p + ratings_due p queue <= INT_MAX ->
      rating_bound p'
      /\ Product.ratingCount p' <= Product.ratingCount p + ratings_due p queue).

(** *** When a checkout returns *)

(** The ratings that can be read from the front of a line: the numbers
    from 1 to 5 in front of the first other item. *)
Fixpoint ratings_on (line : list token) : nat :=
  match line with
  | Num r :: rest => if (1 <=? r) && (r <=? 5) then S (ratings_on rest) else O
  | _ => O
  end.

(** The ratings that the pending input can give to the rating loop. *)
Fixpoint ratings_ahead (cin : Cin) : nat :=
  match cin with
  | [] => O
  | line :: rest => (ratings_on line + ratings_ahead rest)%nat
  end.

(** The stock is an [int], and the rating counter has room for [n] more
    ratings. *)
Definition roomy (n : nat) (p : Product.t) : Prop :=
  in_int (Product.quantity p) = true
  /\ INT_MIN <= Product.ratingCount p + 1
  /\ Product.ratingCount p + Z.of_nat n <= INT_MAX.

(** *** What the files give back *)

Fixpoint all_chars (P : ascii -> bool) (s : string) : bool :=
  match s with
  | EmptyString => true
  | String c r => P c && all_chars P r
  end.

(** Neither the field delimiter nor the end of line. *)
Definition plain_char (c : ascii) : bool :=
  negb (c =? bar)%char && negb (c =? nl)%char.

Definition plain (s : string) : bool := all_chars plain_char s.

Definition nonempty (s : string) : bool :=
  match s with
  | EmptyString => false
  | String _ _ => true
  end.

(** An id that fits an [int] and leaves room for the counter above it. *)
Definition id_ok (z : Z) : bool := in_int z && (z <? INT_MAX).

Definition same_double (a b : Q) : bool :=
  (Qnum a =? Qnum b) && (Qden a =? Qden b)%positive.

(** A [double] that [stod] reads back from its six printed digits: the
    printed number has the value itself, and it is within the range of
    [double]. *)
Definition printable (q : Q) : bool :=
  match stod (show_double q) with
  | Done q' => same_double q q'
  | _ => false
  end.

Definition seller_ok (s : Seller.t) : bool :=
  id_ok (Seller.id s) && plain (Seller.name s)
  && plain (Seller.email s) && nonempty (Seller.email s).

Definition item_ok (item : CartItem.t) : bool :=
  in_int (Product.id (CartItem.product item)) && in_int (CartItem.buyQty item).

Definition customer_ok (c : Customer.t) : bool :=
  id_ok (Customer.id c) && plain (Customer.name c)
  && plain (Customer.address c) && plain (Customer.phone c)
  && plain (Customer.email c) && nonempty (Customer.email c)
  && forallb item_ok (Customer.cartStack c).

Definition product_ok (p : Product.t) : bool :=
  id_ok (Product.id p) && plain (Product.name p) && plain (Product.category p)
  && in_int (Product.quantity p) && in_int (Product.sellerId p)
  && in_int (Product.ratingCount p)
  && printable (Product.price p) && printable (Product.ratingSum p).

(** The stores that the file format can carry: no text field holds a bar
    or an end of line, the last field of a seller and of a customer is
    not empty, the integers are [int]s, and the prices and rating sums
    have no more digits than are printed and are within the range of
    [double]. *)
Definition storable (m : Marketplace.t) : bool :=
  forallb seller_ok (sellers m) && forallb customer_ok (customers m)
  && forallb product_ok (products m).

Definition without_cart (c : Customer.t) : Customer.t :=
  Customer.set_cartStack c [].

(** Pairwise distinct ids. *)
Fixpoint distinct (l : list Z) : bool :=
  match l with
  | [] => true
  | x :: rest => negb (existsb (Z.eqb x) rest) && distinct rest
  end.

(** What a cart line gives back for a staged item: the requested
    quantity of the live product with the id of the item, nothing when no
    live product has it. *)
Definition relink (ps : list Product.t) (item : CartItem.t) : list CartItem.t :=
  match findProduct (Product.id (CartItem.product item)) ps with
  | Some p => [CartItem.mk p (CartItem.buyQty item)]
  | None => []
  end.

Definition relinked (ps : list Product.t) (stack : list CartItem.t)
    : list CartItem.t :=
  flat_map (relink ps) stack.

(** The pushes of a list of items onto the cart of the first customer
    with the given id, in the order of the list. *)
Definition push_or_skip (cid : Z) (item : CartItem.t) (cs : list Customer.t)
    : list Customer.t :=
  match pushToCustomer cid item cs with
  | Some cs' => cs'
  | None => cs
  end.

Definition deliver (cid : Z) (items : list CartItem.t) (cs : list Customer.t)
    : list Customer.t :=
  fold_left (fun cs item => push_or_skip cid item cs) items cs.

Definition deliver_all (ps : list Product.t) (from : list Customer.t)
    (cs : list Customer.t) : list Customer.t :=
  fold_left
    (fun cs c => deliver (Customer.id c) (relinked ps (Customer.cartStack c)) cs)
    from cs.

(** The pushes onto one customer. *)
Definition push_items (cid : Z) (items : list CartItem.t) (c : Customer.t)
    : Customer.t :=
  if Customer.id c =? cid
  then Customer.set_cartStack c (items ++ Customer.cartStack c)
  else c.

(** A customer as the cart file gives it back. *)
Definition reloaded (ps : list Product.t) (c : Customer.t) : Customer.t :=
  Customer.set_cartStack c (rev (relinked ps (Customer.cartStack c))).

(** The characters of a printed number. *)
Definition numeric_char (c : ascii) : bool :=
  is_digit c || (c =? ".")%char || (c =? "e")%char
  || (c =? "+")%char || (c =? "-")%char.

(** *** Example store *)

Module Example.

Local Open Scope string_scope.

Definition widget : Product.t := Product.fresh 1 "Widget" 10 "tools" 5 1.
Definition gadget : Product.t := Product.fresh 2 "Gadget" 3 "toys" 4 1.

Definition sam : Seller.t := Seller.mk 1 "Sam" "sam@shop".

Definition al : Customer.t := Customer.fresh 1 "Al" "1 Elm St" "555" "al@home".

(** Al is logged in, the cart is empty. *)
Definition store : Marketplace.t :=
  Marketplace.mk [sam] [al] [widget; gadget] 3 2 2 (-1) 0.

Definition no_files : Files := mkFiles None None None None.

(** Al has staged three widgets, then two gadgets. *)
Definition staged : Marketplace.t :=
  set_currentCart store al
    [CartItem.mk gadget 2; CartItem.mk widget 3].

(** Al has staged three widgets, then nine gadgets from a snapshot
    taken when there were that many. *)
Definition overdrawn : Marketplace.t :=
  set_currentCart store al
    [CartItem.mk gadget 9; CartItem.mk widget 3].

(** Al has staged two gadgets, then a quantity of -2 of the widget. *)
Definition restocking : Marketplace.t :=
  set_currentCart store al
    [CartItem.mk widget (-2); CartItem.mk gadget 2].

(** A second customer, and the store with nobody logged in. *)
Definition bo : Customer.t := Customer.fresh 2 "Bo" "2 Oak St" "556" "bo@home".

Definition shop : Marketplace.t :=
  Marketplace.mk [sam] [al; bo] [widget; gadget] 3 2 3 (-1) (-1).

(** Al stages three widgets; then Bo stages one, checks out and rates
    it 5. *)
Definition after_sale : Outcome Marketplace.t :=
  '(m1, f1, _) <- addToCart (login shop 0) no_files 1 3 ;;
  '(m2, f2, _) <- addToCart (login m1 1) f1 1 1 ;;
  '(m3, _, _) <- processCheckout m2 f2 [[Num 5]] ;;
  Done m3.

(** The ratings typed at the prompts: a word, a 7, then 4 and 5. *)
Definition typed : Cin := [[Junk]; [Num 7]; [Num 4]; [Num 5]].

(** Files written by hand: the rating counter of the widget is at the
    end of the [int]s, with every rating a 1, and Al has one widget
    staged. *)
Definition worn_files : Files :=
  mkFiles
    (Some "1|Sam|sam@shop
")
    (Some "1|Al|1 Elm St|555|al@home
")
    (Some "1|Widget|10|tools|5|1|2147483647|2147483647
")
    (Some "1|1|1
").

(** A sellers file whose only id is the largest [int]. *)
Definition last_id_files : Files :=
  mkFiles
    (Some "2147483647|Sam|sam@shop
")
    None None None.

End Example.

(** *** Vocabulary of the further statements *)

Fixpoint Zsum (l : list Z) : Z :=
  match l with
  | [] => 0
  | x :: rest => x + Zsum rest
  end.

(** The quantities and the amounts on the lines of the goods sold. *)
Fixpoint soldQtys (outs : list Out) : list Z :=
  match outs with
  | [] => []
  | OutLine _ qty _ :: rest => qty :: soldQtys rest
  | _ :: rest => soldQtys rest
  end.

Fixpoint soldAmounts (outs : list Out) : list Q :=
  match outs with
  | [] => []
  | OutLine _ _ amount :: rest => amount :: soldAmounts rest
  | _ :: rest => soldAmounts rest
  end.

(** The refusals for want of stock. *)
Fixpoint refusals (outs : list Out) : nat :=
  match outs with
  | [] => O
  | OutStockError _ :: rest => S (refusals rest)
  | _ :: rest => refusals rest
  end.

(** The names in the confirmations of the additions to the cart. *)
Fixpoint addedNames (outs : list Out) : list string :=
  match outs with
  | [] => []
  | OutAdded _ name :: rest => name :: addedNames rest
  | _ :: rest => addedNames rest
  end.

(** What a product is apart from its stock and its ratings. *)
Definition listing (p : Product.t) : Z * string * Q * string * Z :=
  (Product.id p, Product.name p, Product.price p, Product.category p,
   Product.sellerId p).

(** All ids of a list are below a counter. *)
Definition below (counter : Z) (ids : list Z) : Prop :=
  Forall (fun id => id < counter) ids.

(** The sum of price times quantity over a cart. *)
Fixpoint cartValue (stack : list CartItem.t) : Q :=
  match stack with
  | [] => 0%Q
  | item :: rest =>
      (Product.price (CartItem.product item) * inject_Z (CartItem.buyQty item)
       + cartValue rest)%Q
  end.

(** A pending line on which [getIntInput] finds no number: an empty line,
    or one that begins with text or with a number too large for an
    [int]. *)
Definition no_number (line : list token) : bool :=
  match line with
  | [] => true
  | Num z :: _ => negb (in_int z)
  | Junk :: _ => true
  end.

(** The complaints that such lines draw: one for each that is not
    empty. *)
Fixpoint complaints (lines : Cin) : nat :=
  match lines with
  | [] => O
  | [] :: rest => complaints rest
  | _ :: rest => S (complaints rest)
  end.

(** ** Facts about the outcome monad *)

Lemma bind_Done {A B : Type} (c : Outcome A) (k : A -> Outcome B) (b : B) :
  bind c k = Done b -> exists a, c = Done a /\ k a = Done b.
Proof.
  destruct c; simpl; intros H; try discriminate.
  exists a; split; [reflexivity | exact H].
Qed.

Ltac bind_inv H :=
  let a := fresh "a" in
  let E := fresh "E" in
  apply bind_Done in H; destruct H as [a [E H]].

Lemma int_result_Done (z v : Z) :
  int_result z = Done v -> v = z /\ INT_MIN <= z <= INT_MAX.
Proof.
  unfold int_result, in_int. destruct (INT_MIN <=? z) eqn:E1; simpl.
  - destruct (z <=? INT_MAX) eqn:E2; intros H; inversion H; subst.
    split; [reflexivity | lia].
  - discriminate.
Qed.

(** ** The session *)

Lemma nth_error_update_at {A : Type} (l : list A) (i : nat) (x y : A) :
  nth_error l i = Some y -> nth_error (update_at l i x) i = Some x.
Proof.
  revert i; induction l as [| a l IH]; intros [| i]; simpl; try discriminate.
  - reflexivity.
  - apply IH.
Qed.

Lemma currentCustomer_set_currentCart (m : Marketplace.t) (c : Customer.t)
    (s : list CartItem.t) :
  currentCustomer m = Done c ->
  currentCustomer (set_currentCart m c s) = Done (Customer.set_cartStack c s).
Proof.
  unfold currentCustomer, set_currentCart; simpl.
  destruct (currentCustomerIdx m <? 0); [discriminate |].
  destruct (nth_error (customers m) (Z.to_nat (currentCustomerIdx m))) eqn:E;
    [| discriminate].
  intros _. now rewrite (nth_error_update_at _ _ _ _ E).
Qed.

Lemma transfer_spec (cartStack checkoutQueue : list CartItem.t) :
  transfer cartStack checkoutQueue = ([], checkoutQueue ++ cartStack).
Proof.
  revert checkoutQueue; induction cartStack as [| top rest IH]; intros q; simpl.
  - now rewrite app_nil_r.
  - rewrite IH, <- app_assoc. reflexivity.
Qed.

(** What a checkout of a cart that is not empty consists of. *)
Lemma processCheckout_Done (m m' : Marketplace.t) (fs fs' : Files) (cin : Cin)
    (c : Customer.t) (out : list Out) :
  currentCustomer m = Done c ->
  Customer.cartStack c <> [] ->
  processCheckout m fs cin = Done (m', fs', out) ->
  exists ps total outs cin',
    processQueue (Customer.cartStack c) (products m) 0%Q cin
      = Done (ps, total, outs, cin')
    /\ m' = set_products (set_currentCart m c []) ps
    /\ fs' = saveData m'
    /\ out = OutReceiptHeader :: outs ++ [OutTotal total].
Proof.
  intros Hc Hne H. unfold processCheckout in H. rewrite Hc in H. simpl in H.
  destruct (Customer.cartStack c) as [| it rest] eqn:Ecart; [congruence |].
  rewrite transfer_spec in H. simpl app in H. cbv iota beta in H.
  bind_inv H. destruct a as [[[ps total] outs] cin']. simpl in E.
  inversion H; subst. exists ps, total, outs, cin'. repeat split; assumption.
Qed.

(** ** Checkout: the receipt *)

Lemma receiptNames_app (a b : list Out) :
  receiptNames (a ++ b) = receiptNames a ++ receiptNames b.
Proof.
  induction a as [| o a IH]; simpl; [reflexivity |].
  destruct (receiptName o); simpl; now rewrite IH.
Qed.

(** The rating loop prints nothing but its complaint, and ends on a
    number from 1 to 5. *)
Lemma readRating_Done (cin cin' : Cin) (r : Z) (outs : list Out) :
  readRating cin = Done (r, outs, cin') ->
  1 <= r <= 5 /\ receiptNames outs = [].
Proof.
  revert r outs cin'.
  induction cin as [| line rest IH]; intros r outs cin' H; simpl in H;
    [discriminate |].
  destruct line as [| [z |] line].
  - eauto.
  - destruct ((1 <=? z) && (z <=? 5)) eqn:Ev.
    + inversion H; subst. split; [lia | reflexivity].
    + bind_inv H. destruct a as [[r0 o0] c0]. inversion H; subst.
      destruct (IH _ _ _ E) as [Hr Ho]. split; [exact Hr | exact Ho].
  - bind_inv H. destruct a as [[r0 o0] c0]. inversion H; subst.
    destruct (IH _ _ _ E) as [Hr Ho]. split; [exact Hr | exact Ho].
Qed.

(** Settling an item changes neither the ids nor the order of the
    product vector. *)
Lemma settle_ids (item : CartItem.t) (ps ps' : list Product.t) (total total' : Q)
    (cin cin' : Cin) (outs : list Out) :
  settle item ps total cin = Done (ps', total', outs, cin') ->
  map Product.id ps' = map Product.id ps.
Proof.
  revert ps' total' outs cin'.
  induction ps as [| p rest IH]; intros ps' total' outs cin' H; simpl in H.
  - inversion H; reflexivity.
  - destruct (Product.id p =? Product.id (CartItem.product item)).
    + destruct (CartItem.buyQty item <=? Product.quantity p).
      * bind_inv H. bind_inv H. destruct a0 as [[r o] c]. bind_inv H.
        inversion H; subst. unfold Product.addRating in E1. bind_inv E1.
        inversion E1; subst. reflexivity.
      * inversion H; subst. reflexivity.
    + bind_inv H. destruct a as [[[ps0 t0] o0] c0]. inversion H; subst.
      simpl. f_equal. eapply IH; eassumption.
Qed.

Lemma findProduct_ids (pid : Z) (ps ps' : list Product.t) :
  map Product.id ps' = map Product.id ps ->
  (findProduct pid ps' = None <-> findProduct pid ps = None).
Proof.
  revert ps'; induction ps as [| p rest IH]; intros [| p' rest'] H;
    simpl in *; try discriminate; [tauto |].
  inversion H as [[Hid Hrest]]. rewrite Hid.
  destruct (Product.id p =? pid); [split; discriminate | now apply IH].
Qed.

Lemma resolves_ids (item : CartItem.t) (ps ps' : list Product.t) :
  map Product.id ps' = map Product.id ps ->
  resolves ps' item = resolves ps item.
Proof.
  intros H. unfold resolves.
  pose proof (findProduct_ids (Product.id (CartItem.product item)) ps ps' H) as [F B].
  destruct (findProduct _ ps'), (findProduct _ ps); try reflexivity.
  - discriminate (B eq_refl).
  - discriminate (F eq_refl).
Qed.

(** One queued item leaves one line on the receipt when it names a live
    product, none otherwise. *)
Lemma settle_receipt (item : CartItem.t) (ps ps' : list Product.t)
    (total total' : Q) (cin cin' : Cin) (outs : list Out) :
  settle item ps total cin = Done (ps', total', outs, cin') ->
  receiptNames outs = if resolves ps item then [itemName item] else [].
Proof.
  unfold resolves. revert ps' total' outs cin'.
  induction ps as [| p rest IH]; intros ps' total' outs cin' H; simpl in H |- *.
  - inversion H; reflexivity.
  - destruct (Product.id p =? Product.id (CartItem.product item)).
    + destruct (CartItem.buyQty item <=? Product.quantity p).
      * bind_inv H. bind_inv H. destruct a0 as [[r o] c]. bind_inv H.
        inversion H; subst. simpl.
        destruct (readRating_Done _ _ _ _ E0) as [_ Ho]. now rewrite Ho.
      * inversion H; subst. reflexivity.
    + bind_inv H. destruct a as [[[ps0 t0] o0] c0]. inversion H; subst.
      eapply IH; eassumption.
Qed.

Lemma processQueue_receipt (queue : list CartItem.t) (ps ps' : list Product.t)
    (total total' : Q) (cin cin' : Cin) (outs : list Out) :
  processQueue queue ps total cin = Done (ps', total', outs, cin') ->
  receiptNames outs = map itemName (filter (resolves ps) queue).
Proof.
  revert ps total cin ps' total' outs cin'.
  induction queue as [| item rest IH]; intros ps total cin ps' total' outs cin' H;
    simpl in H.
  - inversion H; reflexivity.
  - bind_inv H. destruct a as [[[ps1 t1] o1] c1]. bind_inv H.
    destruct a as [[[ps2 t2] o2] c2]. inversion H; subst.
    rewrite receiptNames_app, (settle_receipt _ _ _ _ _ _ _ _ E),
      (IH _ _ _ _ _ _ _ E0).
    rewrite (filter_ext _ _ (fun it => resolves_ids it _ _ (settle_ids _ _ _ _ _ _ _ _ E))).
    simpl. destruct (resolves ps item); reflexivity.
Qed.

(** C1, as the code has it: the lines of the receipt follow the cart from
    its top to its bottom, the item staged last first; an item whose
    product id is in no live product leaves no line. *)
Theorem checkout_receipt_in_pop_order (m m' : Marketplace.t) (fs fs' : Files)
    (cin : Cin) (c : Customer.t) (out : list Out) :
  currentCustomer m = Done c ->
  Customer.cartStack c <> [] ->
  processCheckout m fs cin = Done (m', fs', out) ->
  receiptNames out
  = map itemName (filter (resolves (products m)) (Customer.cartStack c)).
Proof.
  intros Hc Hne H.
  destruct (processCheckout_Done _ _ _ _ _ _ _ Hc Hne H)
    as (ps & total & outs & cin' & Hq & _ & _ & ->).
  simpl. rewrite receiptNames_app. simpl. rewrite app_nil_r.
  eapply processQueue_receipt; eassumption.
Qed.

(** The staged store is what two additions to the cart leave: three
    widgets first, two gadgets second. *)
Example staged_by_adding :
  ('(m1, f1, _) <- addToCart Example.store Example.no_files 1 3 ;;
   '(m2, _, _) <- addToCart m1 f1 2 2 ;;
   Done m2) = Done Example.staged.
Proof. vm_compute. reflexivity. Qed.

Lemma checkout_receipt_in_pop_order_witness :
  exists m' fs' out,
    processCheckout Example.staged Example.no_files Example.typed
      = Done (m', fs', out)
    /\ receiptNames out = ["Gadget"; "Widget"]%string.
Proof.
  destruct (processCheckout Example.staged Example.no_files Example.typed)
    as [[[m' fs'] out] | | | |] eqn:E; try (vm_compute in E; discriminate).
  exists m', fs', out. split; [reflexivity |].
  exact (checkout_receipt_in_pop_order Example.staged m' Example.no_files fs'
           Example.typed
           (Customer.set_cartStack Example.al
              [CartItem.mk Example.gadget 2; CartItem.mk Example.widget 3])
           out eq_refl
           ltac:(discriminate) E).
Defined.

(** C1 as stated fails: the widgets were staged before the gadgets, and
    the receipt lists the gadgets first. *)
Lemma checkout_not_in_arrival_order :
  exists m' fs' out,
    processCheckout Example.staged Example.no_files Example.typed
      = Done (m', fs', out)
    /\ receiptNames out
       <> map itemName
            (rev [CartItem.mk Example.gadget 2; CartItem.mk Example.widget 3]).
Proof.
  eexists; eexists; eexists. split.
  - vm_compute. reflexivity.
  - vm_compute. discriminate.
Qed.

(** ** Checkout: the cart *)

(** C6: with an empty cart the checkout prints its notice and returns;
    the store and the files are what they were, and nothing of a receipt
    is printed. *)
Theorem checkout_empty_cart (m : Marketplace.t) (fs : Files) (cin : Cin)
    (c : Customer.t) :
  currentCustomer m = Done c ->
  Customer.cartStack c = [] ->
  processCheckout m fs cin = Done (m, fs, [OutCartEmpty]).
Proof.
  intros Hc He. unfold processCheckout. rewrite Hc. simpl. now rewrite He.
Qed.

Lemma checkout_empty_cart_witness :
  processCheckout Example.store Example.no_files Example.typed
  = Done (Example.store, Example.no_files, [OutCartEmpty]).
Proof.
  exact (checkout_empty_cart Example.store Example.no_files Example.typed
           Example.al eq_refl eq_refl).
Defined.

(** C9: when a checkout of a cart that is not empty returns, the cart of
    the customer is empty, whatever became of the items. *)
Theorem checkout_empties_cart (m m' : Marketplace.t) (fs fs' : Files)
    (cin : Cin) (c : Customer.t) (out : list Out) :
  currentCustomer m = Done c ->
  Customer.cartStack c <> [] ->
  processCheckout m fs cin = Done (m', fs', out) ->
  exists c', currentCustomer m' = Done c' /\ Customer.cartStack c' = [].
Proof.
  intros Hc Hne H.
  destruct (processCheckout_Done _ _ _ _ _ _ _ Hc Hne H)
    as (ps & total & outs & cin' & _ & -> & _ & _).
  exists (Customer.set_cartStack c []). split; [| reflexivity].
  exact (currentCustomer_set_currentCart m c [] Hc).
Qed.

Lemma checkout_empties_cart_witness :
  exists m' fs' out c',
    processCheckout Example.overdrawn Example.no_files Example.typed
      = Done (m', fs', out)
    /\ In (OutStockError "Gadget") out
    /\ currentCustomer m' = Done c' /\ Customer.cartStack c' = [].
Proof.
  destruct (processCheckout Example.overdrawn Example.no_files Example.typed)
    as [[[m' fs'] out] | | | |] eqn:E; try (vm_compute in E; discriminate).
  destruct (checkout_empties_cart Example.overdrawn m' Example.no_files fs'
              Example.typed
              (Customer.set_cartStack Example.al
                 [CartItem.mk Example.gadget 9; CartItem.mk Example.widget 3])
              out eq_refl ltac:(discriminate) E) as [c' [Hc' He]].
  exists m', fs', out, c'. repeat split; try assumption.
  vm_compute in E. inversion E. right. left. reflexivity.
Defined.

(** ** Checkout: a line that cannot be served *)

Lemma processQueue_app (pre post : list CartItem.t) (ps : list Product.t)
    (total : Q) (cin : Cin) :
  processQueue (pre ++ post) ps total cin
  = ('(ps1, total1, outs1, cin1) <- processQueue pre ps total cin ;;
     '(ps2, total2, outs2, cin2) <- processQueue post ps1 total1 cin1 ;;
     Done (ps2, total2, outs1 ++ outs2, cin2)).
Proof.
  revert ps total cin; induction pre as [| item pre IH]; intros ps total cin;
    simpl.
  - destruct (processQueue post ps total cin) as [[[[ps2 t2] o2] c2] | | | |];
      reflexivity.
  - destruct (settle item ps total cin) as [[[[ps1 t1] o1] c1] | | | |];
      simpl; try reflexivity.
    rewrite IH.
    destruct (processQueue pre ps1 t1 c1) as [[[[ps2 t2] o2] c2] | | | |];
      simpl; try reflexivity.
    destruct (processQueue post ps2 t2 c2) as [[[[ps3 t3] o3] c3] | | | |];
      simpl; try reflexivity.
    now rewrite app_assoc.
Qed.

(** The scan stops at the live product of the item, finds too little
    stock, prints the refusal and leaves everything else as it was. *)
Lemma settle_insufficient (item : CartItem.t) (ps : list Product.t) (total : Q)
    (cin : Cin) (p : Product.t) :
  findProduct (Product.id (CartItem.product item)) ps = Some p ->
  Product.quantity p < CartItem.buyQty item ->
  settle item ps total cin
  = Done (ps, total, [OutStockError (itemName item)], cin).
Proof.
  intros Hf Hq. induction ps as [| p0 rest IH]; simpl in *; [discriminate |].
  destruct (Product.id p0 =? Product.id (CartItem.product item)).
  - inversion Hf; subst p0.
    destruct (CartItem.buyQty item <=? Product.quantity p) eqn:El;
      [lia | reflexivity].
  - now rewrite (IH Hf).
Qed.

(** C5: when a queued item reaches the front and its live product has
    less stock than the item asks for, the whole effect of the item is
    the refusal line: the products (stock and ratings), the running total
    and the pending input pass unchanged to the items behind it, which
    are processed as if it had not been there. *)
Theorem checkout_insufficient_stock (pre post : list CartItem.t)
    (item : CartItem.t) (ps0 ps : list Product.t) (total0 total : Q)
    (cin0 cin : Cin) (outs : list Out) (p : Product.t) :
  processQueue pre ps0 total0 cin0 = Done (ps, total, outs, cin) ->
  findProduct (Product.id (CartItem.product item)) ps = Some p ->
  Product.quantity p < CartItem.buyQty item ->
  processQueue (pre ++ item :: post) ps0 total0 cin0
  = ('(ps', total', outs', cin') <- processQueue post ps total cin ;;
     Done (ps', total', outs ++ OutStockError (itemName item) :: outs', cin')).
Proof.
  intros Hpre Hf Hq. rewrite processQueue_app, Hpre. simpl.
  rewrite (settle_insufficient item ps total cin p Hf Hq). simpl.
  destruct (processQueue post ps total cin) as [[[[ps2 t2] o2] c2] | | | |];
    reflexivity.
Qed.

(** Three widgets are served, nine gadgets are refused, the widgets
    staged behind them are served again: 50 is paid, and the four gadgets
    are still there. *)
Lemma checkout_insufficient_stock_witness :
  processQueue
    ([CartItem.mk Example.widget 3]
     ++ CartItem.mk Example.gadget 9 :: [CartItem.mk Example.widget 2])
    [Example.widget; Example.gadget] 0%Q Example.typed
  = Done ([Product.mk 1 "Widget" 10 "tools" 0 1 9 2; Example.gadget], 50%Q,
          [OutLine "Widget" 3 30; OutRatePrompt "Widget"; OutInvalid; OutInvalid;
           OutStockError "Gadget";
           OutLine "Widget" 2 20; OutRatePrompt "Widget"],
          [[]]).
Proof.
  rewrite (checkout_insufficient_stock
             [CartItem.mk Example.widget 3] [CartItem.mk Example.widget 2]
             (CartItem.mk Example.gadget 9)
             [Example.widget; Example.gadget]
             [Product.mk 1 "Widget" 10 "tools" 2 1 4 1; Example.gadget]
             0%Q 30%Q Example.typed [[]; [Num 5]]
             [OutLine "Widget" 3 30; OutRatePrompt "Widget"; OutInvalid; OutInvalid]
             Example.gadget eq_refl eq_refl eq_refl).
  reflexivity.
Defined.

(** ** Adding to the cart *)

(** C4, as the code has it: an addition that returns has either left the
    cart alone, or put on its top the requested quantity of the first
    live product with the requested id, and then this quantity is at most
    the stock of that product; there is no lower limit. *)
Theorem addToCart_stages_up_to_stock (m m' : Marketplace.t) (fs fs' : Files)
    (pid qty : Z) (c : Customer.t) (out : list Out) :
  currentCustomer m = Done c ->
  addToCart m fs pid qty = Done (m', fs', out) ->
  exists c',
    currentCustomer m' = Done c' /\
    (Customer.cartStack c' = Customer.cartStack c \/
     exists p,
       findProduct pid (products m) = Some p /\
       qty <= Product.quantity p /\
       Customer.cartStack c' = CartItem.mk p qty :: Customer.cartStack c).
Proof.
  intros Hc H. unfold addToCart in H. rewrite Hc in H. simpl in H.
  destruct (findProduct pid (products m)) as [p |] eqn:Ef.
  - destruct (Product.quantity p <? qty) eqn:El.
    + inversion H; subst. exists c. split; [exact Hc | now left].
    + inversion H; subst.
      exists (Customer.set_cartStack c (CartItem.mk p qty :: Customer.cartStack c)).
      split; [now apply currentCustomer_set_currentCart |].
      right. exists p. repeat split. lia.
  - inversion H; subst. exists c. split; [exact Hc | now left].
Qed.

Lemma addToCart_stages_up_to_stock_witness :
  exists m' fs' out c',
    addToCart Example.store Example.no_files 2 4 = Done (m', fs', out)
    /\ currentCustomer m' = Done c'
    /\ Customer.cartStack c' = [CartItem.mk Example.gadget 4].
Proof.
  destruct (addToCart Example.store Example.no_files 2 4)
    as [[[m' fs'] out] | | | |] eqn:E; try (vm_compute in E; discriminate).
  destruct (addToCart_stages_up_to_stock Example.store m' Example.no_files fs'
              2 4 Example.al out eq_refl E) as [c' [Hc' Hs]].
  exists m', fs', out, c'. repeat split; try assumption.
  destruct Hs as [Hs | [p [Hp [_ Hs]]]].
  - vm_compute in E. inversion E; subst. vm_compute in Hc'. inversion Hc'; subst.
    discriminate Hs.
  - rewrite Hs. vm_compute in Hp. inversion Hp. reflexivity.
Defined.

(** C4 as stated fails: a quantity of zero is staged. *)
Lemma addToCart_stages_zero :
  exists m' fs' out c' item,
    addToCart Example.store Example.no_files 1 0 = Done (m', fs', out)
    /\ currentCustomer m' = Done c'
    /\ In item (Customer.cartStack c')
    /\ ~ CartItem.buyQty item > 0.
Proof.
  do 5 eexists. split; [vm_compute; reflexivity |].
  split; [vm_compute; reflexivity |].
  split; [left; reflexivity |]. simpl. lia.
Qed.

(** So is a negative one, which a later checkout takes off the stock. *)
Example addToCart_stages_negative :
  ('(m1, f1, _) <- addToCart Example.store Example.no_files 1 (-2) ;;
   '(m2, _, _) <- processCheckout m1 f1 Example.typed ;;
   Done (map Product.quantity (products m2))) = Done [7; 4].
Proof. vm_compute. reflexivity. Qed.

(** Taken to the end of the [int]s, the subtraction of a negative
    quantity overflows: the checkout has no defined result. *)
Example checkout_overflow :
  ('(m1, f1, _) <- addToCart Example.store Example.no_files 1 INT_MIN ;;
   processCheckout m1 f1 Example.typed) = Undefined.
Proof. vm_compute. reflexivity. Qed.

(** ** Ratings *)

Lemma addRating_Done (p p' : Product.t) (rate : Q) :
  Product.addRating p rate = Done p' ->
  p' = Product.set_rating p (dadd (Product.ratingSum p) rate)
         (Product.ratingCount p + 1)
  /\ Product.ratingCount p + 1 <= INT_MAX.
Proof.
  unfold Product.addRating. intros H. bind_inv H.
  apply int_result_Done in E. destruct E as [-> [_ Hmax]].
  inversion H; subst. split; [reflexivity | exact Hmax].
Qed.


(** The ratings are all taken as long as the counter has room for them. *)
Lemma addRatings_returns (rates : list Q) (p : Product.t) :
  INT_MIN <= Product.ratingCount p + 1 ->
  Product.ratingCount p + Z.of_nat (List.length rates) <= INT_MAX ->
  exists p', addRatings p rates = Done p'.
Proof.
  revert p; induction rates as [| r rest IH]; intros p Hlo Hhi; simpl.
  - now exists p.
  - unfold Product.addRating, int_result, in_int.
    simpl List.length in Hhi.
    replace (INT_MIN <=? Product.ratingCount p + 1) with true
      by (symmetry; apply Z.leb_le; lia).
    replace (Product.ratingCount p + 1 <=? INT_MAX) with true
      by (symmetry; apply Z.leb_le; lia).
    simpl. apply IH; simpl; lia.
Qed.



(** The bound on the rating sum survives a rating from 1 to 5. *)
Lemma addRating_bound (p p' : Product.t) (r : Z) :
  1 <= r <= 5 ->
  Product.addRating p (dint r) = Done p' ->
  rating_bound p -> rating_bound p'.
Proof.
  intros Hr H (Hc & Hlo & Hhi). apply addRating_Done in H.
  destruct H as [-> _]. unfold rating_bound; simpl.
  unfold dadd, dint. rewrite Qred_correct, inject_Z_plus.
  assert (1 <= inject_Z r)%Q
    by (change 1%Q with (inject_Z 1); rewrite <- Zle_Qle; lia).
  assert (inject_Z r <= 5)%Q
    by (change 5%Q with (inject_Z 5); rewrite <- Zle_Qle; lia).
  change (inject_Z 1) with 1%Q.
  split; [lia | split; lra].
Qed.

(** A rating counter at the end of the [int]s has no room for a rating. *)
Example addRating_overflow :
  Product.addRating
    (Product.mk 1 "Widget" 10 "tools" 5 1 (inject_Z INT_MAX) INT_MAX) 5
  = Undefined.
Proof. vm_compute. reflexivity. Qed.

(** Under the bound the average lies between 0 and 5. *)
Lemma rating_bound_average (p : Product.t) :
  rating_bound p ->
  (0 <= Product.getAverageRating p <= 5)%Q.
Proof.
  intros (Hc & Hlo & Hhi). unfold Product.getAverageRating.
  destruct (Product.ratingCount p =? 0) eqn:E; [split; lra |].
  unfold ddiv, dint. rewrite Qred_correct.
  assert (Hpos : (0 < inject_Z (Product.ratingCount p))%Q).
  { change 0%Q with (inject_Z 0). rewrite <- Zlt_Qlt. lia. }
  split.
  - apply Qle_shift_div_l; [exact Hpos | lra].
  - apply Qle_shift_div_r; [exact Hpos | lra].
Qed.

(** ** Checkout with the arithmetic of the compiled program *)

Lemma wrap_in_int (z : Z) : INT_MIN <= z <= INT_MAX -> Wrapped.wrap z = z.
Proof.
  unfold Wrapped.wrap, INT_MIN, INT_MAX. intros H.
  rewrite Z.mod_small; lia.
Qed.

Lemma wrap_range (z : Z) : INT_MIN <= Wrapped.wrap z <= INT_MAX.
Proof.
  unfold Wrapped.wrap, INT_MIN, INT_MAX.
  pose proof (Z.mod_pos_bound (z - - 2 ^ 31) (2 ^ 32) ltac:(lia)). lia.
Qed.

(** A run that ends without an overflow is a run of the compiled
    program, with the same result. *)
Lemma wrapped_addRating_agrees (p p' : Product.t) (rate : Q) :
  Product.addRating p rate = Done p' -> Wrapped.addRating p rate = p'.
Proof.
  unfold Product.addRating, Wrapped.addRating. intros H. bind_inv H.
  apply int_result_Done in E. destruct E as [-> Hr]. inversion H; subst.
  now rewrite (wrap_in_int _ Hr).
Qed.

Lemma wrapped_settle_agrees (item : CartItem.t) (ps : list Product.t)
    (total : Q) (cin : Cin) (r : Settled) :
  settle item ps total cin = Done r -> Wrapped.settle item ps total cin = Done r.
Proof.
  revert r. induction ps as [| p rest IH]; intros r H; simpl in H |- *.
  - exact H.
  - destruct (Product.id p =? Product.id (CartItem.product item)).
    + destruct (CartItem.buyQty item <=? Product.quantity p).
      * bind_inv H. bind_inv H. destruct a0 as [[r0 o0] c0]. bind_inv H.
        apply int_result_Done in E. destruct E as [-> Hr].
        rewrite E0. cbn [bind]. rewrite (wrap_in_int _ Hr).
        rewrite (wrapped_addRating_agrees _ _ _ E1). exact H.
      * exact H.
    + bind_inv H. rewrite (IH _ E). exact H.
Qed.

Lemma wrapped_processQueue_agrees (queue : list CartItem.t)
    (ps : list Product.t) (total : Q) (cin : Cin) (r : Settled) :
  processQueue queue ps total cin = Done r ->
  Wrapped.processQueue queue ps total cin = Done r.
Proof.
  revert ps total cin r.
  induction queue as [| item rest IH]; intros ps total cin r H; simpl in H |- *.
  - exact H.
  - bind_inv H. rewrite (wrapped_settle_agrees _ _ _ _ _ E). cbn [bind].
    destruct a as [[[ps1 t1] o1] c1]. bind_inv H.
    rewrite (IH _ _ _ _ E0). exact H.
Qed.

Lemma wrapped_processCheckout_agrees (m : Marketplace.t) (fs : Files)
    (cin : Cin) (r : Marketplace.t * Files * list Out) :
  processCheckout m fs cin = Done r -> Wrapped.processCheckout m fs cin = Done r.
Proof.
  unfold processCheckout, Wrapped.processCheckout. intros H. bind_inv H.
  rewrite E. cbn [bind].
  destruct (Customer.cartStack a) as [| it rest]; [exact H |].
  destruct (transfer (it :: rest) []) as [emptied queue].
  bind_inv H. rewrite (wrapped_processQueue_agrees _ _ _ _ _ E0). exact H.
Qed.

Lemma wrapped_checkouts_agrees (visits : list (Z * Cin)) (m : Marketplace.t)
    (fs : Files) (r : Marketplace.t * Files) :
  checkouts visits m fs = Done r -> Wrapped.checkouts visits m fs = Done r.
Proof.
  revert m fs. induction visits as [| [idx cin] rest IH]; intros m fs H;
    simpl in H |- *.
  - exact H.
  - bind_inv H. rewrite (wrapped_processCheckout_agrees _ _ _ _ E). cbn [bind].
    destruct a as [[m1 fs1] o1]. now apply IH.
Qed.

Lemma Forall2_same {A : Type} (R : A -> A -> Prop) (l : list A) :
  (forall a, R a a) -> Forall2 R l l.
Proof. intros H. induction l; constructor; auto. Qed.

Lemma Forall2_compose {A : Type} (R1 R2 R3 : A -> A -> Prop) (l1 l2 l3 : list A) :
  (forall a b c, R1 a b -> R2 b c -> R3 a c) ->
  Forall2 R1 l1 l2 -> Forall2 R2 l2 l3 -> Forall2 R3 l1 l3.
Proof.
  intros H H12. revert l3. induction H12; intros l3 H23; inversion H23; subst;
    constructor; eauto.
Qed.

Lemma wrapped_settle_settled (item : CartItem.t) (ps ps' : list Product.t)
    (total total' : Q) (cin cin' : Cin) (outs : list Out) :
  Wrapped.settle item ps total cin = Done (ps', total', outs, cin') ->
  Forall2 (settled item) ps ps'.
Proof.
  assert (Hrefl : forall l, Forall2 (settled item) l l).
  { intros l. apply Forall2_same. intros a. now left. }
  revert ps' total' outs cin'.
  induction ps as [| p rest IH]; intros ps' total' outs cin' H; simpl in H.
  - inversion H; constructor.
  - destruct (Product.id p =? Product.id (CartItem.product item)) eqn:Eid.
    + destruct (CartItem.buyQty item <=? Product.quantity p) eqn:El.
      * bind_inv H. destruct a as [[r o] c]. inversion H; subst.
        constructor; [| apply Hrefl].
        right. exists r. split; [exact (proj1 (readRating_Done _ _ _ _ E)) |].
        split; [lia | split; [lia | reflexivity]].
      * inversion H; subst. apply Hrefl.
    + bind_inv H. destruct a as [[[ps0 t0] o0] c0]. inversion H; subst.
      constructor; [now left | eapply IH; eassumption].
Qed.

(** What a checkout of a cart that is not empty consists of. *)
Lemma wrapped_processCheckout_Done (m m' : Marketplace.t) (fs fs' : Files)
    (cin : Cin) (c : Customer.t) (out : list Out) :
  currentCustomer m = Done c ->
  Customer.cartStack c <> [] ->
  Wrapped.processCheckout m fs cin = Done (m', fs', out) ->
  exists ps total outs cin',
    Wrapped.processQueue (Customer.cartStack c) (products m) 0%Q cin
      = Done (ps, total, outs, cin')
    /\ m' = set_products (set_currentCart m c []) ps
    /\ fs' = saveData m'
    /\ out = OutReceiptHeader :: outs ++ [OutTotal total].
Proof.
  intros Hc Hne H. unfold Wrapped.processCheckout in H. rewrite Hc in H.
  simpl in H.
  destruct (Customer.cartStack c) as [| it rest] eqn:Ecart; [congruence |].
  rewrite transfer_spec in H. simpl app in H. cbv iota beta in H.
  bind_inv H. destruct a as [[[ps total] outs] cin']. simpl in E.
  inversion H; subst. exists ps, total, outs, cin'. repeat split; assumption.
Qed.

(** *** The stock *)

Lemma settled_quantity (item : CartItem.t) (p p' : Product.t) :
  settled item p p' ->
  Product.quantity p' = Product.quantity p
  \/ (CartItem.buyQty item <= Product.quantity p
      /\ Product.quantity p'
         = Wrapped.wrap (Product.quantity p - CartItem.buyQty item)).
Proof.
  intros [-> | (r & _ & _ & Hq & ->)]; [now left |].
  right. split; [exact Hq | reflexivity].
Qed.

Lemma restock_nonneg (pid : Z) (stack : list CartItem.t) :
  0 <= restock pid stack.
Proof.
  induction stack as [| item rest IH]; simpl; [lia |].
  destruct ((Product.id (CartItem.product item) =? pid)
            && (CartItem.buyQty item <? 0)) eqn:E; [| lia].
  apply andb_true_iff in E. destruct E as [_ E]. apply Z.ltb_lt in E. lia.
Qed.

Lemma restock_all_nonneg (pid : Z) (cs : list Customer.t) :
  0 <= restock_all pid cs.
Proof.
  induction cs as [| c rest IH]; simpl; [lia |].
  pose proof (restock_nonneg pid (Customer.cartStack c)). lia.
Qed.

Lemma restock_cons (pid : Z) (item : CartItem.t) (rest : list CartItem.t) :
  restock pid (item :: rest) = restock pid [item] + restock pid rest.
Proof. simpl. lia. Qed.

Lemma settled_stocked (item : CartItem.t) (p p' : Product.t) :
  settled item p p' -> stocked [item] p p'.
Proof.
  unfold stocked. intros H.
  split; [destruct H as [-> | (r & _ & _ & _ & ->)]; reflexivity |].
  intros Hq Hroom.
  pose proof (restock_nonneg (Product.id p) [item]) as Hn.
  destruct H as [-> | (r & _ & Hid & Hb & ->)]; [lia |].
  simpl in Hroom, Hn |- *.
  replace (Product.id (CartItem.product item) =? Product.id p) with true
    in Hroom, Hn |- * by (symmetry; apply Z.eqb_eq; lia).
  simpl in Hroom, Hn |- *.
  destruct (CartItem.buyQty item <? 0) eqn:E;
    [apply Z.ltb_lt in E | apply Z.ltb_ge in E];
    (rewrite wrap_in_int; [lia | unfold INT_MIN, INT_MAX in *; lia]).
Qed.

Lemma stocked_cons (item : CartItem.t) (rest : list CartItem.t)
    (p p1 p2 : Product.t) :
  stocked [item] p p1 -> stocked rest p1 p2 -> stocked (item :: rest) p p2.
Proof.
  unfold stocked. rewrite (restock_cons _ item rest).
  intros [Hid1 H1] [Hid2 H2]. rewrite Hid1 in H2.
  pose proof (restock_nonneg (Product.id p) rest) as Hn.
  pose proof (restock_nonneg (Product.id p) [item]) as Hn1.
  split; [congruence |]. intros Hq Hroom.
  destruct (H1 Hq ltac:(lia)) as [Hq1 Hle1].
  destruct (H2 Hq1 ltac:(lia)) as [Hq2 Hle2]. lia.
Qed.

Lemma wrapped_processQueue_stocked (queue : list CartItem.t)
    (ps ps' : list Product.t) (total total' : Q) (cin cin' : Cin)
    (outs : list Out) :
  Wrapped.processQueue queue ps total cin = Done (ps', total', outs, cin') ->
  Forall2 (stocked queue) ps ps'.
Proof.
  revert ps total cin ps' total' outs cin'.
  induction queue as [| item rest IH];
    intros ps total cin ps' total' outs cin' H; simpl in H.
  - inversion H; subst. apply Forall2_same. intros p.
    split; [reflexivity |]. simpl. lia.
  - bind_inv H. destruct a as [[[ps1 t1] o1] c1]. bind_inv H.
    destruct a as [[[ps2 t2] o2] c2]. inversion H; subst.
    apply (Forall2_compose (stocked [item]) (stocked rest)
             (stocked (item :: rest)) ps ps1 ps');
      [exact (stocked_cons item rest) | | eapply IH; eassumption].
    eapply Forall2_impl; [| eapply wrapped_settle_settled; eassumption].
    intros a b. apply settled_stocked.
Qed.

(** Emptying the cart of a customer takes what it could add out of the
    account. *)
Lemma restock_all_emptied (pid : Z) (cs : list Customer.t) (i : nat)
    (c : Customer.t) :
  nth_error cs i = Some c ->
  restock_all pid (update_at cs i (Customer.set_cartStack c []))
  = restock_all pid cs - restock pid (Customer.cartStack c).
Proof.
  revert i. induction cs as [| c0 rest IH]; intros [| i] H; simpl in H;
    try discriminate.
  - inversion H; subst. simpl. lia.
  - simpl. rewrite (IH _ H). lia.
Qed.

Lemma restock_le_all (pid : Z) (cs : list Customer.t) (i : nat)
    (c : Customer.t) :
  nth_error cs i = Some c ->
  restock pid (Customer.cartStack c) <= restock_all pid cs.
Proof.
  revert i. induction cs as [| c0 rest IH]; intros [| i] H; simpl in H;
    try discriminate.
  - inversion H; subst. simpl. pose proof (restock_all_nonneg pid rest). lia.
  - simpl. pose proof (IH _ H). pose proof (restock_nonneg pid (Customer.cartStack c0)).
    lia.
Qed.

Lemma flow_same (cs : list Customer.t) (p : Product.t) : flow cs cs p p.
Proof. split; [reflexivity | lia]. Qed.

Lemma flow_trans (cs1 cs2 cs3 : list Customer.t) (p1 p2 p3 : Product.t) :
  flow cs1 cs2 p1 p2 -> flow cs2 cs3 p2 p3 -> flow cs1 cs3 p1 p3.
Proof.
  unfold flow. intros [Hid1 H1] [Hid2 H2]. rewrite Hid1 in H2.
  split; [congruence |]. intros Hq Hroom.
  destruct (H1 Hq Hroom) as [Hq1 Hle1].
  destruct (H2 Hq1 ltac:(lia)) as [Hq2 Hle2]. lia.
Qed.

Lemma wrapped_processCheckout_flow (m m' : Marketplace.t) (fs fs' : Files)
    (cin : Cin) (out : list Out) :
  Wrapped.processCheckout m fs cin = Done (m', fs', out) ->
  Forall2 (flow (customers m) (customers m')) (products m) (products m').
Proof.
  intros H. pose proof H as H0. unfold Wrapped.processCheckout in H0.
  bind_inv H0. destruct (Customer.cartStack a) as [| it rest] eqn:Ecart.
  - inversion H0; subst. apply Forall2_same. apply flow_same.
  - clear H0.
    destruct (wrapped_processCheckout_Done m m' fs fs' cin a out E
                ltac:(rewrite Ecart; discriminate) H)
      as (ps & total & outs & cin' & Hq & -> & _ & _).
    assert (Hnth : nth_error (customers m) (Z.to_nat (currentCustomerIdx m))
                   = Some a).
    { unfold currentCustomer in E.
      destruct (currentCustomerIdx m <? 0); [discriminate |].
      destruct (nth_error (customers m) (Z.to_nat (currentCustomerIdx m)));
        [now inversion E | discriminate]. }
    cbn [set_products set_currentCart set_customers customers products].
    eapply Forall2_impl;
      [| exact (wrapped_processQueue_stocked _ _ _ _ _ _ _ _ Hq)].
    intros p p' [Hid Hs]. split; [exact Hid |]. intros Hp Hroom.
    rewrite restock_all_emptied with (c := a) by exact Hnth.
    pose proof (restock_le_all (Product.id p) _ _ _ Hnth) as Hle.
    destruct (Hs Hp ltac:(lia)) as [Hp' Hle']. lia.
Qed.

Lemma wrapped_checkouts_flow (visits : list (Z * Cin)) (m m' : Marketplace.t)
    (fs fs' : Files) :
  Wrapped.checkouts visits m fs = Done (m', fs') ->
  Forall2 (flow (customers m) (customers m')) (products m) (products m').
Proof.
  revert m fs. induction visits as [| [idx cin] rest IH]; intros m fs H;
    simpl in H.
  - inversion H; subst. apply Forall2_same. apply flow_same.
  - bind_inv H. destruct a as [[m1 fs1] o1].
    apply (Forall2_compose (flow (customers m) (customers m1))
             (flow (customers m1) (customers m'))
             (flow (customers m) (customers m'))
             (products m) (products m1) (products m'));
      [exact (flow_trans _ _ _) | | exact (IH m1 fs1 H)].
    exact (wrapped_processCheckout_flow (login m idx) m1 fs fs1 cin o1 E).
Qed.

Lemma nonnegative_restock (pid : Z) (stack : list CartItem.t) :
  Forall (fun item => 0 <= CartItem.buyQty item) stack -> restock pid stack = 0.
Proof.
  intros H. induction H as [| item rest Hitem _ IH]; simpl; [reflexivity |].
  replace (CartItem.buyQty item <? 0) with false
    by (symmetry; apply Z.ltb_ge; lia).
  rewrite andb_false_r. lia.
Qed.

Lemma nonnegative_restock_all (pid : Z) (cs : list Customer.t) :
  Forall (fun c => Forall (fun item => 0 <= CartItem.buyQty item)
                     (Customer.cartStack c)) cs ->
  restock_all pid cs = 0.
Proof.
  intros H. induction H as [| c rest Hc _ IH]; simpl; [reflexivity |].
  rewrite (nonnegative_restock pid _ Hc). lia.
Qed.

(** C3, with the condition that it needs.  The scan for a queued item
    changes the stock of a product only when the product has at least
    the quantity of the item, and then by subtracting this quantity with
    the arithmetic of the machine.  After any sequence of checkouts of
    the compiled program, a product whose stock was not negative has a
    stock that is not negative, provided that the stock, raised by what
    the negative quantities staged for its id can add to it, is still an
    [int].  In particular this is so when no staged quantity is
    negative, and then the stock has not grown. *)
Theorem wrapped_checkouts_keep_stock :
  (forall (item : CartItem.t) (ps ps' : list Product.t) (total total' : Q)
      (cin cin' : Cin) (outs : list Out),
      Wrapped.settle item ps total cin = Done (ps', total', outs, cin') ->
      Forall2
        (fun p p' =>
           Product.quantity p' = Product.quantity p
           \/ (CartItem.buyQty item <= Product.quantity p
               /\ Product.quantity p'
                  = Wrapped.wrap (Product.quantity p - CartItem.buyQty item)))
        ps ps')
  /\ (forall (visits : list (Z * Cin)) (m m' : Marketplace.t) (fs fs' : Files),
      Wrapped.checkouts visits m fs = Done (m', fs') ->
      Forall2
        (fun p p' =>
           0 <= Product.quantity p ->
           Product.quantity p + restock_all (Product.id p) (customers m)
             <= INT_MAX ->
           0 <= Product.quantity p')
        (products m) (products m'))
  /\ (forall (visits : list (Z * Cin)) (m m' : Marketplace.t) (fs fs' : Files),
      nonnegative_carts m ->
      Wrapped.checkouts visits m fs = Done (m', fs') ->
      Forall2
        (fun p p' =>
           0 <= Product.quantity p <= INT_MAX ->
           0 <= Product.quantity p' <= Product.quantity p)
        (products m) (products m')).
Proof.
  split; [| split].
  - intros item ps ps' total total' cin cin' outs H.
    eapply Forall2_impl; [| eapply wrapped_settle_settled; eassumption].
    intros p p'. apply settled_quantity.
  - intros visits m m' fs fs' H.
    eapply Forall2_impl; [| exact (wrapped_checkouts_flow visits m m' fs fs' H)].
    intros p p' [_ Hf] Hp Hroom. exact (proj1 (Hf Hp Hroom)).
  - intros visits m m' fs fs' Hn H.
    eapply Forall2_impl; [| exact (wrapped_checkouts_flow visits m m' fs fs' H)].
    intros p p' [_ Hf] [Hp Hmax].
    rewrite (nonnegative_restock_all _ _ Hn) in Hf.
    pose proof (restock_all_nonneg (Product.id p) (customers m')) as Hn'.
    destruct (Hf Hp ltac:(lia)) as [Hp' Hle]. lia.
Qed.

(** Al has staged two gadgets and then a quantity of -2 of the widget:
    the checkout sells the gadgets and raises the stock of the widget. *)
Lemma wrapped_checkouts_keep_stock_witness :
  exists m' fs',
    Wrapped.checkouts [(0, Example.typed); (0, [])] Example.restocking
      Example.no_files = Done (m', fs')
    /\ map Product.quantity (products m') = [7; 2]
    /\ Forall2
         (fun p p' =>
            0 <= Product.quantity p ->
            Product.quantity p
            + restock_all (Product.id p) (customers Example.restocking)
              <= INT_MAX ->
            0 <= Product.quantity p')
         [Example.widget; Example.gadget] (products m').
Proof.
  destruct (Wrapped.checkouts [(0, Example.typed); (0, [])] Example.restocking
              Example.no_files) as [[m' fs'] | | | |] eqn:E;
    try (vm_compute in E; discriminate).
  exists m', fs'. split; [reflexivity |].
  split; [vm_compute in E; inversion E; reflexivity |].
  exact (proj1 (proj2 wrapped_checkouts_keep_stock)
           [(0, Example.typed); (0, [])] Example.restocking m'
           Example.no_files fs' E).
Defined.

(** C3 as stated fails: the menu stages a quantity of [INT_MIN] of the
    widget, of which there are 5; at the checkout the test
    [5 >= buyQty] holds, the subtraction leaves the [int]s, and the
    compiled program is left with a stock of [5 + 2^31 - 2^32]. *)
Lemma wrapped_checkout_negative_stock :
  exists m1 f1 out1 m2 f2,
    addToCart Example.store Example.no_files 1 INT_MIN = Done (m1, f1, out1)
    /\ Forall (fun p => 0 <= Product.quantity p) (products m1)
    /\ checkouts [(0, [[Num 5]])] m1 f1 = Undefined
    /\ Wrapped.checkouts [(0, [[Num 5]])] m1 f1 = Done (m2, f2)
    /\ map Product.quantity (products m2) = [-2147483643; 4]
    /\ ~ Forall2
           (fun p p' => 0 <= Product.quantity p -> 0 <= Product.quantity p')
           (products m1) (products m2).
Proof.
  do 5 eexists. split; [vm_compute; reflexivity |].
  split; [repeat constructor; simpl; lia |].
  split; [vm_compute; reflexivity |].
  split; [vm_compute; reflexivity |].
  split; [reflexivity |].
  intros H. inversion H as [| p p' ps ps' Hp _]; subst.
  simpl in Hp. lia.
Qed.

(** *** The ratings *)

(** The bound on the rating sum survives a rating from 1 to 5 while the
    counter has room for it. *)
Lemma wrapped_addRating_bound (p : Product.t) (r : Z) :
  1 <= r <= 5 ->
  Product.ratingCount p + 1 <= INT_MAX ->
  rating_bound p ->
  rating_bound (Wrapped.addRating p (dint r))
  /\ Product.ratingCount (Wrapped.addRating p (dint r))
     = Product.ratingCount p + 1.
Proof.
  intros Hr Hroom (Hc & Hlo & Hhi).
  assert (Hw : Wrapped.wrap (Product.ratingCount p + 1)
               = Product.ratingCount p + 1).
  { apply wrap_in_int. unfold INT_MIN, INT_MAX in *. lia. }
  unfold rating_bound, Wrapped.addRating; simpl. rewrite Hw.
  split; [| reflexivity].
  unfold dadd, dint. rewrite Qred_correct, inject_Z_plus.
  assert (1 <= inject_Z r)%Q
    by (change 1%Q with (inject_Z 1); rewrite <- Zle_Qle; lia).
  assert (inject_Z r <= 5)%Q
    by (change 5%Q with (inject_Z 5); rewrite <- Zle_Qle; lia).
  change (inject_Z 1) with 1%Q.
  split; [lia | split; lra].
Qed.

Lemma ratings_due_cons (p : Product.t) (item : CartItem.t)
    (rest : list CartItem.t) :
  ratings_due p (item :: rest)
  = (if Product.id (CartItem.product item) =? Product.id p then 1 else 0)
    + ratings_due p rest.
Proof.
  unfold ratings_due. simpl.
  destruct (Product.id (CartItem.product item) =? Product.id p);
    simpl List.length; lia.
Qed.

Lemma ratings_due_nonneg (p : Product.t) (stack : list CartItem.t) :
  0 <= ratings_due p stack.
Proof. unfold ratings_due. lia. Qed.

Lemma ratings_due_id (p p' : Product.t) (stack : list CartItem.t) :
  Product.id p' = Product.id p -> ratings_due p' stack = ratings_due p stack.
Proof. unfold ratings_due. intros ->. reflexivity. Qed.

Lemma settled_rated (item : CartItem.t) (p p' : Product.t) :
  settled item p p' -> rated [item] p p'.
Proof.
  unfold rated. rewrite ratings_due_cons.
  change (ratings_due p []) with 0.
  intros [-> | (r & Hr & Hid & _ & ->)].
  - split; [reflexivity |]. intros Hb _. split; [exact Hb |].
    destruct (Product.id (CartItem.product item) =? Product.id p); lia.
  - split; [reflexivity |].
    replace (Product.id (CartItem.product item) =? Product.id p) with true
      by (symmetry; apply Z.eqb_eq; simpl; lia).
    intros Hb Hroom.
    destruct (wrapped_addRating_bound
                (Product.set_quantity p
                   (Wrapped.wrap (Product.quantity p - CartItem.buyQty item)))
                r Hr ltac:(simpl; lia) Hb) as [Hb' Hc'].
    split; [exact Hb' |]. rewrite Hc'. simpl. lia.
Qed.

Lemma rated_cons (item : CartItem.t) (rest : list CartItem.t)
    (p p1 p2 : Product.t) :
  rated [item] p p1 -> rated rest p1 p2 -> rated (item :: rest) p p2.
Proof.
  unfold rated. rewrite !ratings_due_cons.
  change (ratings_due p []) with 0.
  intros [Hid1 H1] [Hid2 H2]. rewrite (ratings_due_id p p1 rest Hid1) in H2.
  pose proof (ratings_due_nonneg p rest) as Hn.
  split; [congruence |]. intros Hb Hroom.
  destruct (H1 Hb ltac:(lia)) as [Hb1 Hc1].
  destruct (H2 Hb1 ltac:(lia)) as [Hb2 Hc2].
  split; [exact Hb2 | lia].
Qed.

Lemma wrapped_processQueue_rated (queue : list CartItem.t)
    (ps ps' : list Product.t) (total total' : Q) (cin cin' : Cin)
    (outs : list Out) :
  Wrapped.processQueue queue ps total cin = Done (ps', total', outs, cin') ->
  Forall2 (rated queue) ps ps'.
Proof.
  revert ps total cin ps' total' outs cin'.
  induction queue as [| item rest IH];
    intros ps total cin ps' total' outs cin' H; simpl in H.
  - inversion H; subst. apply Forall2_same. intros p.
    split; [reflexivity |]. intros Hb _. split; [exact Hb |].
    change (ratings_due p []) with 0. lia.
  - bind_inv H. destruct a as [[[ps1 t1] o1] c1]. bind_inv H.
    destruct a as [[[ps2 t2] o2] c2]. inversion H; subst.
    apply (Forall2_compose (rated [item]) (rated rest) (rated (item :: rest))
             ps ps1 ps');
      [exact (rated_cons item rest) | | eapply IH; eassumption].
    eapply Forall2_impl; [| eapply wrapped_settle_settled; eassumption].
    intros a b. apply settled_rated.
Qed.

(** C10, with the condition that it needs: a checkout of the compiled
    program leaves every product that was within
    [ratingCount <= ratingSum <= 5 * ratingCount] within it, and its
    average between 0 and 5, when the rating counter of the product has
    room for one rating for each staged item with its id. *)
Theorem wrapped_checkout_keeps_rating_bound (m m' : Marketplace.t)
    (fs fs' : Files) (cin : Cin) (out : list Out) (c : Customer.t) :
  currentCustomer m = Done c ->
  Wrapped.processCheckout m fs cin = Done (m', fs', out) ->
  Forall2
    (fun p p' =>
       rating_bound p ->
       Product.ratingCount p + ratings_due p (Customer.cartStack c) <= INT_MAX ->
       rating_bound p' /\ (0 <= Product.getAverageRating p' <= 5)%Q)
    (products m) (products m').
Proof.
  intros Hc H.
  assert (K : Forall2 (rated (Customer.cartStack c)) (products m) (products m')).
  { destruct (Customer.cartStack c) as [| it rest] eqn:Ecart.
    - unfold Wrapped.processCheckout in H. rewrite Hc in H. simpl in H.
      rewrite Ecart in H. inversion H; subst.
      apply Forall2_same. intros p. split; [reflexivity |].
      intros Hb _. split; [exact Hb |]. change (ratings_due p []) with 0. lia.
    - destruct (wrapped_processCheckout_Done m m' fs fs' cin c out Hc
                  ltac:(rewrite Ecart; discriminate) H)
        as (ps & total & outs & cin' & Hq & -> & _ & _).
      rewrite Ecart in Hq. simpl.
      eapply wrapped_processQueue_rated; eassumption. }
  eapply Forall2_impl; [| exact K].
  intros p p' [_ Hr] Hb Hroom. destruct (Hr Hb Hroom) as [Hb' _].
  split; [exact Hb' | now apply rating_bound_average].
Qed.

Lemma wrapped_checkout_keeps_rating_bound_witness :
  exists m' fs' out,
    Wrapped.processCheckout Example.staged Example.no_files Example.typed
      = Done (m', fs', out)
    /\ Forall2
         (fun p p' =>
            rating_bound p ->
            Product.ratingCount p
            + ratings_due p [CartItem.mk Example.gadget 2;
                             CartItem.mk Example.widget 3] <= INT_MAX ->
            rating_bound p' /\ (0 <= Product.getAverageRating p' <= 5)%Q)
         [Example.widget; Example.gadget] (products m').
Proof.
  destruct (Wrapped.processCheckout Example.staged Example.no_files
              Example.typed)
    as [[[m' fs'] out] | | | |] eqn:E; try (vm_compute in E; discriminate).
  exists m', fs', out. split; [reflexivity |].
  exact (wrapped_checkout_keeps_rating_bound Example.staged m'
           Example.no_files fs' Example.typed out
           (Customer.set_cartStack Example.al
              [CartItem.mk Example.gadget 2; CartItem.mk Example.widget 3])
           eq_refl E).
Defined.

(** C10 as stated fails: [products.txt] gives the widget a rating
    counter of [INT_MAX] with every rating a 1, which is within the
    bound; Al checks out the one widget staged and rates it 1, the
    counter wraps to [INT_MIN], and the average is -1. *)
Lemma wrapped_checkout_rating_counter_wraps :
  exists m p m' fs' out p',
    loadData initial Example.worn_files = Done m
    /\ products m = [p]
    /\ rating_bound p
    /\ Wrapped.processCheckout (login m 0) Example.worn_files [[Num 1]]
       = Done (m', fs', out)
    /\ products m' = [p']
    /\ Product.ratingCount p' = INT_MIN
    /\ (Product.getAverageRating p' == - (1))%Q
    /\ ~ (rating_bound p' /\ (0 <= Product.getAverageRating p' <= 5)%Q).
Proof.
  do 6 eexists. split; [vm_compute; reflexivity |].
  split; [reflexivity |].
  split.
  { unfold rating_bound; simpl. split; [lia |]. split.
    - apply Qle_refl.
    - unfold Qle; simpl; lia. }
  split; [vm_compute; reflexivity |].
  split; [reflexivity |].
  split; [reflexivity |].
  split; [vm_compute; reflexivity |].
  intros [[Hc _] _]. simpl in Hc. unfold INT_MIN in Hc. lia.
Qed.

(** ** The ranking *)

Lemma dlt_false (a b : Q) : dlt a b = false -> (b <= a)%Q.
Proof.
  unfold dlt. intros H. apply Qle_bool_iff.
  now destruct (Qle_bool b a).
Qed.

Lemma dlt_true (a b : Q) : dlt a b = true -> (a <= b)%Q.
Proof.
  unfold dlt. intros H. destruct (Qle_bool b a) eqn:E; [discriminate |].
  apply Qlt_le_weak, Qnot_le_lt. intros Hle.
  apply Qle_bool_iff in Hle. congruence.
Qed.

Lemma push_In (p x : Product.t) (pq : PriorityQueue.t) :
  In x (PriorityQueue.push p pq) -> x = p \/ In x pq.
Proof.
  induction pq as [| q rest IH]; simpl.
  - intros [H | []]; auto.
  - destruct (Product.lt q p); simpl.
    + intros [H | H]; auto.
    + intros [H | H]; auto. destruct (IH H); auto.
Qed.

Lemma push_Permutation (p : Product.t) (pq : PriorityQueue.t) :
  Permutation (PriorityQueue.push p pq) (p :: pq).
Proof.
  induction pq as [| q rest IH]; simpl; [reflexivity |].
  destruct (Product.lt q p); [reflexivity |].
  rewrite IH. apply perm_swap.
Qed.

(** A push keeps the queue in the order of delivery. *)
Lemma push_sorted (p : Product.t) (pq : PriorityQueue.t) :
  StronglySorted rated_above pq ->
  StronglySorted rated_above (PriorityQueue.push p pq).
Proof.
  induction pq as [| q rest IH]; intros Hs; simpl.
  - constructor; constructor.
  - inversion Hs as [| q' rest' Hrest Hq]; subst.
    destruct (Product.lt q p) eqn:E; unfold Product.lt in E.
    + constructor; [exact Hs |].
      apply dlt_true in E. constructor; [exact E |].
      rewrite Forall_forall in Hq |- *. intros x Hx.
      unfold rated_above in *. specialize (Hq x Hx). lra.
    + apply dlt_false in E. constructor; [now apply IH |].
      rewrite Forall_forall in Hq |- *. intros x Hx.
      destruct (push_In _ _ _ Hx) as [-> | Hin]; [exact E | now apply Hq].
Qed.

Lemma extract_spec (pq : PriorityQueue.t) (temp : list Product.t) :
  extract pq temp = temp ++ pq.
Proof.
  revert temp; induction pq as [| top rest IH]; intros temp; simpl.
  - now rewrite app_nil_r.
  - rewrite IH, <- app_assoc. reflexivity.
Qed.

Lemma pushes_sorted (ps : list Product.t) (pq : PriorityQueue.t) :
  StronglySorted rated_above pq ->
  StronglySorted rated_above
    (fold_left (fun pq p => PriorityQueue.push p pq) ps pq).
Proof.
  revert pq; induction ps as [| p rest IH]; intros pq Hs; simpl;
    [exact Hs | apply IH, push_sorted, Hs].
Qed.

Lemma pushes_Permutation (ps : list Product.t) (pq : PriorityQueue.t) :
  Permutation (fold_left (fun pq p => PriorityQueue.push p pq) ps pq) (ps ++ pq).
Proof.
  revert pq; induction ps as [| p rest IH]; intros pq; simpl; [reflexivity |].
  rewrite IH, push_Permutation. symmetry. apply Permutation_middle.
Qed.

(** X22: the ranking lists the products of the store, each as often as
    the store has it. *)
Lemma showTopRatedProducts_Permutation (m : Marketplace.t) :
  Permutation (showTopRatedProducts m) (products m).
Proof.
  unfold showTopRatedProducts. rewrite extract_spec. simpl.
  rewrite pushes_Permutation. now rewrite app_nil_r.
Qed.

(** C8: in the ranking every product is rated at least as high as every
    product after it. *)
Theorem showTopRatedProducts_sorted (m : Marketplace.t) :
  StronglySorted
    (fun a b => (Product.getAverageRating b <= Product.getAverageRating a)%Q)
    (showTopRatedProducts m).
Proof.
  unfold showTopRatedProducts. rewrite extract_spec. simpl.
  apply (pushes_sorted (products m) []). constructor.
Qed.

(** ** Text written and read back *)

Lemma append_assoc (a b c : string) : ((a ++ b) ++ c = a ++ (b ++ c))%string.
Proof. induction a as [| x a IH]; simpl; [reflexivity | now rewrite IH]. Qed.

Lemma all_chars_app (P : ascii -> bool) (a b : string) :
  all_chars P (a ++ b) = all_chars P a && all_chars P b.
Proof.
  induction a as [| x a IH]; simpl; [reflexivity |].
  now rewrite IH, andb_assoc.
Qed.

Lemma all_chars_impl (P Q : ascii -> bool) (s : string) :
  (forall c, P c = true -> Q c = true) ->
  all_chars P s = true -> all_chars Q s = true.
Proof.
  intros HPQ. induction s as [| c s IH]; simpl; [reflexivity |].
  intros H. apply andb_true_iff in H. destruct H as [Hc Hs].
  now rewrite (HPQ c Hc), (IH Hs).
Qed.

Lemma digit_char_spec (d : Z) :
  0 <= d < 10 ->
  is_digit (digit_char d) = true /\ digit_value (digit_char d) = d.
Proof.
  intros H.
  assert (C : d = 0 \/ d = 1 \/ d = 2 \/ d = 3 \/ d = 4 \/ d = 5 \/ d = 6
              \/ d = 7 \/ d = 8 \/ d = 9) by lia.
  repeat (destruct C as [-> | C]; [split; reflexivity |]).
  subst; split; reflexivity.
Qed.

Lemma digit_classes (c : ascii) :
  is_digit c = true ->
  is_space c = false /\ numeric_char c = true
  /\ read_sign (String c "") = (false, String c "").
Proof.
  destruct c as [[] [] [] [] [] [] [] []]; try discriminate;
    intros _; repeat split.
Qed.

Lemma numeric_plain (c : ascii) : numeric_char c = true -> plain_char c = true.
Proof.
  destruct c as [[] [] [] [] [] [] [] []]; try discriminate; reflexivity.
Qed.

Lemma read_sign_digit (c : ascii) (r : string) :
  is_digit c = true -> read_sign (String c r) = (false, String c r).
Proof.
  destruct c as [[] [] [] [] [] [] [] []]; try discriminate; reflexivity.
Qed.

(** The digits written for a number are digits, and reading them
    continues a number by that number. *)
Lemma show_digits_spec (fuel : nat) :
  forall (n : Z) (acc : string),
    0 <= n < 10 ^ Z.of_nat (S fuel) ->
    (all_chars is_digit acc = true ->
     all_chars is_digit (show_digits (S fuel) n acc) = true)
    /\ starts_digit (show_digits (S fuel) n acc) = true
    /\ exists k, 0 <= k /\ forall a,
         read_digits a (show_digits (S fuel) n acc)
         = read_digits (a * 10 ^ k + n) acc.
Proof.
  induction fuel as [| f IH]; intros n acc Hn;
    assert (Hm : 0 <= n mod 10 < 10) by (apply Z.mod_pos_bound; lia);
    destruct (digit_char_spec _ Hm) as [Hd Hv];
    cbn [show_digits]; destruct (n <? 10) eqn:E.
  1, 3: apply Z.ltb_lt in E; rewrite (Z.mod_small n 10) in * by lia;
    (split; [| split]);
    [ intros Hacc; simpl; now rewrite Hd, Hacc
    | simpl; exact Hd
    | exists 1; split; [lia |]; intros a; simpl; rewrite Hd, Hv; f_equal; lia ].
  - apply Z.ltb_ge in E. change (10 ^ Z.of_nat 1) with 10 in Hn. lia.
  - apply Z.ltb_ge in E.
    assert (Hq : 0 <= n / 10 < 10 ^ Z.of_nat (S f)).
    { split; [apply Z.div_pos; lia |].
      apply Z.div_lt_upper_bound; [lia |].
      replace (10 * 10 ^ Z.of_nat (S f)) with (10 ^ Z.of_nat (S (S f))); [lia |].
      rewrite (Nat2Z.inj_succ (S f)), Z.pow_succ_r; lia. }
    destruct (IH (n / 10) (String (digit_char (n mod 10)) acc) Hq)
      as (Hall & Hstart & k & Hk & Hread).
    split; [| split].
    + intros Hacc. apply Hall. simpl. now rewrite Hd, Hacc.
    + exact Hstart.
    + exists (k + 1). split; [lia |]. intros a. rewrite Hread. simpl.
      rewrite Hd, Hv. f_equal.
      rewrite Z.pow_add_r by lia.
      pose proof (Z.div_mod n 10 ltac:(lia)). lia.
Qed.

Lemma show_nat_fuel (n : Z) :
  0 <= n -> n < 10 ^ Z.of_nat (S (Z.to_nat (Z.log2 n))).
Proof.
  intros Hn. rewrite Nat2Z.inj_succ, Z2Nat.id by apply Z.log2_nonneg.
  destruct (Z.eq_dec n 0) as [-> | Hz]; [reflexivity |].
  pose proof (Z.log2_spec n ltac:(lia)) as [_ Hhi].
  eapply Z.lt_le_trans; [exact Hhi |].
  apply Z.pow_le_mono_l. lia.
Qed.

Lemma show_nat_spec (n : Z) :
  0 <= n ->
  all_chars is_digit (show_nat n) = true
  /\ starts_digit (show_nat n) = true
  /\ read_digits 0 (show_nat n) = (n, EmptyString).
Proof.
  intros Hn. unfold show_nat.
  destruct (show_digits_spec _ n EmptyString (conj Hn (show_nat_fuel n Hn)))
    as (Hall & Hstart & k & _ & Hread).
  split; [now apply Hall | split; [exact Hstart |]].
  rewrite Hread. reflexivity.
Qed.

Lemma starts_digit_inv (s : string) :
  starts_digit s = true -> exists c r, s = String c r /\ is_digit c = true.
Proof. destruct s as [| c r]; simpl; [discriminate | eauto]. Qed.

(** [stoi] reads an [int] back from what [<<] wrote. *)
Lemma stoi_show_int (z : Z) : in_int z = true -> stoi (show_int z) = Done z.
Proof.
  intros Hz. unfold show_int, stoi.
  destruct (z <? 0) eqn:E.
  - apply Z.ltb_lt in E.
    destruct (show_nat_spec (- z) ltac:(lia)) as (_ & Hstart & Hread).
    simpl. rewrite Hstart, Hread. simpl. rewrite Z.opp_involutive, Hz.
    reflexivity.
  - apply Z.ltb_ge in E.
    destruct (show_nat_spec z E) as (_ & Hstart & Hread).
    destruct (starts_digit_inv _ Hstart) as (c & r & Hs & Hc).
    rewrite Hs. simpl skip_space.
    rewrite (proj1 (digit_classes c Hc)), (read_sign_digit c r Hc), <- Hs.
    rewrite Hstart, Hread. simpl. now rewrite Hz.
Qed.

Lemma show_int_numeric (z : Z) :
  all_chars numeric_char (show_int z) = true /\ nonempty (show_int z) = true.
Proof.
  assert (H : forall n, 0 <= n ->
            all_chars numeric_char (show_nat n) = true
            /\ nonempty (show_nat n) = true).
  { intros n Hn. destruct (show_nat_spec n Hn) as (Hall & Hstart & _). split.
    - eapply all_chars_impl; [| exact Hall].
      intros c Hc. exact (proj1 (proj2 (digit_classes c Hc))).
    - destruct (starts_digit_inv _ Hstart) as (c & r & -> & _). reflexivity. }
  unfold show_int. destruct (z <? 0) eqn:E.
  - apply Z.ltb_lt in E. destruct (H (- z) ltac:(lia)) as [Ha _].
    simpl. now rewrite Ha.
  - apply Z.ltb_ge in E. exact (H z E).
Qed.

Lemma show_digits_digits (fuel : nat) (n : Z) (acc : string) :
  all_chars is_digit acc = true ->
  all_chars is_digit (show_digits fuel n acc) = true.
Proof.
  revert n acc; induction fuel as [| f IH]; intros n acc Hacc; simpl;
    [exact Hacc |].
  assert (Hm : 0 <= n mod 10 < 10) by (apply Z.mod_pos_bound; lia).
  destruct (digit_char_spec _ Hm) as [Hd _].
  destruct (n <? 10); [simpl; now rewrite Hd, Hacc |].
  apply IH. simpl. now rewrite Hd, Hacc.
Qed.

Lemma digits_numeric (s : string) :
  all_chars is_digit s = true -> all_chars numeric_char s = true.
Proof.
  apply all_chars_impl. intros c Hc. exact (proj1 (proj2 (digit_classes c Hc))).
Qed.

Lemma show_nat_numeric (n : Z) : all_chars numeric_char (show_nat n) = true.
Proof. apply digits_numeric, show_digits_digits. reflexivity. Qed.

Lemma zeros_numeric (k : nat) : all_chars numeric_char (zeros k) = true.
Proof. induction k; simpl; [reflexivity | exact IHk]. Qed.

Lemma strip_numeric (s : string) :
  all_chars numeric_char s = true ->
  all_chars numeric_char (strip_trailing_zeros s) = true.
Proof.
  induction s as [| c s IH]; simpl; [reflexivity |].
  intros H. apply andb_true_iff in H. destruct H as [Hc Hs].
  destruct ((c =? "0")%char && (strip_trailing_zeros s =? "")%string);
    [reflexivity |].
  simpl. now rewrite Hc, (IH Hs).
Qed.

Lemma pad_numeric (k : nat) (s : string) :
  all_chars numeric_char s = true -> all_chars numeric_char (pad k s) = true.
Proof.
  intros H. unfold pad. now rewrite all_chars_app, zeros_numeric, H.
Qed.

Lemma fraction_numeric (k : nat) (f : Z) :
  all_chars numeric_char (fraction k f) = true.
Proof.
  unfold fraction.
  destruct (strip_trailing_zeros (pad k (show_nat f)) =? "")%string eqn:E;
    [reflexivity |].
  simpl. apply strip_numeric, pad_numeric, show_nat_numeric.
Qed.

(** A printed [double] holds digits, a point, an [e] and signs. *)
Lemma show_double_numeric (q : Q) :
  all_chars numeric_char (show_double q) = true.
Proof.
  unfold show_double. destruct (Qnum q =? 0); [reflexivity |].
  match goal with
  | |- context [if ?m0 =? 10 ^ 6 then _ else _] => destruct (m0 =? 10 ^ 6)
  end;
  match goal with
  | |- context [if (-4 <=? ?x) && (?x <? 6) then _ else _] =>
      destruct ((-4 <=? x) && (x <? 6))
  end;
  destruct (Qnum q <? 0); cbn [all_chars numeric_char];
    repeat rewrite all_chars_app; cbn [all_chars];
    repeat rewrite show_nat_numeric; repeat rewrite fraction_numeric;
    try rewrite (pad_numeric 2 _ (show_nat_numeric _));
    try reflexivity;
    match goal with
    | |- context [if ?b then "-"%char else "+"%char] => destruct b; reflexivity
    end.
Qed.

Lemma numeric_is_plain (s : string) :
  all_chars numeric_char s = true -> plain s = true.
Proof. apply all_chars_impl, numeric_plain. Qed.

(** ** Lines and fields *)

Lemma segments_app_delim (d : ascii) (f r : string) :
  all_chars (fun c => negb (c =? d)%char) f = true ->
  segments d (f ++ String d r) = f :: segments d r.
Proof.
  induction f as [| c f IH]; simpl; intros H.
  - now rewrite Ascii.eqb_refl.
  - apply andb_true_iff in H. destruct H as [Hc Hf].
    destruct (c =? d)%char; [discriminate |]. now rewrite (IH Hf).
Qed.

Lemma segments_single (d : ascii) (f : string) :
  all_chars (fun c => negb (c =? d)%char) f = true ->
  nonempty f = true ->
  segments d f = [f].
Proof.
  induction f as [| c f IH]; simpl; intros H Hne; [discriminate |].
  apply andb_true_iff in H. destruct H as [Hc Hf].
  destruct (c =? d)%char; [discriminate |].
  destruct f as [| c' f']; [reflexivity |].
  now rewrite (IH Hf eq_refl).
Qed.

Lemma plain_no_bar (s : string) :
  plain s = true -> all_chars (fun c => negb (c =? bar)%char) s = true.
Proof.
  apply all_chars_impl. intros c H. unfold plain_char in H.
  now apply andb_true_iff in H.
Qed.

Lemma plain_no_nl (s : string) :
  plain s = true -> all_chars (fun c => negb (c =? nl)%char) s = true.
Proof.
  apply all_chars_impl. intros c H. unfold plain_char in H.
  now apply andb_true_iff in H.
Qed.

(** The fields of a record are read back from its line when none holds a
    delimiter and the last one is not empty. *)
Lemma segments_join (fields : list string) :
  forallb plain fields = true ->
  nonempty (last fields EmptyString) = true ->
  segments bar (join fields) = fields.
Proof.
  induction fields as [| f rest IH]; intros Hp Hl; [discriminate |].
  simpl in Hp. apply andb_true_iff in Hp. destruct Hp as [Hf Hrest].
  destruct rest as [| g rest'].
  - simpl. apply segments_single; [now apply plain_no_bar | exact Hl].
  - change (join (f :: g :: rest')) with (f ++ String bar (join (g :: rest')))%string.
    rewrite segments_app_delim by now apply plain_no_bar.
    f_equal. apply IH; [exact Hrest | exact Hl].
Qed.

Lemma join_no_nl (fields : list string) :
  forallb plain fields = true ->
  all_chars (fun c => negb (c =? nl)%char) (join fields) = true.
Proof.
  induction fields as [| f rest IH]; intros Hp; [reflexivity |].
  simpl in Hp. apply andb_true_iff in Hp. destruct Hp as [Hf Hrest].
  destruct rest as [| g rest'].
  - simpl. now apply plain_no_nl.
  - change (join (f :: g :: rest')) with (f ++ String bar (join (g :: rest')))%string.
    rewrite all_chars_app. cbn [all_chars].
    rewrite (plain_no_nl f Hf), (IH Hrest). reflexivity.
Qed.

(** The lines of a text of records are the records. *)
Lemma segments_rows {A : Type} (fields : A -> list string) (l : list A) :
  (forall x, In x l -> forallb plain (fields x) = true) ->
  segments nl (write_all (fun x => row (fields x)) l)
  = map (fun x => join (fields x)) l.
Proof.
  induction l as [| x l IH]; intros H; [reflexivity |].
  cbn [write_all map]. unfold row at 1. rewrite append_assoc. cbn [append].
  rewrite segments_app_delim by (apply join_no_nl, H; now left).
  f_equal. apply IH. intros y Hy. apply H. now right.
Qed.

(** ** Records written and read back *)

Lemma show_int_plain (z : Z) : plain (show_int z) = true.
Proof. apply numeric_is_plain, show_int_numeric. Qed.

Lemma show_double_plain (q : Q) : plain (show_double q) = true.
Proof. apply numeric_is_plain, show_double_numeric. Qed.

(** What [stod] makes of some fields: a number with text behind it, a
    hexadecimal literal, numbers beyond the two ends of the range of
    [double], text, and the names of an infinity and of a NaN. *)
Example stod_examples :
  stod " -12.5e1 each" = Done (-125 # 1)
  /\ stod "0x10" = Done (16 # 1)
  /\ stod "3e-310" = Thrown
  /\ stod "1e999" = Thrown
  /\ stod "ten" = Thrown
  /\ stod "-inf" = NonFinite
  /\ stod "NaN" = NonFinite.
Proof. vm_compute. repeat split; reflexivity. Qed.

Lemma printable_stod (q : Q) :
  printable q = true -> stod (show_double q) = Done q.
Proof.
  unfold printable, same_double.
  destruct (stod (show_double q)) as [q' | | | |]; try discriminate.
  intros H. apply andb_true_iff in H. destruct H as [Hn Hd].
  apply Z.eqb_eq in Hn. apply Pos.eqb_eq in Hd.
  destruct q, q'; simpl in *; now subst.
Qed.

Lemma id_ok_spec (z : Z) :
  id_ok z = true -> in_int z = true /\ in_int (z + 1) = true.
Proof.
  unfold id_ok, in_int, INT_MIN, INT_MAX. intros H.
  apply andb_true_iff in H. destruct H as [H1 H2].
  apply andb_true_iff in H1. destruct H1 as [Hlo Hhi].
  apply Z.leb_le in Hlo, Hhi. apply Z.ltb_lt in H2.
  split; apply andb_true_iff; split; apply Z.leb_le; lia.
Qed.

Lemma bump_Done (id counter : Z) :
  id_ok id = true -> exists counter', bump id counter = Done counter'.
Proof.
  intros H. unfold bump, int_result.
  destruct (counter <=? id); [| eauto].
  rewrite (proj2 (id_ok_spec id H)). eauto.
Qed.

Ltac split_andb H :=
  repeat match type of H with
         | (_ && _ = true) =>
             let H' := fresh "Hok" in
             apply andb_true_iff in H; destruct H as [H H']
         end.

Lemma load_seller_row (s : Seller.t) (ss : list Seller.t) (counter : Z) :
  seller_ok s = true ->
  exists counter',
    load_seller (join (seller_fields s)) (ss, counter) = Done (ss ++ [s], counter').
Proof.
  intros H. unfold seller_ok in H. split_andb H.
  unfold load_seller.
  rewrite segments_join.
  - cbn [seller_fields List.length Nat.leb field nth].
    rewrite (stoi_show_int _ (proj1 (id_ok_spec _ H))). cbn [bind].
    destruct (bump_Done (Seller.id s) counter H) as [c' ->]. cbn [bind].
    exists c'. now destruct s.
  - cbn [seller_fields forallb]. now rewrite show_int_plain, Hok1, Hok0.
  - exact Hok.
Qed.

Lemma load_customer_row (c : Customer.t) (cs : list Customer.t) (counter : Z) :
  customer_ok c = true ->
  exists counter',
    load_customer (join (customer_fields c)) (cs, counter)
    = Done (cs ++ [without_cart c], counter').
Proof.
  intros H. unfold customer_ok in H. split_andb H.
  unfold load_customer.
  rewrite segments_join.
  - cbn [customer_fields List.length Nat.leb field nth].
    rewrite (stoi_show_int _ (proj1 (id_ok_spec _ H))). cbn [bind].
    destruct (bump_Done (Customer.id c) counter H) as [c' ->]. cbn [bind].
    exists c'. reflexivity.
  - cbn [customer_fields forallb].
    now rewrite show_int_plain, Hok4, Hok3, Hok2, Hok1.
  - exact Hok0.
Qed.

Lemma load_product_row (p : Product.t) (ps : list Product.t) (counter : Z) :
  product_ok p = true ->
  exists counter',
    load_product (join (product_fields p)) (ps, counter) = Done (ps ++ [p], counter').
Proof.
  intros H. unfold product_ok in H. split_andb H.
  unfold load_product.
  rewrite segments_join.
  - cbn [product_fields List.length Nat.leb field nth].
    rewrite (stoi_show_int _ (proj1 (id_ok_spec _ H))). cbn [bind].
    rewrite (printable_stod _ Hok0). cbn [bind].
    rewrite (stoi_show_int _ Hok3). cbn [bind].
    rewrite (stoi_show_int _ Hok2). cbn [bind].
    rewrite (printable_stod _ Hok). cbn [bind].
    rewrite (stoi_show_int _ Hok1). cbn [bind].
    destruct (bump_Done (Product.id p) counter H) as [c' ->]. cbn [bind].
    exists c'. now destruct p.
  - cbn [product_fields forallb].
    now rewrite !show_int_plain, !show_double_plain, Hok5, Hok4.
  - cbn [product_fields last]. apply show_int_numeric.
Qed.

(** A file of records that are each appended by their line is appended
    as a whole. *)
Lemma load_lines_rows {A B : Type}
    (step : string -> list B * Z -> Outcome (list B * Z))
    (body : A -> string) (f : A -> B) (l : list A) :
  (forall x acc counter, In x l ->
     exists counter', step (body x) (acc, counter) = Done (acc ++ [f x], counter')) ->
  forall acc counter,
    exists counter',
      load_lines step (map body l) (acc, counter) = Done (acc ++ map f l, counter').
Proof.
  induction l as [| x l IH]; intros Hstep acc counter; simpl.
  - exists counter. now rewrite app_nil_r.
  - destruct (Hstep x acc counter (or_introl eq_refl)) as [c1 ->]. cbn [bind].
    destruct (IH (fun y a c Hy => Hstep y a c (or_intror Hy)) (acc ++ [f x]) c1)
      as [c2 ->].
    exists c2. now rewrite <- app_assoc.
Qed.

(** *** The carts *)

Lemma pushToCustomer_without_cart (cid : Z) (item : CartItem.t)
    (cs cs' : list Customer.t) :
  pushToCustomer cid item cs = Some cs' ->
  map without_cart cs' = map without_cart cs.
Proof.
  revert cs'; induction cs as [| c rest IH]; intros cs' H; simpl in H;
    [discriminate |].
  destruct (Customer.id c =? cid).
  - inversion H; subst. reflexivity.
  - destruct (pushToCustomer cid item rest) as [rest' |]; [| discriminate].
    inversion H; subst. simpl. f_equal. now apply IH.
Qed.

Lemma load_cart_row (ps : list Product.t) (cid : Z) (item : CartItem.t)
    (cs : list Customer.t) :
  in_int cid = true -> item_ok item = true ->
  exists cs',
    load_cart ps (join (cart_fields cid item)) cs = Done cs'
    /\ map without_cart cs' = map without_cart cs.
Proof.
  intros Hcid H. unfold item_ok in H. split_andb H.
  unfold load_cart. rewrite segments_join.
  - cbn [cart_fields List.length Nat.leb field nth].
    rewrite (stoi_show_int _ Hcid), (stoi_show_int _ H), (stoi_show_int _ Hok).
    cbn [bind].
    destruct (findProduct _ ps) as [targetProd |]; [| eauto].
    destruct (pushToCustomer cid _ cs) as [cs' |] eqn:E; [| eauto].
    exists cs'. split; [reflexivity |].
    eapply pushToCustomer_without_cart; eassumption.
  - cbn [cart_fields forallb]. now rewrite !show_int_plain.
  - cbn [cart_fields last]. apply show_int_numeric.
Qed.

Lemma segments_cart_lines (cid : Z) (stack : list CartItem.t) (rest : string) :
  segments nl (cart_lines cid stack ++ rest)
  = map (fun item => join (cart_fields cid item)) stack ++ segments nl rest.
Proof.
  induction stack as [| item stack IH]; [reflexivity |].
  cbn [cart_lines map]. unfold cart_line, row.
  rewrite !append_assoc. cbn [append].
  rewrite segments_app_delim.
  - simpl. f_equal. exact IH.
  - apply join_no_nl. cbn [cart_fields forallb]. now rewrite !show_int_plain.
Qed.

Lemma load_cart_lines (ps : list Product.t) (cid : Z) (stack : list CartItem.t)
    (more : list string) (cs : list Customer.t) :
  in_int cid = true -> forallb item_ok stack = true ->
  exists cs',
    load_lines (load_cart ps)
      (map (fun item => join (cart_fields cid item)) stack ++ more) cs
    = load_lines (load_cart ps) more cs'
    /\ map without_cart cs' = map without_cart cs.
Proof.
  intros Hcid. revert cs; induction stack as [| item stack IH]; intros cs H.
  - exists cs. split; reflexivity.
  - simpl in H. apply andb_true_iff in H. destruct H as [Hi Hs].
    destruct (load_cart_row ps cid item cs Hcid Hi) as (cs1 & E1 & W1).
    destruct (IH cs1 Hs) as (cs2 & E2 & W2).
    exists cs2. split; [| congruence].
    cbn [map app load_lines]. rewrite E1. cbn [bind]. exact E2.
Qed.

Lemma load_carts (ps : list Product.t) (customers cs : list Customer.t) :
  forallb customer_ok customers = true ->
  exists cs',
    load_lines (load_cart ps)
      (segments nl
         (write_all (fun c => cart_lines (Customer.id c) (Customer.cartStack c))
            customers)) cs
    = Done cs'
    /\ map without_cart cs' = map without_cart cs.
Proof.
  revert cs; induction customers as [| c rest IH]; intros cs H.
  - exists cs. split; reflexivity.
  - simpl in H. apply andb_true_iff in H. destruct H as [Hc Hrest].
    cbn [write_all]. rewrite segments_cart_lines.
    unfold customer_ok in Hc. split_andb Hc.
    destruct (load_cart_lines ps (Customer.id c) (Customer.cartStack c)
                (segments nl
                   (write_all
                      (fun c => cart_lines (Customer.id c) (Customer.cartStack c))
                      rest)) cs (proj1 (id_ok_spec _ Hc)) Hok)
      as (cs1 & E1 & W1).
    destruct (IH cs1 Hrest) as (cs2 & E2 & W2).
    exists cs2. split; [now rewrite E1 | congruence].
Qed.

(** *** The carts, item by item *)

Lemma load_cart_deliver (ps : list Product.t) (cid : Z) (item : CartItem.t)
    (cs : list Customer.t) :
  in_int cid = true -> item_ok item = true ->
  load_cart ps (join (cart_fields cid item)) cs
  = Done (deliver cid (relink ps item) cs).
Proof.
  intros Hcid H. unfold item_ok in H. split_andb H.
  unfold load_cart. rewrite segments_join.
  - cbn [cart_fields List.length Nat.leb field nth].
    rewrite (stoi_show_int _ Hcid), (stoi_show_int _ H), (stoi_show_int _ Hok).
    cbn [bind]. unfold relink, deliver, push_or_skip.
    destruct (findProduct _ ps) as [targetProd |]; [| reflexivity].
    cbn [fold_left].
    destruct (pushToCustomer cid _ cs); reflexivity.
  - cbn [cart_fields forallb]. now rewrite !show_int_plain.
  - cbn [cart_fields last]. apply show_int_numeric.
Qed.

Lemma load_cart_lines_deliver (ps : list Product.t) (cid : Z)
    (stack : list CartItem.t) (more : list string) (cs : list Customer.t) :
  in_int cid = true -> forallb item_ok stack = true ->
  load_lines (load_cart ps)
    (map (fun item => join (cart_fields cid item)) stack ++ more) cs
  = load_lines (load_cart ps) more (deliver cid (relinked ps stack) cs).
Proof.
  intros Hcid. revert cs; induction stack as [| item stack IH]; intros cs H.
  - reflexivity.
  - simpl in H. apply andb_true_iff in H. destruct H as [Hi Hs].
    cbn [map app load_lines]. rewrite (load_cart_deliver ps cid item cs Hcid Hi).
    cbn [bind]. rewrite (IH _ Hs). unfold relinked, deliver. cbn [flat_map].
    now rewrite fold_left_app.
Qed.

Lemma load_carts_deliver (ps : list Product.t) (from cs : list Customer.t) :
  forallb customer_ok from = true ->
  load_lines (load_cart ps)
    (segments nl
       (write_all (fun c => cart_lines (Customer.id c) (Customer.cartStack c))
          from)) cs
  = Done (deliver_all ps from cs).
Proof.
  revert cs; induction from as [| c rest IH]; intros cs H.
  - reflexivity.
  - simpl in H. apply andb_true_iff in H. destruct H as [Hc Hrest].
    cbn [write_all]. rewrite segments_cart_lines.
    unfold customer_ok in Hc. split_andb Hc.
    rewrite (load_cart_lines_deliver ps _ _ _ cs (proj1 (id_ok_spec _ Hc)) Hok).
    now rewrite (IH _ Hrest).
Qed.

Lemma distinct_NoDup (l : list Z) : distinct l = true -> NoDup l.
Proof.
  induction l as [| x rest IH]; simpl; intros H; constructor.
  - apply andb_true_iff in H. destruct H as [H _].
    intros Hin. apply negb_true_iff in H.
    assert (existsb (Z.eqb x) rest = true); [| congruence].
    apply existsb_exists. exists x. split; [exact Hin | apply Z.eqb_refl].
  - apply IH. apply andb_true_iff in H. tauto.
Qed.

Lemma set_cartStack_same (c : Customer.t) :
  Customer.set_cartStack c (Customer.cartStack c) = c.
Proof. now destruct c. Qed.

Lemma push_items_other (cid : Z) (items : list CartItem.t) (cs : list Customer.t) :
  ~ In cid (map Customer.id cs) -> map (push_items cid items) cs = cs.
Proof.
  induction cs as [| c rest IH]; simpl; intros H; [reflexivity |].
  unfold push_items at 1. destruct (Customer.id c =? cid) eqn:E.
  - apply Z.eqb_eq in E. tauto.
  - f_equal. apply IH. tauto.
Qed.

Lemma pushToCustomer_None (cid : Z) (item : CartItem.t) (cs : list Customer.t) :
  pushToCustomer cid item cs = None -> ~ In cid (map Customer.id cs).
Proof.
  induction cs as [| c rest IH]; simpl; [tauto |].
  destruct (Customer.id c =? cid) eqn:E; [discriminate |].
  destruct (pushToCustomer cid item rest); [discriminate |].
  intros _ [H | H]; [apply Z.eqb_neq in E; congruence | now apply IH].
Qed.

(** With distinct ids a push onto the first customer with an id is a
    push onto every customer with that id. *)
Lemma push_or_skip_map (cid : Z) (item : CartItem.t) (cs : list Customer.t) :
  NoDup (map Customer.id cs) ->
  push_or_skip cid item cs = map (push_items cid [item]) cs.
Proof.
  unfold push_or_skip. induction cs as [| c rest IH]; intros Hd; [reflexivity |].
  simpl in Hd. inversion Hd as [| x l Hnotin Hrest]; subst.
  cbn [pushToCustomer map]. unfold push_items at 1.
  destruct (Customer.id c =? cid) eqn:E.
  - apply Z.eqb_eq in E. subst cid.
    now rewrite (push_items_other _ _ rest Hnotin).
  - specialize (IH Hrest).
    destruct (pushToCustomer cid item rest) as [rest' |]; f_equal; exact IH.
Qed.

Lemma push_items_ids (cid : Z) (items : list CartItem.t) (cs : list Customer.t) :
  map Customer.id (map (push_items cid items) cs) = map Customer.id cs.
Proof.
  induction cs as [| c rest IH]; simpl; [reflexivity |]. f_equal; [| exact IH].
  unfold push_items. now destruct (Customer.id c =? cid).
Qed.

Lemma deliver_map (cid : Z) (items : list CartItem.t) (cs : list Customer.t) :
  NoDup (map Customer.id cs) ->
  deliver cid items cs = map (push_items cid (rev items)) cs.
Proof.
  unfold deliver. revert cs; induction items as [| item items IH]; intros cs Hd.
  - simpl. symmetry. rewrite <- (map_id cs) at 2. apply map_ext.
    intros c. unfold push_items.
    destruct (Customer.id c =? cid); [apply set_cartStack_same | reflexivity].
  - cbn [fold_left]. rewrite (push_or_skip_map cid item cs Hd), IH
      by (now rewrite push_items_ids).
    rewrite map_map. apply map_ext. intros c. unfold push_items.
    destruct (Customer.id c =? cid) eqn:E.
    + cbn [Customer.id Customer.set_cartStack Customer.cartStack].
      rewrite E. cbn [rev Customer.set_cartStack Customer.cartStack
        Customer.id Customer.name Customer.address Customer.phone Customer.email].
      now rewrite <- app_assoc.
    + now rewrite E.
Qed.

(** With distinct ids every customer gets back the relinked items of the
    own cart, the item written first pushed first. *)
Lemma deliver_all_reloaded (ps : list Product.t) (post pre : list Customer.t) :
  NoDup (map Customer.id (pre ++ post)) ->
  deliver_all ps post (map (reloaded ps) pre ++ map without_cart post)
  = map (reloaded ps) (pre ++ post).
Proof.
  unfold deliver_all.
  revert pre; induction post as [| c post IH]; intros pre Hd.
  - simpl. now rewrite !app_nil_r.
  - cbn [fold_left]. rewrite deliver_map.
    + replace (pre ++ c :: post) with ((pre ++ [c]) ++ post) in *
        by (now rewrite <- app_assoc).
      rewrite <- (IH (pre ++ [c]) Hd). f_equal.
      replace (pre ++ [c]) with (pre ++ c :: []) in Hd by reflexivity.
      rewrite <- app_assoc in Hd. cbn [app] in Hd.
      rewrite map_app in Hd. cbn [map] in Hd.
      pose proof (NoDup_remove_2 _ _ _ Hd) as Hout.
      rewrite in_app_iff in Hout.
      rewrite !map_app. cbn [map]. rewrite <- app_assoc. cbn [app].
      rewrite push_items_other.
      * f_equal. unfold push_items at 1.
        cbn [without_cart Customer.id Customer.set_cartStack Customer.cartStack].
        rewrite Z.eqb_refl, app_nil_r. f_equal.
        rewrite push_items_other; [reflexivity |].
        rewrite map_map. cbn [without_cart Customer.id Customer.set_cartStack].
        tauto.
      * rewrite map_map. cbn [reloaded Customer.id Customer.set_cartStack].
        tauto.
    + rewrite map_app, !map_map.
      cbn [reloaded without_cart Customer.id Customer.set_cartStack].
      now rewrite <- map_app.
Qed.

(** ** Saving and loading *)

Lemma reloaded_Permutation (ps : list Product.t) (cs : list Customer.t) :
  Forall2
    (fun c c' =>
       Permutation (Customer.cartStack c') (relinked ps (Customer.cartStack c)))
    cs (map (reloaded ps) cs).
Proof.
  induction cs as [| c rest IH]; constructor; [| exact IH].
  cbn [reloaded Customer.cartStack Customer.set_cartStack].
  symmetry. apply Permutation_rev.
Qed.

(** What a storable store is after it was saved and loaded into a new
    object. *)
Lemma save_load_exact (m : Marketplace.t) :
  storable m = true ->
  exists m',
    loadData initial (saveData m) = Done m'
    /\ sellers m' = sellers m
    /\ products m' = products m
    /\ map without_cart (customers m') = map without_cart (customers m)
    /\ customers m'
       = deliver_all (products m) (customers m)
           (map without_cart (customers m)).
Proof.
  intros H. unfold storable in H. split_andb H.
  rewrite forallb_forall in H, Hok.
  unfold loadData, saveData; cbn [sellers_txt customers_txt products_txt
    carts_txt lines_of sellers customers products sellerCounter
    customerCounter productCounter initial].
  change seller_line with (fun s => row (seller_fields s)).
  change customer_line with (fun c => row (customer_fields c)).
  change product_line with (fun p => row (product_fields p)).
  rewrite (segments_rows seller_fields), (segments_rows customer_fields),
    (segments_rows product_fields).
  - destruct (load_lines_rows load_seller (fun s => join (seller_fields s))
                (fun s => s) (sellers m)
                (fun s acc counter Hs => load_seller_row s acc counter (H s Hs))
                [] 1) as [sc ->].
    cbn [bind].
    pose proof Hok0 as Hcs. rewrite forallb_forall in Hcs.
    destruct (load_lines_rows load_customer (fun c => join (customer_fields c))
                without_cart (customers m)
                (fun c acc counter Hc => load_customer_row c acc counter (Hcs c Hc))
                [] 1) as [cc ->].
    cbn [bind].
    destruct (load_lines_rows load_product (fun p => join (product_fields p))
                (fun p => p) (products m)
                (fun p acc counter Hp => load_product_row p acc counter (Hok p Hp))
                [] 1) as [pc ->].
    cbn [bind app]. rewrite !map_id.
    pose proof (load_carts_deliver (products m) (customers m)
                  (map without_cart (customers m)) Hok0) as Hexact.
    destruct (load_carts (products m) (customers m)
                (map without_cart (customers m)) Hok0) as (cs' & E & W).
    assert (Hcs' : cs' = deliver_all (products m) (customers m)
                           (map without_cart (customers m))) by congruence.
    clear Hexact. rewrite E.
    cbn [bind]. eexists. split; [reflexivity |]. cbn [sellers products customers].
    repeat split.
    + rewrite W, map_map. apply map_ext. reflexivity.
    + exact Hcs'.
  - intros p Hp. specialize (Hok p Hp). unfold product_ok in Hok. split_andb Hok.
    cbn [product_fields forallb]. rewrite !show_int_plain, !show_double_plain.
    repeat (apply andb_true_iff; split); solve [reflexivity | assumption].
  - intros c Hc. rewrite forallb_forall in Hok0. specialize (Hok0 c Hc).
    unfold customer_ok in Hok0. split_andb Hok0.
    cbn [customer_fields forallb]. rewrite show_int_plain.
    repeat (apply andb_true_iff; split); solve [reflexivity | assumption].
  - intros s Hs. specialize (H s Hs). unfold seller_ok in H. split_andb H.
    cbn [seller_fields forallb]. rewrite show_int_plain.
    repeat (apply andb_true_iff; split); solve [reflexivity | assumption].
Qed.


(** X23: with distinct customer ids every cart of a storable store
    comes back from the files upside down, each item with the live
    product of its id, and an item whose product id is not live not at
    all. *)
Lemma save_load_reverses_carts (m : Marketplace.t) :
  storable m = true ->
  distinct (map Customer.id (customers m)) = true ->
  exists m',
    loadData initial (saveData m) = Done m'
    /\ customers m' = map (reloaded (products m)) (customers m).
Proof.
  intros H Hd. destruct (save_load_exact m H) as (m' & E & _ & _ & _ & Hc).
  exists m'. split; [exact E |]. rewrite Hc.
  exact (deliver_all_reloaded (products m) (customers m) []
           (distinct_NoDup _ Hd)).
Qed.

(** C2, as the code has it: a storable store that is saved and loaded
    into a new object comes back with the same sellers, the same products
    and the same customers field for field; and when the ids of the
    customers are distinct, the cart of each customer comes back with the
    entries it had, in some order, each with its quantity and with the
    live product of its id. *)
Theorem save_load_restores (m : Marketplace.t) :
  storable m = true ->
  exists m',
    loadData initial (saveData m) = Done m'
    /\ sellers m' = sellers m
    /\ products m' = products m
    /\ map without_cart (customers m') = map without_cart (customers m)
    /\ (distinct (map Customer.id (customers m)) = true ->
        Forall2
          (fun c c' =>
             Permutation (Customer.cartStack c')
               (relinked (products m) (Customer.cartStack c)))
          (customers m) (customers m')).
Proof.
  intros H. destruct (save_load_exact m H) as (m' & E & Hs & Hp & Hw & Hc).
  exists m'. repeat split; try assumption.
  intros Hd. rewrite Hc.
  pose proof (deliver_all_reloaded (products m) (customers m) []
                (distinct_NoDup _ Hd)) as R.
  cbn [map app] in R. rewrite R. apply reloaded_Permutation.
Qed.

Lemma save_load_restores_witness :
  exists m',
    loadData initial (saveData Example.staged) = Done m'
    /\ sellers m' = [Example.sam]
    /\ products m' = [Example.widget; Example.gadget]
    /\ map without_cart (customers m') = [Example.al]
    /\ Forall2
         (fun c c' =>
            Permutation (Customer.cartStack c')
              (relinked [Example.widget; Example.gadget] (Customer.cartStack c)))
         (customers Example.staged) (customers m').
Proof.
  destruct (save_load_restores Example.staged eq_refl)
    as (m' & E & Hs & Hp & Hc & Hl).
  exists m'. repeat split; try assumption. exact (Hl eq_refl).
Defined.

(** C2 as stated fails: after Bo's purchase Al's cart holds three widgets
    as they were when Al staged them, five in stock and unrated; saved
    and loaded, it holds them as they are now, four in stock and rated. *)
Lemma save_load_not_identical :
  exists m m',
    Example.after_sale = Done m
    /\ loadData initial (saveData m) = Done m'
    /\ map Customer.cartStack (customers m)
       = [[CartItem.mk Example.widget 3]; []]
    /\ map Customer.cartStack (customers m')
       = [[CartItem.mk (Product.mk 1 "Widget" 10 "tools" 4 1 5 1) 3]; []]
    /\ customers m' <> customers m.
Proof.
  do 2 eexists. split; [vm_compute; reflexivity |].
  split; [vm_compute; reflexivity |].
  split; [reflexivity |]. split; [reflexivity |].
  vm_compute. intros H. inversion H.
Qed.

(** The cart that held the gadgets on top of the widgets comes back with
    the widgets on top of the gadgets. *)
Example save_load_cart_upside_down :
  exists m',
    loadData initial (saveData Example.staged) = Done m'
    /\ map Customer.cartStack (customers Example.staged)
       = [[CartItem.mk Example.gadget 2; CartItem.mk Example.widget 3]]
    /\ map Customer.cartStack (customers m')
       = [[CartItem.mk Example.widget 3; CartItem.mk Example.gadget 2]].
Proof.
  eexists. split; [vm_compute; reflexivity |]. split; reflexivity.
Qed.

(** The other ways in which a store does not come back. *)

(** A bar in a name moves the fields. *)
Example save_load_bar_in_name :
  loadData initial
    (saveData (Marketplace.mk [Seller.mk 1 "A|B" "ab@shop"] [] [] 1 2 1 (-1) (-1)))
  = Done (Marketplace.mk [Seller.mk 1 "A" "B"] [] [] 1 2 1 (-1) (-1)).
Proof. vm_compute. reflexivity. Qed.

(** A price of 1234.5675 is written with six digits. *)
Example save_load_long_price :
  loadData initial
    (saveData (Marketplace.mk [] []
                 [Product.fresh 1 "Ring" (493827 # 400) "gems" 1 1]
                 2 1 1 (-1) (-1)))
  = Done (Marketplace.mk [] []
            [Product.fresh 1 "Ring" (123457 # 100) "gems" 1 1] 2 1 1 (-1) (-1)).
Proof. vm_compute. reflexivity. Qed.

(** A price of 3e-310 is written as it is, and the file cannot be read
    again: the number is below the normal [double]s and [std::stod]
    throws.  Such a store is not [storable]. *)
Example save_load_tiny_price :
  let m := Marketplace.mk [] []
             [Product.fresh 1 "Dust" (3 # Z.to_pos (10 ^ 310)) "gems" 1 1]
             2 1 1 (-1) (-1) in
  products_txt (saveData m)
  = Some "1|Dust|3e-310|gems|1|1|0|0
"%string
  /\ loadData initial (saveData m) = Thrown
  /\ storable m = false.
Proof. vm_compute. repeat split; reflexivity. Qed.

(** ** Checkouts that return *)

Lemma readRating_returns (cin : Cin) :
  (0 < ratings_ahead cin)%nat ->
  exists r outs cin',
    readRating cin = Done (r, outs, cin')
    /\ ratings_ahead cin = S (ratings_ahead cin').
Proof.
  induction cin as [| line rest IH]; simpl; intros H; [lia |].
  destruct line as [| [z |] line]; simpl in *.
  - exact (IH H).
  - destruct ((1 <=? z) && (z <=? 5)).
    + do 3 eexists. split; [reflexivity | simpl; lia].
    + destruct (IH H) as (r & outs & cin' & -> & Hn). simpl. eauto.
  - destruct (IH H) as (r & outs & cin' & -> & Hn). simpl. eauto.
Qed.

Lemma roomy_less (n : nat) (p : Product.t) : roomy (S n) p -> roomy n p.
Proof. unfold roomy. intros (H1 & H2 & H3). repeat split; [assumption | lia ..]. Qed.

Lemma in_int_spec (z : Z) : in_int z = true <-> INT_MIN <= z <= INT_MAX.
Proof.
  unfold in_int. rewrite andb_true_iff, !Z.leb_le. tauto.
Qed.

Lemma settle_returns (item : CartItem.t) (ps : list Product.t) (total : Q)
    (cin : Cin) (n : nat) :
  0 <= CartItem.buyQty item ->
  Forall (roomy (S n)) ps ->
  (0 < ratings_ahead cin)%nat ->
  exists ps' total' outs cin',
    settle item ps total cin = Done (ps', total', outs, cin')
    /\ Forall (roomy n) ps'
    /\ (ratings_ahead cin <= S (ratings_ahead cin'))%nat.
Proof.
  intros Hb Hps Hcin. revert Hps.
  induction ps as [| p rest IH]; intros Hps; simpl.
  - do 4 eexists. split; [reflexivity |]. split; [constructor | lia].
  - inversion Hps as [| p0 rest0 Hp Hrest]; subst.
    assert (Hless : Forall (roomy n) rest).
    { eapply Forall_impl; [| exact Hrest]. apply roomy_less. }
    destruct (Product.id p =? Product.id (CartItem.product item)).
    + destruct (CartItem.buyQty item <=? Product.quantity p) eqn:El.
      * apply Z.leb_le in El. destruct Hp as (Hq & Hlo & Hhi).
        apply in_int_spec in Hq.
        unfold int_result.
        replace (in_int (Product.quantity p - CartItem.buyQty item)) with true
          by (symmetry; apply in_int_spec; unfold INT_MIN, INT_MAX in *; lia).
        cbn [bind].
        destruct (readRating_returns cin Hcin) as (r & outs & cin' & -> & Hn).
        cbn [bind]. unfold Product.addRating, int_result.
        cbn [Product.ratingCount Product.set_quantity].
        replace (in_int (Product.ratingCount p + 1)) with true
          by (symmetry; apply in_int_spec; lia).
        cbn [bind]. do 4 eexists. split; [reflexivity |].
        split; [| lia]. constructor; [| exact Hless].
        unfold roomy; simpl. repeat split; try lia.
        apply in_int_spec. unfold INT_MIN, INT_MAX in *. lia.
      * do 4 eexists. split; [reflexivity |].
        split; [| lia]. constructor; [now apply roomy_less | exact Hless].
    + destruct (IH Hrest) as (ps' & t' & o' & c' & -> & Hr & Hn).
      cbn [bind]. do 4 eexists. split; [reflexivity |].
      split; [| exact Hn]. constructor; [now apply roomy_less | exact Hr].
Qed.

Lemma processQueue_returns (queue : list CartItem.t) :
  forall (ps : list Product.t) (total : Q) (cin : Cin),
    Forall (fun item => 0 <= CartItem.buyQty item) queue ->
    Forall (roomy (List.length queue)) ps ->
    (List.length queue <= ratings_ahead cin)%nat ->
    exists ps' total' outs cin',
      processQueue queue ps total cin = Done (ps', total', outs, cin').
Proof.
  induction queue as [| item rest IH]; intros ps total cin Hq Hps Hcin; simpl.
  - do 4 eexists. reflexivity.
  - inversion Hq as [| i r Hi Hr]; subst. simpl in Hps, Hcin.
    destruct (settle_returns item ps total cin (List.length rest) Hi Hps
                ltac:(lia)) as (ps1 & t1 & o1 & c1 & -> & Hps1 & Hn).
    cbn [bind].
    destruct (IH ps1 t1 c1 Hr Hps1 ltac:(lia)) as (ps2 & t2 & o2 & c2 & ->).
    cbn [bind]. do 4 eexists. reflexivity.
Qed.

(** X7: a checkout returns when no staged quantity is negative, the stock
    and the rating counters have room, and the input holds a rating for
    every staged item. *)
Lemma processCheckout_returns (m : Marketplace.t) (fs : Files) (cin : Cin)
    (c : Customer.t) :
  currentCustomer m = Done c ->
  Forall (fun item => 0 <= CartItem.buyQty item) (Customer.cartStack c) ->
  Forall (roomy (List.length (Customer.cartStack c))) (products m) ->
  (List.length (Customer.cartStack c) <= ratings_ahead cin)%nat ->
  exists m' fs' out, processCheckout m fs cin = Done (m', fs', out).
Proof.
  intros Hc Hq Hps Hcin. unfold processCheckout. rewrite Hc. cbn [bind].
  destruct (Customer.cartStack c) as [| it rest] eqn:Ecart.
  - do 3 eexists. reflexivity.
  - rewrite transfer_spec. cbn [app].
    destruct (processQueue_returns (it :: rest) (products m) 0%Q cin Hq Hps Hcin)
      as (ps' & t' & o' & c' & E).
    cbn [products set_currentCart set_customers]. rewrite E. cbn [bind].
    do 3 eexists. reflexivity.
Qed.

(** ** The cart as a stack *)

(** An undo takes away what the last addition put on the cart. *)
Lemma undoLast_addToCart (m m1 : Marketplace.t) (fs fs1 : Files) (pid qty : Z)
    (c : Customer.t) (p : Product.t) (out : list Out) :
  currentCustomer m = Done c ->
  findProduct pid (products m) = Some p ->
  qty <= Product.quantity p ->
  addToCart m fs pid qty = Done (m1, fs1, out) ->
  exists m2 fs2 c2,
    undoLast m1 fs1 = Done (m2, fs2, [OutRemoved (Product.name p)])
    /\ currentCustomer m2 = Done c2
    /\ Customer.cartStack c2 = Customer.cartStack c.
Proof.
  intros Hc Hf Hq H. unfold addToCart in H. rewrite Hc, Hf in H. cbn [bind] in H.
  destruct (Product.quantity p <? qty) eqn:El; [lia |].
  inversion H; subst. clear H.
  pose proof (currentCustomer_set_currentCart m c
                (CartItem.mk p qty :: Customer.cartStack c) Hc) as Hc1.
  unfold undoLast. rewrite Hc1. cbn [bind Customer.cartStack Customer.set_cartStack].
  do 3 eexists. split; [reflexivity |]. split.
  - apply currentCustomer_set_currentCart. exact Hc1.
  - reflexivity.
Qed.

(** The scenario of the specification: three widgets at 10 are staged,
    taken back and staged again; the checkout charges 30 and leaves two
    of the five widgets. *)
Example widget_scenario :
  ('(m1, f1, _) <- addToCart Example.store Example.no_files 1 3 ;;
   '(m2, f2, _) <- undoLast m1 f1 ;;
   '(m3, f3, _) <- addToCart m2 f2 1 3 ;;
   '(m4, _, out) <- processCheckout m3 f3 [[Num 5]] ;;
   Done (out, map Product.quantity (products m4)))
  = Done ([OutReceiptHeader; OutLine "Widget" 3 30; OutRatePrompt "Widget";
           OutTotal 30], [2; 4]).
Proof. vm_compute. reflexivity. Qed.

(** A ranking: the gadget rated 5 comes before the widget with its
    average of 4.25, and the product without rating comes last. *)
Example ranking_example :
  map Product.name
    (showTopRatedProducts
       (Marketplace.mk [] []
          [Product.mk 1 "Widget" 10 "tools" 5 1 (17 # 2) 2;
           Product.fresh 3 "Gizmo" 7 "toys" 1 1;
           Product.mk 2 "Gadget" 3 "toys" 4 1 5 1]
          4 1 1 (-1) (-1)))
  = ["Gadget"; "Widget"; "Gizmo"]%string.
Proof. vm_compute. reflexivity. Qed.

(** ** Further properties: the cart *)

Lemma update_at_twice {A : Type} (l : list A) (i : nat) (x y : A) :
  update_at (update_at l i x) i y = update_at l i y.
Proof.
  revert i; induction l as [| a l IH]; intros [| i]; simpl; try reflexivity.
  now rewrite IH.
Qed.

Lemma update_at_same {A : Type} (l : list A) (i : nat) (x : A) :
  nth_error l i = Some x -> update_at l i x = l.
Proof.
  revert i; induction l as [| a l IH]; intros [| i]; simpl; try discriminate.
  - intros H; inversion H; reflexivity.
  - intros H. now rewrite (IH i H).
Qed.

Lemma currentCustomer_nth (m : Marketplace.t) (c : Customer.t) :
  currentCustomer m = Done c ->
  0 <= currentCustomerIdx m
  /\ nth_error (customers m) (Z.to_nat (currentCustomerIdx m)) = Some c.
Proof.
  unfold currentCustomer. destruct (currentCustomerIdx m <? 0) eqn:E;
    [discriminate |].
  apply Z.ltb_ge in E.
  destruct (nth_error (customers m) (Z.to_nat (currentCustomerIdx m)));
    [| discriminate].
  intros H; inversion H; subst. split; [exact E | reflexivity].
Qed.

Lemma set_currentCart_twice (m : Marketplace.t) (c : Customer.t)
    (s1 s2 : list CartItem.t) :
  set_currentCart (set_currentCart m c s1) (Customer.set_cartStack c s1) s2
  = set_currentCart m c s2.
Proof.
  unfold set_currentCart, set_customers. simpl. now rewrite update_at_twice.
Qed.

Lemma set_currentCart_same (m : Marketplace.t) (c : Customer.t) :
  currentCustomer m = Done c ->
  set_currentCart m c (Customer.cartStack c) = m.
Proof.
  intros H. destruct (currentCustomer_nth m c H) as [_ Hn].
  unfold set_currentCart, set_customers. rewrite set_cartStack_same.
  rewrite (update_at_same _ _ _ Hn). now destruct m.
Qed.

(** What [n] undos in a row do: they take the [n] topmost items off the
    cart, the top first, and complain for each undo that finds the cart
    empty. *)
Lemma undos_spec (n : nat) :
  forall (m : Marketplace.t) (fs : Files) (c : Customer.t),
    currentCustomer m = Done c ->
    exists fs',
      undos n m fs
      = Done (set_currentCart m c (skipn n (Customer.cartStack c)), fs',
              map (fun item => OutRemoved (itemName item))
                  (firstn n (Customer.cartStack c))
              ++ repeat OutAlreadyEmpty (n - List.length (Customer.cartStack c))).
Proof.
  induction n as [| k IH]; intros m fs c Hc.
  - exists fs. simpl. now rewrite (set_currentCart_same m c Hc).
  - cbn [undos]. unfold undoLast. rewrite Hc. cbn [bind].
    destruct (Customer.cartStack c) as [| top rest] eqn:Ecart.
    + cbn [bind]. destruct (IH m fs c Hc) as [fs' E]. rewrite E, Ecart.
      cbn [bind]. exists fs'. rewrite skipn_nil, firstn_nil. simpl.
      now rewrite Nat.sub_0_r.
    + cbn [bind].
      pose proof (currentCustomer_set_currentCart m c rest Hc) as Hc1.
      destruct (IH (set_currentCart m c rest) (saveData (set_currentCart m c rest))
                  (Customer.set_cartStack c rest) Hc1) as [fs' E].
      rewrite E. cbn [bind Customer.cartStack Customer.set_cartStack].
      rewrite set_currentCart_twice. exists fs'. reflexivity.
Qed.

(** X1: undos take the items off the cart of the customer from its top,
    one for each undo, and name them in that order; an undo that finds
    the cart empty changes nothing and says so. *)
Theorem undos_take_from_the_top (n : nat) (m : Marketplace.t) (fs : Files)
    (c : Customer.t) :
  currentCustomer m = Done c ->
  exists m' fs' c',
    undos n m fs
    = Done (m', fs',
            map (fun item => OutRemoved (itemName item))
                (firstn n (Customer.cartStack c))
            ++ repeat OutAlreadyEmpty (n - List.length (Customer.cartStack c)))
    /\ currentCustomer m' = Done c'
    /\ Customer.cartStack c' = skipn n (Customer.cartStack c)
    /\ products m' = products m.
Proof.
  intros Hc. destruct (undos_spec n m fs c Hc) as [fs' E].
  exists (set_currentCart m c (skipn n (Customer.cartStack c))), fs',
    (Customer.set_cartStack c (skipn n (Customer.cartStack c))).
  split; [exact E |].
  split; [now apply currentCustomer_set_currentCart |].
  split; reflexivity.
Qed.

Lemma undos_take_from_the_top_witness :
  exists m' fs' c',
    undos 3 Example.staged Example.no_files
    = Done (m', fs', [OutRemoved "Gadget"; OutRemoved "Widget"; OutAlreadyEmpty])
    /\ currentCustomer m' = Done c'
    /\ Customer.cartStack c' = []
    /\ products m' = [Example.widget; Example.gadget].
Proof.
  exact (undos_take_from_the_top 3 Example.staged Example.no_files
           (Customer.set_cartStack Example.al
              [CartItem.mk Example.gadget 2; CartItem.mk Example.widget 3])
           eq_refl).
Defined.

Lemma addedNames_app (a b : list Out) :
  addedNames (a ++ b) = addedNames a ++ addedNames b.
Proof.
  induction a as [| o a IH]; simpl; [reflexivity |].
  destruct o; simpl; now rewrite IH.
Qed.

(** After additions the cart holds the items added on top of what it
    held, the last added on top. *)
Lemma adds_spec (reqs : list (Z * Z)) :
  forall (m m1 : Marketplace.t) (fs f1 : Files) (c : Customer.t) (o1 : list Out),
    currentCustomer m = Done c ->
    adds reqs m fs = Done (m1, f1, o1) ->
    exists items,
      m1 = set_currentCart m c (items ++ Customer.cartStack c)
      /\ map itemName items = rev (addedNames o1).
Proof.
  induction reqs as [| [pid qty] rest IH]; intros m m1 fs f1 c o1 Hc H;
    simpl in H.
  - inversion H; subst. exists []. split; [| reflexivity].
    simpl. now rewrite (set_currentCart_same _ c Hc).
  - bind_inv H. destruct a as [[ma fa] oa]. bind_inv H.
    destruct a as [[mb fb] ob]. inversion H; subst. clear H.
    unfold addToCart in E. rewrite Hc in E. cbn [bind] in E.
    destruct (findProduct pid (products m)) as [p |].
    + destruct (Product.quantity p <? qty).
      * inversion E; subst.
        destruct (IH _ _ _ _ _ _ Hc E0) as (items & Hm & Hn).
        exists items. split; [exact Hm |]. simpl. exact Hn.
      * inversion E; subst. clear E.
        pose proof (currentCustomer_set_currentCart m c
                      (CartItem.mk p qty :: Customer.cartStack c) Hc) as Hc1.
        destruct (IH _ _ _ _ _ _ Hc1 E0) as (items & Hm & Hn).
        exists (items ++ [CartItem.mk p qty]). split.
        -- rewrite Hm, set_currentCart_twice.
           cbn [Customer.cartStack Customer.set_cartStack].
           now rewrite <- app_assoc.
        -- rewrite map_app, Hn. reflexivity.
    + inversion E; subst.
      destruct (IH _ _ _ _ _ _ Hc E0) as (items & Hm & Hn).
      exists items. split; [exact Hm |]. simpl. exact Hn.
Qed.

(** X2: as many undos as additions were confirmed give the store back as
    it was before the additions, and name the items removed in the
    reverse of the order in which they were added. *)
Theorem undos_revert_adds (reqs : list (Z * Z)) (m m1 : Marketplace.t)
    (fs f1 : Files) (c : Customer.t) (o1 : list Out) :
  currentCustomer m = Done c ->
  adds reqs m fs = Done (m1, f1, o1) ->
  exists f2,
    undos (List.length (addedNames o1)) m1 f1
    = Done (m, f2, map OutRemoved (rev (addedNames o1))).
Proof.
  intros Hc H. destruct (adds_spec reqs m m1 fs f1 c o1 Hc H) as (items & -> & Hn).
  pose proof (currentCustomer_set_currentCart m c
                (items ++ Customer.cartStack c) Hc) as Hc1.
  assert (Hlen : List.length (addedNames o1) = List.length items).
  { rewrite <- (length_rev (addedNames o1)), <- Hn. apply length_map. }
  destruct (undos_spec (List.length items) _ f1 _ Hc1) as [f2 E].
  exists f2. rewrite Hlen, E.
  cbn [Customer.cartStack Customer.set_cartStack].
  rewrite set_currentCart_twice, skipn_app, skipn_all, Nat.sub_diag.
  cbn [skipn app]. rewrite (set_currentCart_same m c Hc).
  rewrite firstn_app, firstn_all, Nat.sub_diag. cbn [firstn].
  rewrite app_nil_r, length_app.
  replace (List.length items - (List.length items + List.length (Customer.cartStack c)))%nat
    with O by lia.
  cbn [repeat]. rewrite app_nil_r, <- Hn, map_map. reflexivity.
Qed.

Lemma undos_revert_adds_witness :
  exists m1 f1 o1 f2,
    adds [(1, 3); (7, 1); (2, 9); (2, 2)] Example.store Example.no_files
    = Done (m1, f1, o1)
    /\ undos (List.length (addedNames o1)) m1 f1
       = Done (Example.store, f2, map OutRemoved (rev (addedNames o1))).
Proof.
  destruct (adds [(1, 3); (7, 1); (2, 9); (2, 2)] Example.store Example.no_files)
    as [[[m1 f1] o1] | | | |] eqn:E; try (vm_compute in E; discriminate).
  destruct (undos_revert_adds _ Example.store m1 Example.no_files f1
              Example.al o1 eq_refl E) as [f2 H].
  exists m1, f1, o1, f2. split; [reflexivity | exact H].
Defined.

(** ** Further properties: the accounts of a checkout *)

Lemma soldQtys_app (a b : list Out) : soldQtys (a ++ b) = soldQtys a ++ soldQtys b.
Proof.
  induction a as [| o a IH]; simpl; [reflexivity |].
  destruct o; simpl; now rewrite IH.
Qed.

Lemma soldAmounts_app (a b : list Out) :
  soldAmounts (a ++ b) = soldAmounts a ++ soldAmounts b.
Proof.
  induction a as [| o a IH]; simpl; [reflexivity |].
  destruct o; simpl; now rewrite IH.
Qed.

Lemma Zsum_app (a b : list Z) : Zsum (a ++ b) = Zsum a + Zsum b.
Proof. induction a as [| x a IH]; simpl; [reflexivity | rewrite IH; lia]. Qed.

Lemma Qsum_app (a b : list Q) : (Qsum (a ++ b) == Qsum a + Qsum b)%Q.
Proof. induction a as [| x a IH]; simpl; [lra | rewrite IH; lra]. Qed.

(** The rating loop prints its complaint and nothing else. *)
Lemma readRating_outs (cin cin' : Cin) (r : Z) (outs : list Out) :
  readRating cin = Done (r, outs, cin') ->
  soldQtys outs = [] /\ soldAmounts outs = [].
Proof.
  revert r outs cin'.
  induction cin as [| line rest IH]; intros r outs cin' H; simpl in H;
    [discriminate |].
  destruct line as [| [z |] line].
  - eauto.
  - destruct ((1 <=? z) && (z <=? 5)).
    + inversion H; subst. split; reflexivity.
    + bind_inv H. destruct a as [[r0 o0] c0]. inversion H; subst.
      simpl. eauto.
  - bind_inv H. destruct a as [[r0 o0] c0]. inversion H; subst.
    simpl. eauto.
Qed.

(** The books of one queued item: either nothing is sold and nothing
    changes, or one line is sold, and then one product gives the quantity
    and takes one rating from 1 to 5. *)
Lemma settle_account (item : CartItem.t) (ps ps' : list Product.t)
    (total total' : Q) (cin cin' : Cin) (outs : list Out) :
  settle item ps total cin = Done (ps', total', outs, cin') ->
  map listing ps' = map listing ps
  /\ ((soldQtys outs = [] /\ soldAmounts outs = []
       /\ ps' = ps /\ total' = total /\ cin' = cin)
      \/ exists r,
           1 <= r <= 5
           /\ soldQtys outs = [CartItem.buyQty item]
           /\ soldAmounts outs
              = [dmul (Product.price (CartItem.product item))
                      (dint (CartItem.buyQty item))]
           /\ total'
              = dadd total (dmul (Product.price (CartItem.product item))
                                 (dint (CartItem.buyQty item)))
           /\ Zsum (map Product.quantity ps')
              = Zsum (map Product.quantity ps) - CartItem.buyQty item
           /\ Zsum (map Product.ratingCount ps')
              = Zsum (map Product.ratingCount ps) + 1
           /\ (Qsum (map Product.ratingSum ps')
               == Qsum (map Product.ratingSum ps) + inject_Z r)%Q).
Proof.
  revert ps' total' outs cin'.
  induction ps as [| p rest IH]; intros ps' total' outs cin' H; simpl in H.
  - inversion H; subst. split; [reflexivity |]. left. repeat split.
  - destruct (Product.id p =? Product.id (CartItem.product item)).
    + destruct (CartItem.buyQty item <=? Product.quantity p) eqn:El.
      * bind_inv H. bind_inv H. destruct a0 as [[r o] c]. bind_inv H.
        inversion H; subst. clear H.
        apply int_result_Done in E. destruct E as [-> _].
        apply addRating_Done in E1. destruct E1 as [-> _].
        destruct (readRating_Done _ _ _ _ E0) as [Hr _].
        destruct (readRating_outs _ _ _ _ E0) as [Hq Ha].
        split; [reflexivity |]. right. exists r.
        split; [exact Hr |]. simpl. rewrite Hq, Ha.
        repeat split; try lia.
        unfold dadd, dint. rewrite Qred_correct. lra.
      * inversion H; subst. split; [reflexivity |]. left. repeat split.
    + bind_inv H. destruct a as [[[ps0 t0] o0] c0]. inversion H; subst. clear H.
      destruct (IH _ _ _ _ E) as [Hl Hcase]. split; [simpl; now rewrite Hl |].
      destruct Hcase as [(Hq & Ha & -> & -> & ->) | (r & Hr & Hq & Ha & Ht & Hs & Hc & Hsum)].
      * left. repeat split; assumption.
      * right. exists r. repeat split; try assumption; simpl; try lia.
        rewrite Hsum. lra.
Qed.

(** The books of the whole queue. *)
Lemma processQueue_account (queue : list CartItem.t) :
  forall (ps ps' : list Product.t) (total total' : Q) (cin cin' : Cin)
         (outs : list Out),
    processQueue queue ps total cin = Done (ps', total', outs, cin') ->
    map listing ps' = map listing ps
    /\ (total' == total + Qsum (soldAmounts outs))%Q
    /\ Zsum (map Product.quantity ps')
       = Zsum (map Product.quantity ps) - Zsum (soldQtys outs)
    /\ Zsum (map Product.ratingCount ps')
       = Zsum (map Product.ratingCount ps)
         + Z.of_nat (List.length (soldQtys outs))
    /\ (Qsum (map Product.ratingSum ps)
        + inject_Z (Z.of_nat (List.length (soldQtys outs)))
        <= Qsum (map Product.ratingSum ps'))%Q
    /\ (Qsum (map Product.ratingSum ps')
        <= Qsum (map Product.ratingSum ps)
           + 5 * inject_Z (Z.of_nat (List.length (soldQtys outs))))%Q.
Proof.
  induction queue as [| item rest IH]; intros ps ps' total total' cin cin' outs H;
    simpl in H.
  - inversion H; subst. simpl. change (inject_Z 0) with 0%Q.
    repeat split; try lia; lra.
  - bind_inv H. destruct a as [[[ps1 t1] o1] c1]. bind_inv H.
    destruct a as [[[ps2 t2] o2] c2]. inversion H; subst. clear H.
    destruct (settle_account _ _ _ _ _ _ _ _ E) as [Hl1 Hcase].
    destruct (IH _ _ _ _ _ _ _ E0) as (Hl2 & Ht & Hq & Hc & Hlo & Hhi).
    rewrite soldQtys_app, soldAmounts_app, Qsum_app, Zsum_app, length_app.
    split; [congruence |].
    destruct Hcase as [(Hq1 & Ha1 & -> & -> & ->)
                      | (r & Hr & Hq1 & Ha1 & Ht1 & Hs1 & Hc1 & Hsum1)].
    + rewrite Hq1, Ha1. simpl. repeat split; try assumption; try lia.
      rewrite Ht. lra.
    + rewrite Hq1, Ha1. cbn [Qsum Zsum List.length app].
      assert (1 <= inject_Z r)%Q
        by (change 1%Q with (inject_Z 1); rewrite <- Zle_Qle; lia).
      assert (inject_Z r <= 5)%Q
        by (change 5%Q with (inject_Z 5); rewrite <- Zle_Qle; lia).
      rewrite Nat2Z.inj_succ. unfold Z.succ. rewrite inject_Z_plus in *.
      change (inject_Z 1) with 1%Q in *.
      rewrite Hsum1 in Hlo, Hhi.
      repeat split; try lia.
      * rewrite Ht, Ht1. unfold dadd. rewrite Qred_correct. lra.
      * lra.
      * lra.
Qed.

(** What a checkout is, for an empty cart and for another. *)
Lemma processCheckout_cases (m m' : Marketplace.t) (fs fs' : Files) (cin : Cin)
    (out : list Out) :
  processCheckout m fs cin = Done (m', fs', out) ->
  exists c,
    currentCustomer m = Done c
    /\ ((Customer.cartStack c = [] /\ m' = m /\ fs' = fs /\ out = [OutCartEmpty])
        \/ (Customer.cartStack c <> []
            /\ exists ps total outs cin',
                 processQueue (Customer.cartStack c) (products m) 0%Q cin
                 = Done (ps, total, outs, cin')
                 /\ m' = set_products (set_currentCart m c []) ps
                 /\ fs' = saveData m'
                 /\ out = OutReceiptHeader :: outs ++ [OutTotal total])).
Proof.
  intros H. pose proof H as H0. unfold processCheckout in H0. bind_inv H0.
  exists a. split; [exact E |].
  destruct (Customer.cartStack a) as [| it rest] eqn:Ecart.
  - left. inversion H0; subst. repeat split.
  - right. split; [discriminate |]. rewrite <- Ecart.
    apply (processCheckout_Done m m' fs fs' cin a out E); [| exact H].
    rewrite Ecart. discriminate.
Qed.

(** X3: the receipt of a cart that is not empty ends with the total
    paid, and the total is the sum of the amounts on its lines; refused
    items add nothing. *)
Theorem checkout_total_is_sum_of_lines (m m' : Marketplace.t) (fs fs' : Files)
    (cin : Cin) (c : Customer.t) (out : list Out) :
  currentCustomer m = Done c ->
  Customer.cartStack c <> [] ->
  processCheckout m fs cin = Done (m', fs', out) ->
  exists outs total,
    out = OutReceiptHeader :: outs ++ [OutTotal total]
    /\ (total == Qsum (soldAmounts outs))%Q.
Proof.
  intros Hc Hne H.
  destruct (processCheckout_Done _ _ _ _ _ _ _ Hc Hne H)
    as (ps & total & outs & cin' & Hq & _ & _ & ->).
  exists outs, total. split; [reflexivity |].
  destruct (processQueue_account _ _ _ _ _ _ _ _ Hq) as (_ & Ht & _).
  rewrite Ht. lra.
Qed.

Lemma checkout_total_is_sum_of_lines_witness :
  exists m' fs' outs total,
    processCheckout Example.overdrawn Example.no_files Example.typed
    = Done (m', fs', OutReceiptHeader :: outs ++ [OutTotal total])
    /\ (total == Qsum (soldAmounts outs))%Q.
Proof.
  destruct (processCheckout Example.overdrawn Example.no_files Example.typed)
    as [[[m' fs'] out] | | | |] eqn:E; try (vm_compute in E; discriminate).
  destruct (checkout_total_is_sum_of_lines Example.overdrawn m'
              Example.no_files fs' Example.typed
              (Customer.set_cartStack Example.al
                 [CartItem.mk Example.gadget 9; CartItem.mk Example.widget 3])
              out eq_refl ltac:(discriminate) E) as (outs & total & -> & Ht).
  exists m', fs', outs, total. split; [reflexivity | exact Ht].
Defined.





Lemma nth_error_update_at_other {A : Type} (l : list A) (i j : nat) (x : A) :
  i <> j -> nth_error (update_at l i x) j = nth_error l j.
Proof.
  revert i j; induction l as [| a l IH]; intros [| i] [| j] H; simpl;
    try reflexivity; try congruence.
  apply IH. congruence.
Qed.

Lemma without_cart_update_at (l : list Customer.t) (i : nat) (c : Customer.t)
    (s : list CartItem.t) :
  nth_error l i = Some c ->
  map without_cart (update_at l i (Customer.set_cartStack c s))
  = map without_cart l.
Proof.
  revert i; induction l as [| a l IH]; intros [| i]; simpl; try discriminate.
  - intros H; inversion H; subst. reflexivity.
  - intros H. now rewrite (IH i H).
Qed.

(** X6: a checkout touches the cart of the customer who checks out, and
    the stock and the ratings of the products; the sellers, the counters,
    the session, the records and the carts of all other customers, and
    the id, name, price, category and seller of every product stay as
    they are. *)
Theorem checkout_leaves_the_rest (m m' : Marketplace.t) (fs fs' : Files)
    (cin : Cin) (out : list Out) :
  processCheckout m fs cin = Done (m', fs', out) ->
  sellers m' = sellers m
  /\ (productCounter m', sellerCounter m', customerCounter m')
     = (productCounter m, sellerCounter m, customerCounter m)
  /\ (currentSellerIdx m', currentCustomerIdx m')
     = (currentSellerIdx m, currentCustomerIdx m)
  /\ map listing (products m') = map listing (products m)
  /\ map without_cart (customers m') = map without_cart (customers m)
  /\ (forall j, j <> Z.to_nat (currentCustomerIdx m) ->
        nth_error (customers m') j = nth_error (customers m) j).
Proof.
  intros H. destruct (processCheckout_cases _ _ _ _ _ _ H) as (c & Hc & Hcase).
  destruct Hcase as [(_ & -> & _ & _)
                    | (_ & ps & total & outs & cin' & Hq & -> & _ & _)].
  - repeat split.
  - destruct (processQueue_account _ _ _ _ _ _ _ _ Hq) as (Hl & _).
    destruct (currentCustomer_nth m c Hc) as [_ Hn].
    cbn [sellers products customers productCounter sellerCounter customerCounter
         currentSellerIdx currentCustomerIdx set_products set_currentCart
         set_customers].
    repeat split.
    + exact Hl.
    + now apply without_cart_update_at.
    + intros j Hj. apply nth_error_update_at_other. congruence.
Qed.

Lemma checkout_leaves_the_rest_witness :
  exists m' fs' out,
    processCheckout Example.staged Example.no_files Example.typed
    = Done (m', fs', out)
    /\ sellers m' = [Example.sam]
    /\ map listing (products m') = map listing [Example.widget; Example.gadget]
    /\ map without_cart (customers m') = [Example.al].
Proof.
  destruct (processCheckout Example.staged Example.no_files Example.typed)
    as [[[m' fs'] out] | | | |] eqn:E; try (vm_compute in E; discriminate).
  destruct (checkout_leaves_the_rest Example.staged m' Example.no_files fs'
              Example.typed out E) as (Hs & _ & _ & Hl & Hw & _).
  exists m', fs', out. repeat split; assumption.
Defined.

(** ** Further properties: checkouts that return, and one that does not *)

Lemma processCheckout_returns_witness :
  exists m' fs' out,
    processCheckout Example.staged Example.no_files Example.typed
    = Done (m', fs', out).
Proof.
  refine (processCheckout_returns Example.staged Example.no_files Example.typed
            (Customer.set_cartStack Example.al
               [CartItem.mk Example.gadget 2; CartItem.mk Example.widget 3])
            eq_refl _ _ _).
  - repeat constructor; simpl; lia.
  - repeat constructor; try reflexivity; unfold INT_MIN, INT_MAX; simpl; lia.
  - simpl. lia.
Defined.

Lemma readRating_blocked (cin : Cin) :
  ratings_ahead cin = O -> readRating cin = Blocked.
Proof.
  induction cin as [| line rest IH]; simpl; intros H; [reflexivity |].
  destruct line as [| [z |] line]; simpl in H.
  - exact (IH H).
  - destruct ((1 <=? z) && (z <=? 5)); [discriminate |].
    now rewrite (IH H).
  - now rewrite (IH H).
Qed.

Lemma settle_blocked (item : CartItem.t) (ps : list Product.t) (total : Q)
    (cin : Cin) (p : Product.t) :
  findProduct (Product.id (CartItem.product item)) ps = Some p ->
  CartItem.buyQty item <= Product.quantity p ->
  in_int (Product.quantity p - CartItem.buyQty item) = true ->
  ratings_ahead cin = O ->
  settle item ps total cin = Blocked.
Proof.
  intros Hf Hq Hi Hcin. induction ps as [| p0 rest IH]; simpl in *;
    [discriminate |].
  destruct (Product.id p0 =? Product.id (CartItem.product item)).
  - inversion Hf; subst p0.
    destruct (CartItem.buyQty item <=? Product.quantity p) eqn:El; [| lia].
    unfold int_result. rewrite Hi. cbn [bind].
    now rewrite (readRating_blocked cin Hcin).
  - now rewrite (IH Hf).
Qed.

(** X8: when the item on top of the cart can be served and the pending
    input holds no number from 1 to 5 at a place where the rating prompt
    reads it, the checkout does not return: the prompt repeats at the end
    of the input. *)
Theorem checkout_blocks_without_rating (m : Marketplace.t) (fs : Files)
    (cin : Cin) (c : Customer.t) (item : CartItem.t) (rest : list CartItem.t)
    (p : Product.t) :
  currentCustomer m = Done c ->
  Customer.cartStack c = item :: rest ->
  findProduct (Product.id (CartItem.product item)) (products m) = Some p ->
  CartItem.buyQty item <= Product.quantity p ->
  in_int (Product.quantity p - CartItem.buyQty item) = true ->
  ratings_ahead cin = O ->
  processCheckout m fs cin = Blocked.
Proof.
  intros Hc Hcart Hf Hq Hi Hcin. unfold processCheckout.
  rewrite Hc. cbn [bind]. rewrite Hcart, transfer_spec. cbn [app processQueue].
  cbn [products set_currentCart set_customers].
  now rewrite (settle_blocked item (products m) 0%Q cin p Hf Hq Hi Hcin).
Qed.

Lemma checkout_blocks_without_rating_witness :
  processCheckout Example.staged Example.no_files [[Junk; Num 3]; []; [Num 9]]
  = Blocked.
Proof.
  exact (checkout_blocks_without_rating Example.staged Example.no_files
           [[Junk; Num 3]; []; [Num 9]]
           (Customer.set_cartStack Example.al
              [CartItem.mk Example.gadget 2; CartItem.mk Example.widget 3])
           (CartItem.mk Example.gadget 2) [CartItem.mk Example.widget 3]
           Example.gadget eq_refl eq_refl eq_refl
           ltac:(simpl; lia) eq_refl eq_refl).
Defined.

Lemma save_load_reverses_carts_witness :
  exists m',
    loadData initial (saveData Example.staged) = Done m'
    /\ map Customer.cartStack (customers m')
       = [[CartItem.mk Example.widget 3; CartItem.mk Example.gadget 2]].
Proof.
  destruct (save_load_reverses_carts Example.staged eq_refl eq_refl)
    as (m' & E & Hc).
  exists m'. split; [exact E |]. rewrite Hc. reflexivity.
Defined.

(** ** Further properties: ids and counters *)

Lemma stoi_in_int (s : string) (z : Z) :
  stoi s = Done z -> INT_MIN <= z <= INT_MAX.
Proof.
  unfold stoi. destruct (read_sign (skip_space s)) as [neg s1].
  destruct (starts_digit s1); [| discriminate].
  destruct (in_int _) eqn:E; intros H; inversion H; subst.
  now apply in_int_spec.
Qed.

Lemma wrapped_bump_above (id counter : Z) :
  INT_MIN <= id < INT_MAX ->
  counter <= Wrapped.bump id counter /\ id < Wrapped.bump id counter.
Proof.
  intros Hid. unfold Wrapped.bump. destruct (counter <=? id) eqn:E.
  - apply Z.leb_le in E. rewrite wrap_in_int; lia.
  - apply Z.leb_gt in E. lia.
Qed.

Lemma below_snoc (counter counter' id : Z) (ids : list Z) :
  below counter ids -> counter <= counter' -> id < counter' ->
  below counter' (ids ++ [id]).
Proof.
  unfold below. intros H Hle Hid. apply Forall_app. split.
  - eapply Forall_impl; [| exact H]. simpl. intros; lia.
  - constructor; [exact Hid | constructor].
Qed.

(** A line read keeps the counter above the ids, as long as no id is
    the largest [int]. *)
Lemma below_step (counter id : Z) (ids : list Z) :
  (below INT_MAX ids -> below counter ids) ->
  INT_MIN <= id <= INT_MAX ->
  below INT_MAX (ids ++ [id]) ->
  below (Wrapped.bump id counter) (ids ++ [id]).
Proof.
  unfold below at 3. intros Hb Hid Hall. apply Forall_app in Hall.
  destruct Hall as [Hids Hlast]. inversion Hlast; subst.
  destruct (wrapped_bump_above id counter ltac:(lia)).
  apply (below_snoc counter); auto.
Qed.

Lemma load_lines_inv {S : Type} (step : string -> S -> Outcome S)
    (P : S -> Prop) :
  (forall line acc acc', P acc -> step line acc = Done acc' -> P acc') ->
  forall lines acc acc',
    P acc -> load_lines step lines acc = Done acc' -> P acc'.
Proof.
  intros Hstep. induction lines as [| line rest IH]; intros acc acc' HP H;
    simpl in H.
  - inversion H; subst. exact HP.
  - bind_inv H. eapply IH; [| exact H]. eapply Hstep; eassumption.
Qed.

Lemma wrapped_load_seller_below (line : string) (acc acc' : list Seller.t * Z) :
  (below INT_MAX (map Seller.id (fst acc)) ->
   below (snd acc) (map Seller.id (fst acc))) ->
  Wrapped.load_seller line acc = Done acc' ->
  below INT_MAX (map Seller.id (fst acc')) ->
  below (snd acc') (map Seller.id (fst acc')).
Proof.
  destruct acc as [ss counter]. unfold Wrapped.load_seller.
  simpl fst; simpl snd.
  intros Hb H. destruct (3 <=? List.length (segments bar line))%nat.
  - bind_inv H. inversion H; subst. simpl. rewrite map_app. simpl.
    apply below_step; [exact Hb | exact (stoi_in_int _ _ E)].
  - inversion H; subst. exact Hb.
Qed.

Lemma wrapped_load_customer_below (line : string)
    (acc acc' : list Customer.t * Z) :
  (below INT_MAX (map Customer.id (fst acc)) ->
   below (snd acc) (map Customer.id (fst acc))) ->
  Wrapped.load_customer line acc = Done acc' ->
  below INT_MAX (map Customer.id (fst acc')) ->
  below (snd acc') (map Customer.id (fst acc')).
Proof.
  destruct acc as [cs counter]. unfold Wrapped.load_customer.
  simpl fst; simpl snd.
  intros Hb H. destruct (5 <=? List.length (segments bar line))%nat.
  - bind_inv H. inversion H; subst. simpl. rewrite map_app. simpl.
    apply below_step; [exact Hb | exact (stoi_in_int _ _ E)].
  - inversion H; subst. exact Hb.
Qed.

Lemma wrapped_load_product_below (line : string)
    (acc acc' : list Product.t * Z) :
  (below INT_MAX (map Product.id (fst acc)) ->
   below (snd acc) (map Product.id (fst acc))) ->
  Wrapped.load_product line acc = Done acc' ->
  below INT_MAX (map Product.id (fst acc')) ->
  below (snd acc') (map Product.id (fst acc')).
Proof.
  destruct acc as [ps counter]. unfold Wrapped.load_product.
  simpl fst; simpl snd.
  intros Hb H. destruct (8 <=? List.length (segments bar line))%nat.
  - do 6 bind_inv H. inversion H; subst. simpl. rewrite map_app. simpl.
    apply below_step; [exact Hb | exact (stoi_in_int _ _ E)].
  - inversion H; subst. exact Hb.
Qed.

Lemma without_cart_ids (cs cs' : list Customer.t) :
  map without_cart cs' = map without_cart cs ->
  map Customer.id cs' = map Customer.id cs.
Proof.
  intros H.
  assert (E : forall l, map Customer.id l = map Customer.id (map without_cart l)).
  { intros l. rewrite map_map. apply map_ext. reflexivity. }
  now rewrite (E cs), (E cs'), H.
Qed.

(** A cart line, whatever it holds, leaves the records of the customers
    alone. *)
Lemma load_cart_without_cart (ps : list Product.t) (line : string)
    (cs cs' : list Customer.t) :
  load_cart ps line cs = Done cs' ->
  map without_cart cs' = map without_cart cs.
Proof.
  unfold load_cart. intros H.
  destruct (3 <=? List.length (segments bar line))%nat.
  - do 3 bind_inv H. destruct (findProduct a0 ps) as [targetProd |].
    + destruct (pushToCustomer a _ cs) as [cs1 |] eqn:Ep;
        inversion H; subst; [| reflexivity].
      eapply pushToCustomer_without_cart; eassumption.
    + inversion H; subst. reflexivity.
  - inversion H; subst. reflexivity.
Qed.

(** X9: a load of the compiled program that returns leaves each
    counter above every id of its vector, when it was so before and no
    id of the vector is the largest [int]; this covers the load at
    startup.  The next registration then draws an id that no record
    has. *)
Theorem wrapped_loadData_counters_above_ids (m m' : Marketplace.t) (fs : Files) :
  below (sellerCounter m) (map Seller.id (sellers m)) ->
  below (customerCounter m) (map Customer.id (customers m)) ->
  below (productCounter m) (map Product.id (products m)) ->
  Wrapped.loadData m fs = Done m' ->
  (below INT_MAX (map Seller.id (sellers m')) ->
   below (sellerCounter m') (map Seller.id (sellers m')))
  /\ (below INT_MAX (map Customer.id (customers m')) ->
      below (customerCounter m') (map Customer.id (customers m')))
  /\ (below INT_MAX (map Product.id (products m')) ->
      below (productCounter m') (map Product.id (products m'))).
Proof.
  intros Hs Hc Hp H. unfold Wrapped.loadData in H.
  bind_inv H. destruct a as [ss sc]. bind_inv H. destruct a as [cs cc].
  bind_inv H. destruct a as [ps pc]. bind_inv H. inversion H; subst. clear H.
  cbn [sellers customers products sellerCounter customerCounter productCounter].
  split; [| split].
  - exact (load_lines_inv Wrapped.load_seller
             (fun acc => below INT_MAX (map Seller.id (fst acc)) ->
                         below (snd acc) (map Seller.id (fst acc)))
             (fun line acc acc' => wrapped_load_seller_below line acc acc')
             _ (sellers m, sellerCounter m) (ss, sc) (fun _ => Hs) E).
  - pose proof (load_lines_inv Wrapped.load_customer
                  (fun acc => below INT_MAX (map Customer.id (fst acc)) ->
                              below (snd acc) (map Customer.id (fst acc)))
                  (fun line acc acc' => wrapped_load_customer_below line acc acc')
                  _ (customers m, customerCounter m) (cs, cc) (fun _ => Hc) E0)
      as Hcs.
    simpl in Hcs.
    pose proof (load_lines_inv (load_cart ps)
                  (fun cs1 => map without_cart cs1 = map without_cart cs)
                  (fun line acc acc' Hacc Hl =>
                     eq_trans (load_cart_without_cart ps line acc acc' Hl) Hacc)
                  _ _ _ eq_refl E2) as Hw.
    now rewrite (without_cart_ids _ _ Hw).
  - exact (load_lines_inv Wrapped.load_product
             (fun acc => below INT_MAX (map Product.id (fst acc)) ->
                         below (snd acc) (map Product.id (fst acc)))
             (fun line acc acc' => wrapped_load_product_below line acc acc')
             _ (products m, productCounter m) (ps, pc) (fun _ => Hp) E1).
Qed.

Lemma wrapped_loadData_counters_above_ids_witness :
  exists m',
    Wrapped.loadData initial
      (mkFiles (Some "7|Sam|sam@shop
oops
3|Sue|sue@shop
"%string)
         None (Some EmptyString) (Some "1|2|3
"%string))
    = Done m'
    /\ below (sellerCounter m') (map Seller.id (sellers m'))
    /\ sellerCounter m' = 8.
Proof.
  match goal with
  | |- exists m', ?load = _ /\ _ =>
      destruct load as [m' | | | |] eqn:E; try (vm_compute in E; discriminate)
  end.
  exists m'. split; [reflexivity |].
  split.
  - apply (proj1 (wrapped_loadData_counters_above_ids initial m' _
                    (Forall_nil _) (Forall_nil _) (Forall_nil _) E)).
    vm_compute in E. inversion E. unfold below, INT_MAX. simpl.
    repeat constructor.
  - vm_compute in E. inversion E. reflexivity.
Defined.

(** An id at the end of the [int]s takes the counter around to
    [INT_MIN], below the id; in the terms of the language the load has
    no defined result. *)
Example wrapped_loadData_last_id :
  loadData initial Example.last_id_files = Undefined
  /\ exists m',
       Wrapped.loadData initial Example.last_id_files = Done m'
       /\ map Seller.id (sellers m') = [INT_MAX]
       /\ sellerCounter m' = INT_MIN.
Proof.
  split; [vm_compute; reflexivity |].
  eexists. split; [vm_compute; reflexivity |]. split; reflexivity.
Qed.

(** A load that ends without an overflow is a load of the compiled
    program, with the same result. *)
Lemma wrapped_bump_agrees (id counter counter' : Z) :
  INT_MIN <= id <= INT_MAX ->
  bump id counter = Done counter' -> Wrapped.bump id counter = counter'.
Proof.
  unfold bump, Wrapped.bump. intros Hid.
  destruct (counter <=? id); intros H.
  - apply int_result_Done in H. destruct H as [-> Hr]. now apply wrap_in_int.
  - now inversion H.
Qed.

Lemma load_lines_agrees {S : Type} (step step' : string -> S -> Outcome S) :
  (forall line acc acc', step line acc = Done acc' -> step' line acc = Done acc') ->
  forall lines acc acc',
    load_lines step lines acc = Done acc' ->
    load_lines step' lines acc = Done acc'.
Proof.
  intros Hstep. induction lines as [| line rest IH]; intros acc acc' H;
    simpl in H |- *.
  - exact H.
  - bind_inv H. rewrite (Hstep _ _ _ E). cbn [bind]. now apply IH.
Qed.

Lemma wrapped_loadData_agrees (m m' : Marketplace.t) (fs : Files) :
  loadData m fs = Done m' -> Wrapped.loadData m fs = Done m'.
Proof.
  unfold loadData, Wrapped.loadData. intros H.
  bind_inv H. destruct a as [ss sc]. bind_inv H. destruct a as [cs cc].
  bind_inv H. destruct a as [ps pc].
  rewrite (load_lines_agrees load_seller Wrapped.load_seller) with (acc' := (ss, sc));
    [| | exact E].
  2: { intros line [l counter] acc' Hl. unfold load_seller in Hl.
       unfold Wrapped.load_seller.
       destruct (3 <=? List.length (segments bar line))%nat; [| exact Hl].
       bind_inv Hl. bind_inv Hl. rewrite E2. cbn [bind].
       now rewrite (wrapped_bump_agrees _ _ _ (stoi_in_int _ _ E2) E3). }
  cbn [bind].
  rewrite (load_lines_agrees load_customer Wrapped.load_customer)
    with (acc' := (cs, cc)); [| | exact E0].
  2: { intros line [l counter] acc' Hl. unfold load_customer in Hl.
       unfold Wrapped.load_customer.
       destruct (5 <=? List.length (segments bar line))%nat; [| exact Hl].
       bind_inv Hl. bind_inv Hl. rewrite E2. cbn [bind].
       now rewrite (wrapped_bump_agrees _ _ _ (stoi_in_int _ _ E2) E3). }
  cbn [bind].
  rewrite (load_lines_agrees load_product Wrapped.load_product)
    with (acc' := (ps, pc)); [| | exact E1].
  2: { intros line [l counter] acc' Hl. unfold load_product in Hl.
       unfold Wrapped.load_product.
       destruct (8 <=? List.length (segments bar line))%nat; [| exact Hl].
       do 7 bind_inv Hl. rewrite E2, E3, E4, E5, E6, E7. cbn [bind].
       now rewrite (wrapped_bump_agrees _ _ _ (stoi_in_int _ _ E2) E8). }
  cbn [bind]. exact H.
Qed.








(** ** Further properties: login *)

(** The search of a login stops at the first element with the email. *)
Lemma findByEmail_spec {A : Type} (email_of : A -> string) (email : string)
    (l : list A) :
  forall i,
    match findByEmail email_of email l i with
    | Some k =>
        exists pre x post,
          l = pre ++ x :: post
          /\ k = i + Z.of_nat (List.length pre)
          /\ email_of x = email
          /\ Forall (fun y => email_of y <> email) pre
    | None => Forall (fun y => email_of y <> email) l
    end.
Proof.
  induction l as [| x rest IH]; intros i; simpl; [constructor |].
  destruct (email_of x =? email)%string eqn:E.
  - apply String.eqb_eq in E. exists [], x, rest.
    repeat split; [simpl; lia | exact E | constructor].
  - apply String.eqb_neq in E. specialize (IH (i + 1)).
    destruct (findByEmail email_of email rest (i + 1)) as [k |].
    + destruct IH as (pre & y & post & -> & -> & Hy & Hpre).
      exists (x :: pre), y, post.
      repeat split; [simpl List.length; lia | exact Hy | now constructor].
    + now constructor.
Qed.

Lemma nth_error_middle {A : Type} (pre post : list A) (x : A) :
  nth_error (pre ++ x :: post) (List.length pre) = Some x.
Proof. induction pre as [| a pre IH]; simpl; [reflexivity | exact IH]. Qed.

(** X13: a customer login succeeds exactly when some customer has the
    email; it then opens the session of the first such customer in the
    order of registration and changes nothing else.  A login that fails
    leaves the store as it is. *)
Theorem loginCustomer_first_match (m : Marketplace.t) (email : string) :
  let (found, m') := loginCustomer m email in
  if found then
    exists pre c post,
      customers m = pre ++ c :: post
      /\ Forall (fun c0 => Customer.email c0 <> email) pre
      /\ Customer.email c = email
      /\ currentCustomer m' = Done c
      /\ m' = login m (Z.of_nat (List.length pre))
  else
    m' = m /\ Forall (fun c0 => Customer.email c0 <> email) (customers m).
Proof.
  unfold loginCustomer.
  pose proof (findByEmail_spec Customer.email email (customers m) 0) as H.
  destruct (findByEmail Customer.email email (customers m) 0) as [k |].
  - destruct H as (pre & c & post & Hl & -> & Hc & Hpre).
    exists pre, c, post. repeat split; try assumption.
    unfold currentCustomer. cbn [currentCustomerIdx customers].
    replace (0 + Z.of_nat (List.length pre) <? 0) with false
      by (symmetry; apply Z.ltb_ge; lia).
    rewrite Z.add_0_l, Nat2Z.id, Hl, nth_error_middle. reflexivity.
  - split; [reflexivity | exact H].
Qed.

(** X14: the same for a seller login. *)
Theorem loginSeller_first_match (m : Marketplace.t) (email : string) :
  let (found, m') := loginSeller m email in
  if found then
    exists pre s post,
      sellers m = pre ++ s :: post
      /\ Forall (fun s0 => Seller.email s0 <> email) pre
      /\ Seller.email s = email
      /\ currentSeller m' = Done s
      /\ currentSellerIdx m' = Z.of_nat (List.length pre)
      /\ (sellers m', customers m', products m', currentCustomerIdx m')
         = (sellers m, customers m, products m, currentCustomerIdx m)
  else
    m' = m /\ Forall (fun s0 => Seller.email s0 <> email) (sellers m).
Proof.
  unfold loginSeller.
  pose proof (findByEmail_spec Seller.email email (sellers m) 0) as H.
  destruct (findByEmail Seller.email email (sellers m) 0) as [k |].
  - destruct H as (pre & s & post & Hl & -> & Hs & Hpre).
    exists pre, s, post. repeat split; try assumption.
    unfold currentSeller. cbn [currentSellerIdx sellers].
    replace (0 + Z.of_nat (List.length pre) <? 0) with false
      by (symmetry; apply Z.ltb_ge; lia).
    rewrite Z.add_0_l, Nat2Z.id, Hl, nth_error_middle. reflexivity.
  - split; [reflexivity | exact H].
Qed.

Lemma findByEmail_app {A : Type} (email_of : A -> string) (email : string)
    (l l' : list A) (i : Z) :
  findByEmail email_of email (l ++ l') i
  = match findByEmail email_of email l i with
    | Some k => Some k
    | None => findByEmail email_of email l' (i + Z.of_nat (List.length l))
    end.
Proof.
  revert i; induction l as [| x rest IH]; intros i; simpl.
  - now rewrite Z.add_0_r.
  - destruct (email_of x =? email)%string; [reflexivity |].
    rewrite IH. destruct (findByEmail email_of email rest (i + 1));
      [reflexivity |].
    f_equal. lia.
Qed.

(** X15: a registration does not look at the emails in use.  After it a
    login with the email of the new customer succeeds, and it opens the
    session of the new customer when no customer had the email before,
    and otherwise that of the first customer who had it. *)
Theorem login_after_registration (m m1 : Marketplace.t) (f1 : Files)
    (name email addr phone : string) :
  registerCustomer m name email addr phone = Done (m1, f1) ->
  exists m2 c,
    loginCustomer m1 email = (true, m2)
    /\ currentCustomer m2 = Done c
    /\ Customer.email c = email
    /\ ((Forall (fun c0 => Customer.email c0 <> email) (customers m)
         /\ c = Customer.mk (customerCounter m) name addr phone email [])
        \/ (exists pre post,
              customers m = pre ++ c :: post
              /\ Forall (fun c0 => Customer.email c0 <> email) pre)).
Proof.
  intros H. unfold registerCustomer in H. bind_inv H. inversion H; subst. clear H.
  pose proof (Hfind := findByEmail_spec Customer.email
                email (customers m) 0).
  unfold loginCustomer. cbn [customers]. rewrite findByEmail_app.
  destruct (findByEmail Customer.email email (customers m) 0) as [k |].
  - destruct Hfind as (pre & c & post & Hl & -> & Hc & Hpre).
    eexists. exists c. split; [reflexivity |].
    split; [| split; [exact Hc | right; exists pre, post; split; assumption]].
    unfold currentCustomer. cbn [currentCustomerIdx customers].
    replace (0 + Z.of_nat (List.length pre) <? 0) with false
      by (symmetry; apply Z.ltb_ge; lia).
    rewrite Z.add_0_l, Nat2Z.id, Hl, <- app_assoc. cbn [app].
    rewrite nth_error_middle. reflexivity.
  - cbn [findByEmail Customer.fresh Customer.email]. rewrite String.eqb_refl.
    eexists. exists (Customer.mk (customerCounter m) name addr phone email []).
    split; [reflexivity |].
    split; [| split; [reflexivity | left; split; [assumption | reflexivity]]].
    unfold currentCustomer. cbn [currentCustomerIdx customers].
    replace (0 + Z.of_nat (List.length (customers m)) <? 0) with false
      by (symmetry; apply Z.ltb_ge; lia).
    rewrite Z.add_0_l, Nat2Z.id, nth_error_middle. reflexivity.
Qed.

Lemma login_after_registration_witness :
  exists m1 f1 m2,
    registerCustomer Example.store "Alma" "al@home" "9 Ash St" "557"
    = Done (m1, f1)
    /\ loginCustomer m1 "al@home" = (true, m2)
    /\ currentCustomer m2 = Done Example.al.
Proof.
  destruct (registerCustomer Example.store "Alma" "al@home" "9 Ash St" "557")
    as [[m1 f1] | | | |] eqn:E; try (vm_compute in E; discriminate).
  destruct (login_after_registration Example.store m1 f1
              "Alma" "al@home" "9 Ash St" "557" E)
    as (m2 & c & Hl & Hc & He & Hcase).
  exists m1, f1, m2. split; [reflexivity |]. split; [exact Hl |].
  rewrite Hc. f_equal.
  destruct Hcase as [[Hnone _] | (pre & post & Hcs & Hpre)].
  - inversion Hnone as [| c0 l Hne _]. exfalso. apply Hne. reflexivity.
  - destruct pre as [| c1 pre].
    + inversion Hcs. reflexivity.
    + inversion Hpre as [| c0 l Hne _]; subst. exfalso. apply Hne.
      inversion Hcs. reflexivity.
Defined.

(** ** Further properties: the catalogue *)

Lemma collect_filter (keep : Product.t -> bool) (ps filtered : list Product.t) :
  collect keep ps filtered = filtered ++ filter keep ps.
Proof.
  revert filtered; induction ps as [| p rest IH]; intros filtered; simpl.
  - now rewrite app_nil_r.
  - rewrite IH. destruct (keep p); [now rewrite <- app_assoc | reflexivity].
Qed.

Lemma starts_with_spec (q s : string) :
  starts_with q s = true <-> exists post, s = (q ++ post)%string.
Proof.
  revert s; induction q as [| a q IH]; intros s; simpl.
  - split; [intros _; now exists s | reflexivity].
  - destruct s as [| b s].
    + split; [discriminate | intros [post H]; discriminate].
    + rewrite andb_true_iff, IH, Ascii.eqb_eq. split.
      * intros [-> [post ->]]. now exists post.
      * intros [post H]. inversion H; subst. split; [reflexivity | now exists post].
Qed.

Lemma found_in_spec (q s : string) :
  found_in q s = true <-> exists pre post, s = (pre ++ q ++ post)%string.
Proof.
  induction s as [| b s IH].
  - simpl. rewrite orb_false_r, starts_with_spec. split.
    + intros [post H]. now exists EmptyString, post.
    + intros (pre & post & H). destruct pre; [now exists post | discriminate].
  - cbn [found_in]. rewrite orb_true_iff, starts_with_spec, IH. split.
    + intros [[post H] | (pre & post & H)].
      * now exists EmptyString, post.
      * exists (String b pre), post. simpl. now rewrite H.
    + intros (pre & post & H). destruct pre as [| a pre].
      * left. now exists post.
      * right. inversion H; subst. now exists pre, post.
Qed.

(** X16: the search by name lists, in the order of the store, the
    products whose name holds the text somewhere, all of them for the
    empty text; the filter lists the products whose category is the text
    asked for, letter for letter. *)
Theorem catalogue_queries (m : Marketplace.t) (text : string) :
  (forall p,
     In p (searchByName m text)
     <-> In p (products m)
         /\ exists pre post, Product.name p = (pre ++ text ++ post)%string)
  /\ searchByName m EmptyString = products m
  /\ (forall p,
        In p (filterByCategory m text)
        <-> In p (products m) /\ Product.category p = text)
  /\ (exists keep, searchByName m text = filter keep (products m))
  /\ (exists keep, filterByCategory m text = filter keep (products m)).
Proof.
  unfold searchByName, filterByCategory. rewrite !collect_filter. cbn [app].
  split; [| split; [| split; [| split]]].
  - intros p. rewrite filter_In, found_in_spec. reflexivity.
  - induction (products m) as [| p rest IH]; [reflexivity |].
    simpl. destruct (Product.name p); simpl; now rewrite IH.
  - intros p. rewrite filter_In, String.eqb_eq. reflexivity.
  - eexists. reflexivity.
  - eexists. reflexivity.
Qed.

(** ** Further properties: the estimate of the cart *)

Lemma viewLines_total (stack : list CartItem.t) (currentTotal : Q) :
  (snd (viewLines stack currentTotal) == currentTotal + cartValue stack)%Q
  /\ map (fun line => fst (fst line)) (fst (viewLines stack currentTotal))
     = map itemName stack.
Proof.
  revert currentTotal; induction stack as [| item rest IH]; intros t; simpl.
  - split; [lra | reflexivity].
  - specialize (IH (dadd t (dmul (Product.price (CartItem.product item))
                                  (dint (CartItem.buyQty item))))).
    destruct (viewLines rest _) as [lines total]. simpl in *.
    destruct IH as [Ht Hn]. split.
    + rewrite Ht. unfold dadd, dmul, dint. rewrite !Qred_correct. lra.
    + unfold itemName at 1. now rewrite Hn.
Qed.

Lemma refusals_app (a b : list Out) :
  refusals (a ++ b) = (refusals a + refusals b)%nat.
Proof.
  induction a as [| o a IH]; simpl; [reflexivity |].
  destruct o; simpl; now rewrite IH.
Qed.

(** An item that names a live product and is not refused is charged. *)
Lemma settle_charged (item : CartItem.t) (ps ps' : list Product.t)
    (total total' : Q) (cin cin' : Cin) (outs : list Out) :
  settle item ps total cin = Done (ps', total', outs, cin') ->
  resolves ps item = true ->
  refusals outs = O ->
  (total' == total + Product.price (CartItem.product item)
                     * inject_Z (CartItem.buyQty item))%Q.
Proof.
  unfold resolves. revert ps' total' outs cin'.
  induction ps as [| p rest IH]; intros ps' total' outs cin' H Hr Hn;
    simpl in H, Hr; [discriminate |].
  destruct (Product.id p =? Product.id (CartItem.product item)).
  - destruct (CartItem.buyQty item <=? Product.quantity p).
    + bind_inv H. bind_inv H. destruct a0 as [[r o] c]. bind_inv H.
      inversion H; subst. unfold dadd, dmul, dint. rewrite !Qred_correct. lra.
    + inversion H; subst. discriminate.
  - bind_inv H. destruct a as [[[ps0 t0] o0] c0]. inversion H; subst.
    eapply IH; eassumption.
Qed.

Lemma processQueue_charged (queue : list CartItem.t) :
  forall (ps ps' : list Product.t) (total total' : Q) (cin cin' : Cin)
         (outs : list Out),
    processQueue queue ps total cin = Done (ps', total', outs, cin') ->
    forallb (resolves ps) queue = true ->
    refusals outs = O ->
    (total' == total + cartValue queue)%Q.
Proof.
  induction queue as [| item rest IH]; intros ps ps' total total' cin cin' outs
    H Hr Hn; simpl in H.
  - inversion H; subst. simpl. lra.
  - bind_inv H. destruct a as [[[ps1 t1] o1] c1]. bind_inv H.
    destruct a as [[[ps2 t2] o2] c2]. inversion H; subst. clear H.
    simpl in Hr. apply andb_true_iff in Hr. destruct Hr as [Hi Hrest].
    rewrite refusals_app in Hn.
    rewrite (IH _ _ _ _ _ _ _ E0).
    + rewrite (settle_charged _ _ _ _ _ _ _ _ E Hi ltac:(lia)). simpl. lra.
    + rewrite forallb_forall in Hrest |- *. intros it Hit.
      rewrite (resolves_ids it _ _ (settle_ids _ _ _ _ _ _ _ _ E)).
      now apply Hrest.
    + lia.
Qed.

(** X17: the estimate that [viewCart] shows is the sum of price times
    quantity over the cart, at the prices held in the cart, and the view
    names the items from the top of the cart down.  When every item of
    the cart names a live product and the checkout refuses none, the
    total paid is this estimate. *)
Theorem checkout_pays_the_estimate (m m' : Marketplace.t) (fs fs' : Files)
    (cin : Cin) (c : Customer.t) (out : list Out) :
  currentCustomer m = Done c ->
  Customer.cartStack c <> [] ->
  exists lines estimate,
    viewCart m = Done (Some (lines, estimate))
    /\ (estimate == cartValue (Customer.cartStack c))%Q
    /\ map (fun line => fst (fst line)) lines
       = map itemName (Customer.cartStack c)
    /\ (processCheckout m fs cin = Done (m', fs', out) ->
        forallb (resolves (products m)) (Customer.cartStack c) = true ->
        refusals out = O ->
        exists outs total,
          out = OutReceiptHeader :: outs ++ [OutTotal total]
          /\ (total == estimate)%Q).
Proof.
  intros Hc Hne.
  destruct (viewLines_total (Customer.cartStack c) 0%Q) as [Ht Hn].
  exists (fst (viewLines (Customer.cartStack c) 0%Q)),
         (snd (viewLines (Customer.cartStack c) 0%Q)).
  split.
  - unfold viewCart. rewrite Hc. cbn [bind].
    destruct (Customer.cartStack c) as [| it rest] eqn:E; [congruence |].
    now destruct (viewLines (it :: rest) 0%Q).
  - split; [rewrite Ht; lra | split; [exact Hn |]].
    intros H Hr Hno.
    destruct (processCheckout_Done _ _ _ _ _ _ _ Hc Hne H)
      as (ps & total & outs & cin' & Hq & _ & _ & ->).
    exists outs, total. split; [reflexivity |].
    cbn [refusals] in Hno. rewrite refusals_app in Hno.
    rewrite (processQueue_charged _ _ _ _ _ _ _ _ Hq Hr ltac:(lia)), Ht.
    reflexivity.
Qed.

Lemma checkout_pays_the_estimate_witness :
  exists lines estimate m' fs' outs total,
    viewCart Example.staged = Done (Some (lines, estimate))
    /\ (estimate == 36)%Q
    /\ processCheckout Example.staged Example.no_files Example.typed
       = Done (m', fs', OutReceiptHeader :: outs ++ [OutTotal total])
    /\ (total == estimate)%Q.
Proof.
  destruct (processCheckout Example.staged Example.no_files Example.typed)
    as [[[m' fs'] out] | | | |] eqn:E; try (vm_compute in E; discriminate).
  destruct (checkout_pays_the_estimate Example.staged m' Example.no_files fs'
              Example.typed
              (Customer.set_cartStack Example.al
                 [CartItem.mk Example.gadget 2; CartItem.mk Example.widget 3])
              out eq_refl ltac:(discriminate))
    as (lines & estimate & Hv & He & _ & Hpay).
  assert (Hno : refusals out = O).
  { vm_compute in E. inversion E. reflexivity. }
  destruct (Hpay E eq_refl Hno) as (outs & total & -> & Ht).
  exists lines, estimate, m', fs', outs, total.
  split; [exact Hv |]. split; [exact He |]. split; [reflexivity | exact Ht].
Defined.

(** ** Further properties: lines that are not read back *)

Lemma pushToCustomer_notin (cid : Z) (item : CartItem.t) (cs : list Customer.t) :
  ~ In cid (map Customer.id cs) -> pushToCustomer cid item cs = None.
Proof.
  induction cs as [| c rest IH]; simpl; intros H; [reflexivity |].
  destruct (Customer.id c =? cid) eqn:E.
  - apply Z.eqb_eq in E. tauto.
  - rewrite IH by tauto. reflexivity.
Qed.

(** X18: a cart line that names a product id no live product has, or a
    customer id no customer has, is passed over: the load goes on and the
    carts stay as they are. *)
Theorem load_cart_drops_unresolved (ps : list Product.t) (cid : Z)
    (item : CartItem.t) (cs : list Customer.t) :
  in_int cid = true ->
  item_ok item = true ->
  findProduct (Product.id (CartItem.product item)) ps = None
  \/ ~ In cid (map Customer.id cs) ->
  load_cart ps (join (cart_fields cid item)) cs = Done cs.
Proof.
  intros Hcid Hitem Hmiss. rewrite (load_cart_deliver ps cid item cs Hcid Hitem).
  unfold relink, deliver, push_or_skip.
  destruct (findProduct (Product.id (CartItem.product item)) ps) as [p |] eqn:Ef.
  - destruct Hmiss as [Hnone | Hnotin]; [discriminate |].
    cbn [fold_left]. now rewrite (pushToCustomer_notin _ _ _ Hnotin).
  - reflexivity.
Qed.

Lemma load_cart_drops_unresolved_witness :
  load_cart [Example.widget]
    (join (cart_fields 1 (CartItem.mk Example.gadget 2))) [Example.al]
  = Done [Example.al].
Proof.
  exact (load_cart_drops_unresolved [Example.widget] 1
           (CartItem.mk Example.gadget 2) [Example.al] eq_refl eq_refl
           (or_introl eq_refl)).
Defined.

(** X19: a seller or a customer whose email is empty is written as a
    line that ends with a bar; read back, the line has one field too few
    and is passed over, so the record is gone after the next start. *)
Theorem empty_email_not_read_back :
  (forall (s : Seller.t) (acc : list Seller.t * Z),
      plain (Seller.name s) = true ->
      Seller.email s = EmptyString ->
      load_seller (join (seller_fields s)) acc = Done acc)
  /\ (forall (c : Customer.t) (acc : list Customer.t * Z),
        plain (Customer.name c) = true ->
        plain (Customer.address c) = true ->
        plain (Customer.phone c) = true ->
        Customer.email c = EmptyString ->
        load_customer (join (customer_fields c)) acc = Done acc).
Proof.
  split.
  - intros s [ss counter] Hn He. unfold load_seller, seller_fields.
    rewrite He. cbn [join].
    rewrite segments_app_delim by (apply plain_no_bar, show_int_plain).
    rewrite segments_app_delim by now apply plain_no_bar.
    reflexivity.
  - intros c [cs counter] Hn Ha Hp He. unfold load_customer, customer_fields.
    rewrite He. cbn [join].
    rewrite segments_app_delim by (apply plain_no_bar, show_int_plain).
    rewrite !segments_app_delim by now apply plain_no_bar.
    reflexivity.
Qed.

Lemma empty_email_not_read_back_witness :
  load_seller (join (seller_fields (Seller.mk 4 "Sid" EmptyString)))
    ([Example.sam], 2)
  = Done ([Example.sam], 2).
Proof.
  exact (proj1 empty_email_not_read_back (Seller.mk 4 "Sid" EmptyString)
           ([Example.sam], 2) eq_refl eq_refl).
Defined.

(** ** Further properties: reading a number *)

(** X20: [getIntInput] passes over the pending lines on which it finds
    no number, with one complaint for each that is not empty, and returns
    the first number that fits an [int], leaving the rest of its line
    pending; when no line holds such a number at its front it does not
    return. *)
Theorem getIntInput_first_number :
  (forall (skipped : Cin) (z : Z) (line : list token) (rest : Cin),
      forallb no_number skipped = true ->
      in_int z = true ->
      getIntInput (skipped ++ (Num z :: line) :: rest)
      = Done (z, complaints skipped, line :: rest))
  /\ (forall cin : Cin,
        forallb no_number cin = true -> getIntInput cin = Blocked).
Proof.
  split.
  - intros skipped z line rest Hs Hz.
    induction skipped as [| l skipped IH]; simpl.
    + now rewrite Hz.
    + simpl in Hs. apply andb_true_iff in Hs. destruct Hs as [Hl Hs].
      specialize (IH Hs). destruct l as [| [z0 |] l]; simpl in Hl.
      * exact IH.
      * apply negb_true_iff in Hl. rewrite Hl, IH. reflexivity.
      * rewrite IH. reflexivity.
  - intros cin Hs. induction cin as [| l cin IH]; simpl; [reflexivity |].
    simpl in Hs. apply andb_true_iff in Hs. destruct Hs as [Hl Hs].
    specialize (IH Hs). destruct l as [| [z0 |] l]; simpl in Hl.
    + exact IH.
    + apply negb_true_iff in Hl. rewrite Hl, IH. reflexivity.
    + rewrite IH. reflexivity.
Qed.

Lemma getIntInput_first_number_witness :
  getIntInput ([[Junk; Num 1]; []; [Num 99999999999]] ++ (Num 7 :: [Num 2]) :: [])
  = Done (7, 2%nat, [[Num 2]]).
Proof.
  exact (proj1 getIntInput_first_number [[Junk; Num 1]; []; [Num 99999999999]]
           7 [Num 2] [] eq_refl eq_refl).
Defined.

(** ** Further properties: staging *)

(** X21: an addition to the cart reserves nothing: the products and
    their stock, the sellers and the records and carts of the other
    customers are as before; the files are rewritten from the new store
    when an item was staged, and are left alone otherwise. *)
Theorem addToCart_leaves_the_rest (m m' : Marketplace.t) (fs fs' : Files)
    (pid qty : Z) (out : list Out) :
  addToCart m fs pid qty = Done (m', fs', out) ->
  products m' = products m
  /\ sellers m' = sellers m
  /\ map without_cart (customers m') = map without_cart (customers m)
  /\ (forall j, j <> Z.to_nat (currentCustomerIdx m) ->
        nth_error (customers m') j = nth_error (customers m) j)
  /\ ((m' = m /\ fs' = fs) \/ (fs' = saveData m' /\ exists name, out = [OutAdded qty name])).
Proof.
  intros H. unfold addToCart in H. bind_inv H.
  destruct (currentCustomer_nth m a E) as [_ Hn].
  destruct (findProduct pid (products m)) as [p |].
  - destruct (Product.quantity p <? qty).
    + inversion H; subst. repeat split. left. split; reflexivity.
    + inversion H; subst. clear H.
      cbn [products sellers customers set_currentCart set_customers].
      split; [reflexivity |]. split; [reflexivity |].
      split; [now apply without_cart_update_at |].
      split.
      * intros j Hj. apply nth_error_update_at_other. congruence.
      * right. split; [reflexivity | now exists (Product.name p)].
  - inversion H; subst. repeat split. left. split; reflexivity.
Qed.

Lemma addToCart_leaves_the_rest_witness :
  exists m' fs' out,
    addToCart Example.store Example.no_files 2 4 = Done (m', fs', out)
    /\ products m' = [Example.widget; Example.gadget]
    /\ sellers m' = [Example.sam].
Proof.
  destruct (addToCart Example.store Example.no_files 2 4)
    as [[[m' fs'] out] | | | |] eqn:E; try (vm_compute in E; discriminate).
  destruct (addToCart_leaves_the_rest Example.store m' Example.no_files fs'
              2 4 out E) as (Hp & Hs & _).
  exists m', fs', out. split; [reflexivity |]. split; [exact Hp | exact Hs].
Defined.

(** ** Further properties: saving and loading twice *)

Lemma findProduct_Some (pid : Z) (ps : list Product.t) (p : Product.t) :
  findProduct pid ps = Some p -> In p ps /\ Product.id p = pid.
Proof.
  induction ps as [| p0 rest IH]; simpl; [discriminate |].
  destruct (Product.id p0 =? pid) eqn:E.
  - intros H; inversion H; subst. apply Z.eqb_eq in E. split; [now left | exact E].
  - intros H. destruct (IH H). split; [now right | assumption].
Qed.

Lemma relinked_app (ps : list Product.t) (a b : list CartItem.t) :
  relinked ps (a ++ b) = relinked ps a ++ relinked ps b.
Proof. unfold relinked. apply flat_map_app. Qed.

Lemma relinked_rev (ps : list Product.t) (l : list CartItem.t) :
  relinked ps (rev l) = rev (relinked ps l).
Proof.
  induction l as [| item l IH]; [reflexivity |].
  simpl rev. rewrite relinked_app, IH. unfold relinked at 2 3. simpl.
  rewrite app_nil_r, rev_app_distr. f_equal.
  unfold relink. now destruct (findProduct _ ps).
Qed.

(** An item that went through the cart file once goes through it
    unchanged. *)
Lemma relinked_twice (ps : list Product.t) (l : list CartItem.t) :
  relinked ps (relinked ps l) = relinked ps l.
Proof.
  induction l as [| item l IH]; [reflexivity |].
  unfold relinked in *. simpl. rewrite flat_map_app, IH. f_equal.
  unfold relink at 2 3.
  destruct (findProduct (Product.id (CartItem.product item)) ps) as [p |] eqn:E;
    [| reflexivity].
  simpl. rewrite app_nil_r. unfold relink. simpl.
  destruct (findProduct_Some _ _ _ E) as [_ Hid]. now rewrite Hid, E.
Qed.

Lemma relinked_item_ok (ps : list Product.t) (l : list CartItem.t) :
  forallb product_ok ps = true ->
  forallb item_ok l = true ->
  forallb item_ok (relinked ps l) = true.
Proof.
  intros Hps. rewrite forallb_forall in Hps.
  induction l as [| item l IH]; intros Hl; [reflexivity |].
  simpl in Hl. apply andb_true_iff in Hl. destruct Hl as [Hi Hl].
  unfold relinked. simpl. rewrite forallb_app. fold (relinked ps l).
  rewrite (IH Hl), andb_true_r. unfold relink.
  destruct (findProduct (Product.id (CartItem.product item)) ps) as [p |] eqn:E;
    [| reflexivity].
  simpl. rewrite andb_true_r. unfold item_ok in *. simpl.
  apply andb_true_iff in Hi. destruct Hi as [_ Hq]. rewrite Hq, andb_true_r.
  destruct (findProduct_Some _ _ _ E) as [Hin _]. specialize (Hps p Hin).
  unfold product_ok in Hps. split_andb Hps.
  exact (proj1 (id_ok_spec _ Hps)).
Qed.

Lemma reloaded_customer_ok (ps : list Product.t) (c : Customer.t) :
  forallb product_ok ps = true ->
  customer_ok c = true -> customer_ok (reloaded ps c) = true.
Proof.
  intros Hps Hc. unfold customer_ok in *. split_andb Hc.
  cbn [reloaded Customer.id Customer.name Customer.address Customer.phone
       Customer.email Customer.cartStack Customer.set_cartStack].
  rewrite Hc, Hok4, Hok3, Hok2, Hok1, Hok0. simpl.
  rewrite <- relinked_rev. apply relinked_item_ok; [exact Hps |].
  rewrite forallb_forall in Hok |- *. intros x Hx. apply Hok.
  now apply in_rev.
Qed.

(** X24: a second cycle of saving and loading undoes the reversal of the
    first: with distinct customer ids, a storable store that is saved and
    loaded twice has its sellers and products as before and every cart in
    its order, each item with the live product of its id. *)
Theorem save_load_twice (m : Marketplace.t) :
  storable m = true ->
  distinct (map Customer.id (customers m)) = true ->
  exists m1 m2,
    loadData initial (saveData m) = Done m1
    /\ loadData initial (saveData m1) = Done m2
    /\ sellers m2 = sellers m
    /\ products m2 = products m
    /\ customers m2
       = map (fun c =>
                Customer.set_cartStack c
                  (relinked (products m) (Customer.cartStack c)))
             (customers m).
Proof.
  intros Hst Hd.
  destruct (save_load_exact m Hst) as (m1 & E1 & Hs1 & Hp1 & _ & Hc1).
  pose proof (deliver_all_reloaded (products m) (customers m) []
                (distinct_NoDup _ Hd)) as R1.
  cbn [map app] in R1. rewrite R1 in Hc1. clear R1.
  assert (Hst1 : storable m1 = true).
  { unfold storable in *. split_andb Hst. rewrite Hs1, Hp1, Hc1, Hst, Hok. simpl.
    rewrite andb_true_r. rewrite forallb_forall in Hok0 |- *.
    intros c' Hc'. apply in_map_iff in Hc'. destruct Hc' as (c & <- & Hin).
    apply reloaded_customer_ok; [exact Hok | now apply Hok0]. }
  assert (Hd1 : distinct (map Customer.id (customers m1)) = true).
  { rewrite Hc1, map_map. exact Hd. }
  destruct (save_load_exact m1 Hst1) as (m2 & E2 & Hs2 & Hp2 & _ & Hc2).
  pose proof (deliver_all_reloaded (products m1) (customers m1) []
                (distinct_NoDup _ Hd1)) as R2.
  cbn [map app] in R2. rewrite R2 in Hc2. clear R2.
  exists m1, m2. split; [exact E1 |]. split; [exact E2 |].
  split; [congruence |]. split; [congruence |].
  rewrite Hc2, Hp1, Hc1, map_map. apply map_ext. intros c.
  unfold reloaded. cbn [Customer.cartStack Customer.set_cartStack
    Customer.id Customer.name Customer.address Customer.phone Customer.email].
  now rewrite relinked_rev, rev_involutive, relinked_twice.
Qed.

Lemma save_load_twice_witness :
  exists m1 m2,
    loadData initial (saveData Example.staged) = Done m1
    /\ loadData initial (saveData m1) = Done m2
    /\ customers m2 = customers Example.staged.
Proof.
  destruct (save_load_twice Example.staged eq_refl eq_refl)
    as (m1 & m2 & E1 & E2 & _ & _ & Hc).
  exists m1, m2. split; [exact E1 |]. split; [exact E2 |].
  rewrite Hc. reflexivity.
Defined.
